(** * Whisper-Transcribe: chunking, sanitising and stitching pipeline

    A shallow embedding of the transcription core of the extension
    (popup/popup.js, shared/whisper-utils.js and the stand-alone popup
    script) together with the properties its design document states,
    followed by the WAV encoder, the recorder's stop handler, the
    transcription history and the timers (popup/popup.js,
    background/background.js, sidepanel/sidepanel.js) with properties
    read off the code.

    Conventions.
    - A JavaScript string is the list of its UTF-16 code units.
    - Sample counts, sample rates and window bounds are integers far below
      2^53, where IEEE double arithmetic is exact; they are modelled in [Z]
      (and their quotients by a constant, which are only compared, in
      [Q]).  The resampling ratio and the indices computed from it are
      doubles, rounded as IEEE 754 prescribes.
    - Audio samples are kept abstract: the development is parametric in the
      sample type and in the rounding average [(l + r) / 2].
    - An [await]ed call that may reject is a value of type [outcome]. *)

From Stdlib Require Import List Bool Arith ZArith NArith QArith Qround Qabs Qpower.
From Stdlib Require Import Lia Lqa.
From Stdlib Require Import Ascii String.
Import ListNotations.

Set Implicit Arguments.
Local Close Scope Q_scope.

(* ===================================================================== *)
(** ** JavaScript strings and the regular expressions the code uses      *)
(* ===================================================================== *)

Module JS.
Local Open Scope N_scope.

(** A UTF-16 code unit. *)
Definition char := N.
Definition jsstring := list char.

(** Reads an ASCII literal of this file as a JavaScript string. *)
Definition lit (s : string) : jsstring :=
  List.map N_of_ascii (list_ascii_of_string s).

Definition char_eqb (a b : char) : bool := N.eqb a b.

Fixpoint str_eqb (a b : jsstring) : bool :=
  match a, b with
  | [], [] => true
  | x :: a', y :: b' => char_eqb x y && str_eqb a' b'
  | _, _ => false
  end.

Definition between (lo hi c : char) : bool := (N.leb lo c && N.leb c hi)%bool.

(** The class [\s] (ECMAScript WhiteSpace and LineTerminator); the same set
    is what [String.prototype.trim] removes. *)
Definition is_space (c : char) : bool :=
  (between 9 13 c || char_eqb c 32 || char_eqb c 160 || char_eqb c 5760
   || between 8192 8202 c || char_eqb c 8232 || char_eqb c 8233
   || char_eqb c 8239 || char_eqb c 8287 || char_eqb c 12288
   || char_eqb c 65279)%bool.

(** The class [\w], that is [A-Za-z0-9_]. *)
Definition is_word (c : char) : bool :=
  (between 48 57 c || between 65 90 c || char_eqb c 95 || between 97 122 c)%bool.

(** The class [[.,;:!?]]. *)
Definition is_punct (c : char) : bool :=
  (char_eqb c 46 || char_eqb c 44 || char_eqb c 59 || char_eqb c 58
   || char_eqb c 33 || char_eqb c 63)%bool.

Definition SPACE : char := 32.
Definition LBRACKET : char := 91.
Definition RBRACKET : char := 93.
Definition LANGLE : char := 60.

(** A matcher tries to match a pattern at the very start of its argument
    and returns what is left after the match. *)
Definition matcher := jsstring -> option jsstring.

(** A literal pattern. *)
Fixpoint m_lit (p : jsstring) : matcher :=
  fun s =>
    match p with
    | [] => Some s
    | a :: p' =>
        match s with
        | b :: s' => if char_eqb a b then m_lit p' s' else None
        | [] => None
        end
    end.

(** One character of a class. *)
Definition m_one (cls : char -> bool) : matcher :=
  fun s => match s with
           | c :: t => if cls c then Some t else None
           | [] => None
           end.

(** [cls*]: greedy; every use below is followed by a character outside the
    class (or by the end of the pattern), so no backtracking is involved. *)
Fixpoint drop_while (cls : char -> bool) (s : jsstring) : jsstring :=
  match s with
  | c :: t => if cls c then drop_while cls t else s
  | [] => []
  end.

Definition m_star (cls : char -> bool) : matcher :=
  fun s => Some (drop_while cls s).

(** [cls+]. *)
Definition m_plus (cls : char -> bool) : matcher :=
  fun s => match m_one cls s with
           | Some t => Some (drop_while cls t)
           | None => None
           end.

(** Sequencing of two matchers. *)
Definition m_seq (m1 m2 : matcher) : matcher :=
  fun s => match m1 s with
           | Some t => m2 t
           | None => None
           end.

(** [m$]: the match must reach the end of the input. *)
Definition m_to_end (m : matcher) : matcher :=
  fun s => match m s with
           | Some [] => Some []
           | _ => None
           end.

(** One letter under the [i] flag (ASCII letters only: without the [u]
    flag no character outside ASCII canonicalises to an ASCII letter). *)
Definition ci (lower : char) : char -> bool :=
  fun c => (char_eqb c lower || char_eqb c (lower - 32))%bool.

(** [s.replace(/m/g, r)]: scan from the left; at a match emit [r] and go
    on after it, otherwise keep the character.  [skip] counts the
    characters of the current match that remain to be dropped. *)
Fixpoint replace_all_from (m : matcher) (r : jsstring) (skip : nat)
         (s : jsstring) : jsstring :=
  match s with
  | [] => []
  | c :: t =>
      match skip with
      | S k => replace_all_from m r k t
      | O =>
          match m s with
          | Some rest =>
              match Nat.sub (List.length s) (List.length rest) with
              | S k => r ++ replace_all_from m r k t
              | O => c :: replace_all_from m r 0 t
              end
          | None => c :: replace_all_from m r 0 t
          end
      end
  end.

Definition replace_all (m : matcher) (r : jsstring) (s : jsstring) : jsstring :=
  replace_all_from m r 0 s.

(** [s.replace(/m/, '')] without the [g] flag: only the leftmost match is
    removed. *)
Fixpoint remove_first (m : matcher) (s : jsstring) : jsstring :=
  match m s with
  | Some rest => rest
  | None =>
      match s with
      | [] => []
      | c :: t => c :: remove_first m t
      end
  end.

(** [s.replace(/^m/, '')]: the pattern is anchored at the start. *)
Definition remove_at_start (m : matcher) (s : jsstring) : jsstring :=
  match m s with
  | Some rest => rest
  | None => s
  end.

(** [String.prototype.trim]: the whitespace at both ends is removed. *)
Definition trimStart (s : jsstring) : jsstring := drop_while is_space s.

Fixpoint trimEnd (s : jsstring) : jsstring :=
  match s with
  | [] => []
  | c :: t =>
      match trimEnd t with
      | [] => if is_space c then [] else [c]
      | t' => c :: t'
      end
  end.

Definition trim (s : jsstring) : jsstring := trimEnd (trimStart s).

(** The first, respectively the last, character of [s] is outside the
    class (or [s] is empty). *)
Definition starts_outside (cls : char -> bool) (s : jsstring) : bool :=
  match s with
  | [] => true
  | c :: _ => negb (cls c)
  end.

Fixpoint ends_outside (cls : char -> bool) (s : jsstring) : bool :=
  match s with
  | [] => true
  | [c] => negb (cls c)
  | _ :: t => ends_outside cls t
  end.

(** Whitespace occurs only as single spaces. *)
Fixpoint ws_normal (s : jsstring) : bool :=
  match s with
  | [] => true
  | c :: t =>
      ((if is_space c then char_eqb c SPACE && starts_outside is_space t else true)
       && ws_normal t)%bool
  end.

(** [s.split(/\s+/)]: the pieces between maximal whitespace runs; a run at
    either end of the string leaves an empty piece there, and the empty
    string splits into one empty piece. *)
Fixpoint split_ws (s : jsstring) : list jsstring :=
  match s with
  | [] => [[]]
  | c :: t =>
      let r := split_ws t in
      if is_space c then
        match t with
        | d :: _ => if is_space d then r else [] :: r
        | [] => [] :: r
        end
      else
        match r with
        | w :: ws => (c :: w) :: ws
        | [] => [[c]]
        end
  end.

(** [words.join(sep)]. *)
Fixpoint join (sep : jsstring) (ws : list jsstring) : jsstring :=
  match ws with
  | [] => []
  | [w] => w
  | w :: rest => w ++ sep ++ join sep rest
  end.

(** [s.endsWith(' ')]. *)
Definition ends_with_space (s : jsstring) : bool :=
  match List.rev s with
  | c :: _ => char_eqb c SPACE
  | [] => false
  end.

(** Truthiness of a string: only the empty string is falsy. *)
Definition truthy (s : jsstring) : bool :=
  match s with [] => false | _ :: _ => true end.

(** [a || b] on strings. *)
Definition or_else (a b : jsstring) : jsstring := if truthy a then a else b.

End JS.

(* ===================================================================== *)
(** ** TextSanitizer: [cleanWhisperOutput] (shared/whisper-utils.js)     *)
(* ===================================================================== *)

Module Sanitizer.
Import JS.
Local Open Scope N_scope.

(** [/\[\w+\]/] *)
Definition m_tag : matcher :=
  m_seq (m_one (char_eqb LBRACKET)) (m_seq (m_plus is_word) (m_one (char_eqb RBRACKET))).

(** [/\[\s*music\s*\]\s*/i], shared by the two music patterns. *)
Definition m_music_core : matcher :=
  m_seq (m_one (char_eqb LBRACKET))
 (m_seq (m_star is_space)
 (m_seq (m_one (ci 109)) (m_seq (m_one (ci 117)) (m_seq (m_one (ci 115))
 (m_seq (m_one (ci 105)) (m_seq (m_one (ci 99))
 (m_seq (m_star is_space)
 (m_seq (m_one (char_eqb RBRACKET)) (m_star is_space))))))))).

(** [/^\s*\[\s*music\s*\]\s*/i] *)
Definition m_music_start : matcher := m_seq (m_star is_space) m_music_core.

(** [/\[\s*music\s*\]\s*$/i] *)
Definition m_music_end : matcher := m_to_end m_music_core.

(** [/^\s*\.\s*$/] *)
Definition m_lone_period : matcher :=
  m_to_end (m_seq (m_star is_space) (m_seq (m_one (char_eqb 46)) (m_star is_space))).

(** [/^[.,;:!?]+/] and [/[.,;:!?]+$/] *)
Definition m_punct : matcher := m_plus is_punct.
Definition m_punct_end : matcher := m_to_end (m_plus is_punct).

(** [s.replace(/\s+/g, ' ')] *)
Definition collapse (s : jsstring) : jsstring :=
  replace_all (m_plus is_space) [SPACE] s.

(** The chain of replacements applied to a non-empty text, in source
    order. *)
Definition clean_text (text : jsstring) : jsstring :=
  let s := replace_all (m_lit (lit "<|startoftranscript|>")) [] text in
  let s := replace_all (m_lit (lit "<|endoftranscript|>")) [] s in
  let s := replace_all (m_lit (lit "<|endoftext|>")) [] s in
  let s := replace_all (m_lit (lit "<|notimestamps|>")) [] s in
  let s := replace_all (m_lit (lit "<|transcribe|>")) [] s in
  let s := replace_all (m_lit (lit "<|translate|>")) [] s in
  let s := replace_all (m_lit (lit "[START]")) [] s in
  let s := replace_all (m_lit (lit "[END]")) [] s in
  let s := replace_all m_tag [] s in
  let s := replace_all (m_lit (lit "[BLANK_AUDIO]")) [] s in
  let s := remove_at_start m_music_start s in
  let s := remove_first m_music_end s in
  let s := collapse s in
  let s := remove_at_start m_lone_period s in
  let s := remove_at_start m_punct s in
  let s := remove_first m_punct_end s in
  trim s.

(** [cleanWhisperOutput(text)]; [None] stands for [null] or [undefined].
    A falsy argument (no text, or the empty string) yields ['']. *)
Definition cleanWhisperOutput (text : option jsstring) : jsstring :=
  match text with
  | None => []
  | Some [] => []
  | Some t => clean_text t
  end.

(** The text holds neither ['<'] nor ['[']. *)
Definition no_markup (s : jsstring) : bool :=
  List.forallb (fun c => negb (char_eqb c LANGLE || char_eqb c LBRACKET)) s.

(** The text neither begins nor ends with one of [. , ; : ! ?]. *)
Definition no_punct_ends (s : jsstring) : bool :=
  (starts_outside is_punct s && ends_outside is_punct s)%bool.

End Sanitizer.

(* ===================================================================== *)
(** ** Exceptions and awaited calls                                      *)
(* ===================================================================== *)

Module Effects.
Import JS.

Inductive errorKind := ReferenceError | TypeError | PlainError.

Record exn := mkExn { kind : errorKind; message : jsstring }.

(** The result of a call that may throw (or of a promise that may
    reject). *)
Inductive outcome (A : Type) : Type :=
| Return (a : A)
| Throw (e : exn).

Arguments Return {A} a.
Arguments Throw {A} e.

Definition bind {A B : Type} (x : outcome A) (k : A -> outcome B) : outcome B :=
  match x with
  | Return a => k a
  | Throw e => Throw e
  end.

(** [0, 1, ..., n-1], the values a counting [for] loop runs through. *)
Definition upto (n : Z) : list Z := List.map Z.of_nat (List.seq 0 (Z.to_nat n)).

End Effects.

Notation "x <- c1 ;; c2" := (Effects.bind c1 (fun x => c2))
  (at level 61, c1 at next level, right associativity).

(* ===================================================================== *)
(** ** IEEE 754 double arithmetic                                        *)
(* ===================================================================== *)

(** A JavaScript number is a binary64 value.  The finite ones are
    rationals [m * 2^e] with [|m| < 2^53]; the result of an arithmetic
    operation is the exact result rounded to the nearest such value, ties
    going to the even significand.  The numbers the resampler computes are
    far from the overflow and underflow thresholds, so the exponent is
    left unbounded. *)
Module Double.

Definition pow2 (e : Z) : Q := Qpower 2 e.

(** The integer nearest to [x], ties to even. *)
Definition nearest_even (x : Q) : Z :=
  let k := Qfloor x in
  match (x - inject_Z k ?= 1 # 2)%Q with
  | Lt => k
  | Gt => (k + 1)%Z
  | Eq => if Z.even k then k else (k + 1)%Z
  end.

(** For [x > 0], the exponent [e] with [2^52 <= x / 2^e < 2^53]: the unit
    in the last place of the doubles around [x] is [2^e]. *)
Definition exponent (x : Q) : Z :=
  let e0 := (Z.log2 (Qnum x) - Z.log2 (Zpos (Qden x)) - 52)%Z in
  if Qle_bool (pow2 52) (x / pow2 e0)%Q then e0 else (e0 - 1)%Z.

Definition round_pos (x : Q) : Q :=
  let e := exponent x in
  (inject_Z (nearest_even (x / pow2 e)) * pow2 e)%Q.

(** Round to nearest, ties to even. *)
Definition round (x : Q) : Q :=
  match Qnum x with
  | Z0 => 0%Q
  | Zpos _ => round_pos x
  | Zneg _ => (- round_pos (- x))%Q
  end.

(** [x / y] (for [y] other than zero) and [x * y] on doubles. *)
Definition div (x y : Q) : Q := round (x / y).
Definition mul (x y : Q) : Q := round (x * y).

(** The finite doubles, exponent range aside. *)
Definition representable (y : Q) : Prop :=
  exists m e, (Z.abs m < 2 ^ 53)%Z /\ (y == inject_Z m * pow2 e)%Q.

End Double.

(* ===================================================================== *)
(** ** AudioNormalizer: channel selection, resampling, mono mix-down     *)
(* ===================================================================== *)

Module Normalizer.
Import Effects.

Section Samples.

(** The sample type, and the value a [Float32Array] holds after a read
    past the end of the source array was stored into it. *)
Variable sample : Type.
Variable nan : sample.
(** [(l + r) / 2] as stored into a [Float32Array]. *)
Variable avg : sample -> sample -> sample.

(** A decoded [AudioBuffer]: its sample rate in Hz and one sample array
    per channel, all of the same length. *)
Record AudioBuffer := mkBuffer {
  sampleRate : positive;
  channels : list (list sample)
}.

Definition numberOfChannels (b : AudioBuffer) : Z :=
  Z.of_nat (List.length (channels b)).

Definition getChannelData (b : AudioBuffer) (k : nat) : list sample :=
  List.nth k (channels b) [].

(** [audioBuffer.length], the number of sample frames. *)
Definition frames (b : AudioBuffer) : nat := List.length (getChannelData b 0).

(** [data[i]] on a typed array, for a non-negative integer index. *)
Definition at_index (data : list sample) (i : Z) : sample :=
  List.nth (Z.to_nat i) data nan.

(** [ratio = sampleRate / 16000], a double. *)
Definition ratio (rate : positive) : Q :=
  Double.div (inject_Z (Zpos rate)) (inject_Z 16000).

(** [newLength = Math.floor(data.length / ratio)]. *)
Definition newLength (rate : positive) (data : list sample) : Z :=
  Qfloor (Double.div (inject_Z (Z.of_nat (List.length data))) (ratio rate)).

(** The resampling loop: [out[i] = data[Math.floor(i * ratio)]] for
    [i < newLength]. *)
Definition resample (rate : positive) (data : list sample) : list sample :=
  List.map (fun i => at_index data (Qfloor (Double.mul (inject_Z i) (ratio rate))))
           (upto (newLength rate data)).

(** [processAudioBlob] after decoding (and, with the same body, the manual
    fallback of the shared transcriber): the first channel, resampled when
    the buffer is not at 16 kHz. *)
Definition processAudioBlob (b : AudioBuffer) : list sample :=
  let audioData := getChannelData b 0 in
  if (sampleRate b =? 16000)%positive then audioData
  else resample (sampleRate b) audioData.

(** The mono mix-down at the head of the Web Audio path of
    [processLongRecording]: for more than one channel the pointwise
    average of channels 0 and 1, else a copy of channel 0. *)
Definition monoMix (b : AudioBuffer) : list sample :=
  let leftChannel := getChannelData b 0 in
  if (1 <? numberOfChannels b)%Z then
    let rightChannel := getChannelData b 1 in
    List.map (fun i => avg (at_index leftChannel i) (at_index rightChannel i))
             (upto (Z.of_nat (frames b)))
  else leftChannel.

(** [data.slice(start, end)] on a typed array: negative bounds count from
    the end, both are clamped to the array. *)
Definition rel_index (len k : Z) : Z :=
  if (k <? 0)%Z then Z.max (len + k) 0 else Z.min k len.

Definition slice (data : list sample) (start stop : Z) : list sample :=
  let len := Z.of_nat (List.length data) in
  let k := rel_index len start in
  let final := rel_index len stop in
  List.firstn (Z.to_nat (Z.max (final - k) 0)) (List.skipn (Z.to_nat k) data).

End Samples.

(** Follows the design document's words: "if multi-channel, average
    channels to mono", over exact rational samples. *)
Definition spec_channel_average (chans : list (list Q)) (i : nat) : Q :=
  (List.fold_right Qplus 0 (List.map (fun ch => List.nth i ch 0) chans)
   / inject_Z (Z.of_nat (List.length chans)))%Q.

End Normalizer.

(* ===================================================================== *)
(** ** Segmenter: window sizes and window list of the custom chunking    *)
(* ===================================================================== *)

Module Segmenter.
Import Effects.

(** A JavaScript number that is an integer or one of the non-finite
    values a division by zero produces. *)
Inductive jsnum := Fin (z : Z) | PosInf | NegInf | NaN.

(** The options argument of the transcriber; [None] is an absent field. *)
Record Options := mkOptions {
  opt_chunk_length_s : option Z;
  opt_stride_length_s : option Z;
  opt_max_new_tokens : option Z;
  opt_return_timestamps : option bool
}.

Definition noOptions : Options := mkOptions None None None None.

(** [chunkOptions], the options merged with their defaults. *)
Record ChunkOptions := mkChunkOptions {
  chunk_length_s : Z;
  stride_length_s : Z;
  max_new_tokens : Z;
  return_timestamps : bool
}.

(** [x || d] on an optional number: absent and [0] are falsy. *)
Definition num_or (x : option Z) (d : Z) : Z :=
  match x with
  | Some v => if (v =? 0)%Z then d else v
  | None => d
  end.

Definition chunkOptions (options : Options) : ChunkOptions :=
  mkChunkOptions (num_or (opt_chunk_length_s options) 20)
                 (num_or (opt_stride_length_s options) 5)
                 (num_or (opt_max_new_tokens options) 448)
                 (match opt_return_timestamps options with
                  | Some b => b
                  | None => true
                  end).

Definition sampleRate : Z := 16000.

(** [estimatedDuration = audioData.length / 16000], in seconds. *)
Definition estimatedDuration (len : Z) : Q := (inject_Z len / inject_Z 16000)%Q.

(** [a > b] on numbers. *)
Definition gt (a b : Q) : bool := negb (Qle_bool a b).

(** [(adjustedChunkSize, adjustedStrideSize)] in samples. *)
Definition adjustedSizes (len : Z) (o : ChunkOptions) : Z * Z :=
  let chunkSizeSamples := (chunk_length_s o * sampleRate)%Z in
  let strideSizeSamples := (stride_length_s o * sampleRate)%Z in
  if gt (estimatedDuration len) (inject_Z 120)
  then ((25 * sampleRate)%Z, (3 * sampleRate)%Z)
  else (chunkSizeSamples, strideSizeSamples).

(** [Math.ceil(a / b)] for integers [a] and [b]. *)
Definition ceil_quot (a b : Z) : jsnum :=
  if (b =? 0)%Z then
    if (0 <? a)%Z then PosInf else if (a <? 0)%Z then NegInf else NaN
  else Fin (Qceiling (inject_Z a / inject_Z b)%Q).

Definition succ_num (n : jsnum) : jsnum :=
  match n with
  | Fin z => Fin (z + 1)
  | other => other
  end.

(** [numChunks = Math.ceil((len - chunk) / (chunk - stride)) + 1]. *)
Definition numChunks (len : Z) (sizes : Z * Z) : jsnum :=
  let (chunk, stride) := sizes in
  succ_num (ceil_quot (len - chunk) (chunk - stride)).

(** A window, as the pair [(startSample, endSample)]. *)
Definition window := (Z * Z)%type.

Definition window_at (len : Z) (sizes : Z * Z) (i : Z) : window :=
  let (chunk, stride) := sizes in
  let startSample := (i * (chunk - stride))%Z in
  (startSample, Z.min (startSample + chunk) len).

(** The windows the loop [for (i = 0; i < numChunks; i++)] visits.
    [None]: [numChunks] is infinite and the loop has no last window. *)
Definition windows (len : Z) (sizes : Z * Z) : option (list window) :=
  match numChunks len sizes with
  | Fin n => Some (List.map (window_at len sizes) (upto n))
  | PosInf => None
  | NegInf | NaN => Some []
  end.

(** The windows for an audio of [len] samples and the caller's options. *)
Definition segment (len : Z) (options : Options) : option (list window) :=
  windows len (adjustedSizes len (chunkOptions options)).

(** Follows the design document's words:
    [ceil((totalSamples - windowSizeSamples) / (windowSizeSamples - strideSamples)) + 1]
    with the 25 s window and 3 s overlap of the long tier. *)
Definition spec_window_count (totalSamples : Z) : Z :=
  let windowSizeSamples := (25 * 16000)%Z in
  let strideSamples := (3 * 16000)%Z in
  (Qceiling (inject_Z (totalSamples - windowSizeSamples)
             / inject_Z (windowSizeSamples - strideSamples))%Q + 1)%Z.

End Segmenter.

(* ===================================================================== *)
(** ** StitchingAssembler: the de-duplicating merge of window texts      *)
(* ===================================================================== *)

Module Stitcher.
Import JS.

(** A JavaScript [Set] of strings: its elements in insertion order,
    without duplicates. *)
Definition jsSet := list jsstring.

Definition set_has (s : jsSet) (w : jsstring) : bool := List.existsb (str_eqb w) s.

(** [s.add(w)]: a new element goes to the end; a present one stays where
    it is. *)
Definition set_add (w : jsstring) (s : jsSet) : jsSet :=
  if set_has s w then s else s ++ [w].

(** [s.delete(w)]. *)
Fixpoint set_delete (w : jsstring) (s : jsSet) : jsSet :=
  match s with
  | [] => []
  | x :: t => if str_eqb x w then t else x :: set_delete w t
  end.

Definition set_size (s : jsSet) : nat := List.length s.

(** [[...s]] *)
Definition spread (s : jsSet) : list jsstring := s.

(** [[...lastWords].filter(w => w === word).length] *)
Definition repetitionCount (lastWords : jsSet) (word : jsstring) : nat :=
  List.length (List.filter (fun w => str_eqb w word) (spread lastWords)).

(** [if (lastWords.size > 20) lastWords.delete([...lastWords][0])] *)
Definition evict (lastWords : jsSet) : jsSet :=
  if Nat.ltb 20 (set_size lastWords) then
    match spread lastWords with
    | first :: _ => set_delete first lastWords
    | [] => lastWords
    end
  else lastWords.

(** The body of [for (const word of words)]; the state is
    [(uniqueWords, lastWords)]. *)
Definition track_word (st : list jsstring * jsSet) (word : jsstring)
  : list jsstring * jsSet :=
  let (uniqueWords, lastWords) := st in
  if Nat.ltb (repetitionCount lastWords word) 3 then
    (uniqueWords ++ [word], evict (set_add word lastWords))
  else st.

(** What one cleaned chunk adds; the state is
    [(fullTranscription, lastWords)]. *)
Definition merge_chunk (st : jsstring * jsSet) (cleanedChunk : jsstring)
  : jsstring * jsSet :=
  let (fullTranscription, lastWords) := st in
  if truthy cleanedChunk then
    let words := split_ws cleanedChunk in
    let (uniqueWords, lastWords') := List.fold_left track_word words ([], lastWords) in
    if Nat.ltb 0 (List.length uniqueWords) then
      let dedupedChunk := join [SPACE] uniqueWords in
      (fullTranscription
         ++ (if (truthy fullTranscription && negb (ends_with_space fullTranscription))%bool
             then [SPACE] else [])
         ++ dedupedChunk,
       lastWords')
    else (fullTranscription, lastWords')
  else st.

(** Merging the cleaned texts of all windows, starting from the empty
    transcript and the empty set. *)
Definition stitch (cleanedChunks : list jsstring) : jsstring * jsSet :=
  List.fold_left merge_chunk cleanedChunks ([], []).

(** The number of times [word] occurs among [words]. *)
Definition occurrences (word : jsstring) (words : list jsstring) : nat :=
  List.length (List.filter (str_eqb word) words).

(** The values [lastWords] can take while windows are stitched: it starts
    empty and changes only in the body of the word loop. *)
Inductive tracked : jsSet -> Prop :=
| tracked_empty : tracked []
| tracked_word (uniqueWords : list jsstring) (lastWords : jsSet) (word : jsstring) :
    tracked lastWords ->
    tracked (snd (track_word (uniqueWords, lastWords) word)).

End Stitcher.

(* ===================================================================== *)
(** ** The engine behind the custom transcriber                          *)
(* ===================================================================== *)

Module Transcriber.
Import JS.

Section Engine.

Variable sample : Type.

(** One run of the external engine: the consecutive calls [processor],
    [model.generate] and the tokenizer's [decode], none of which is
    guarded on its own, so that a throw of any of them is a throw of the
    run.  A chunk is sent with the chunk options, the whole audio with the
    fixed options of the short path (which also checks that the model is
    loaded and that the output is valid). *)
Inductive request :=
| ChunkRequest (chunkData : list sample) (o : Segmenter.ChunkOptions)
| WholeRequest (audioData : list sample).

End Engine.

(** The text returned for an empty transcription. *)
Definition EMPTY : jsstring := lit "[Empty transcription]".

End Transcriber.

(* ===================================================================== *)
(** ** processLongRecording (popup/popup.js)                             *)
(* ===================================================================== *)

Module LongRecording.
Import JS Sanitizer Effects Normalizer.

(** The blob a call of the transcriber receives: the whole recording
    (without or with the long-form options) or the blob of chunk [i]. *)
Inductive call := Direct | Full | Chunk (i : Z).

(** The observable state: [transcriptionEl.value] and the calls of the
    transcriber made so far, oldest first. *)
Record state := mkState {
  value : jsstring;
  calls : list call
}.

Definition set_value (st : state) (v : jsstring) : state := mkState v (calls st).
Definition log_call (st : state) (c : call) : state := mkState (value st) (calls st ++ [c]).

(** [value += (value ? '\n' : '') + text] *)
Definition append_line (st : state) (text : jsstring) : state :=
  set_value st (value st ++ (if truthy (value st) then [10%N] else []) ++ text).

Section World.

Variable sample : Type.
Variable nan : sample.
Variable avg : sample -> sample -> sample.

(** Everything outside the function that it consults. *)
Record World := mkWorld {
  (** [audioBlob.size]; [None] when the argument is [undefined]. *)
  blob_size : option Z;
  (** [transcriber] is set and is a function. *)
  transcriber_ready : bool;
  (** [(Date.now() - recordingStartTime) / 1000]. *)
  elapsed : Q;
  (** [await transcriber(blob, ...)]: the text when [result && result.text]
      holds, [None] when it does not. *)
  transcribe : call -> outcome (option jsstring);
  (** Loading the recording into an [Audio] element and reading its
      duration. *)
  metadata : outcome unit;
  (** Fetching and decoding the recording with the Web Audio API. *)
  decoded : outcome (AudioBuffer sample);
  (** [createBuffer] and [audioBufferToBlob] for chunk [i]. *)
  make_blob : Z -> outcome unit
}.

Variable w : World.

(** [chunkLength < 0.5] for an integer [chunkLength]. *)
Definition lt_half (chunkLength : Z) : bool := (2 * chunkLength <? 1)%Z.

Definition TRANSCRIBING : jsstring := lit " [transcribing...]".

(** [(startTime, endTime)] of chunk [i]. *)
Definition chunk_bounds (samplesPerChunk totalSamples i : Z) : Z * Z :=
  ((i * samplesPerChunk)%Z, Z.min ((i + 1) * samplesPerChunk) totalSamples).

(** The loop [for (i = 0; i < numChunks; i++)] of the Web Audio path.
    The state is threaded through; a throw outside the per-chunk handler
    ends the loop. *)
Fixpoint chunk_loop (samplesPerChunk totalSamples : Z) (indices : list Z)
         (fullTranscription : jsstring) (st : state) : state * outcome jsstring :=
  match indices with
  | [] => (st, Return fullTranscription)
  | i :: rest =>
      let continue := chunk_loop samplesPerChunk totalSamples rest in
      let (startTime, endTime) := chunk_bounds samplesPerChunk totalSamples i in
      let chunkLength := (endTime - startTime)%Z in
      if lt_half chunkLength then continue fullTranscription st
      else
        match make_blob w i with
        | Throw e => (st, Throw e)
        | Return _ =>
            let st := log_call st (Chunk i) in
            match transcribe w (Chunk i) with
            | Throw chunkError => continue fullTranscription st
            | Return None => continue fullTranscription st
            | Return (Some text) =>
                let chunkText := cleanWhisperOutput (Some text) in
                if truthy chunkText then
                  let fullTranscription :=
                    fullTranscription
                      ++ (if truthy fullTranscription then [SPACE] else [])
                      ++ chunkText in
                  continue fullTranscription
                           (set_value st (fullTranscription ++ TRANSCRIBING))
                else continue fullTranscription st
            end
        end
  end.

(** [numChunks = Math.ceil(totalSamples / samplesPerChunk)]. *)
Definition numChunks (samplesPerChunk totalSamples : Z) : Z :=
  Qceiling (inject_Z totalSamples / inject_Z samplesPerChunk)%Q.

(** The Web Audio path: the inner [try] and its handler, which turns any
    error into a line of the transcript and does not rethrow. *)
Definition web_audio_path (st : state) : state :=
  let attempt : state * outcome unit :=
    match decoded w with
    | Throw e => (st, Throw e)
    | Return audioBuffer =>
        let audioData := monoMix nan avg audioBuffer in
        let CHUNK_SIZE := 30%Z in
        let samplesPerChunk := (CHUNK_SIZE * Zpos (sampleRate audioBuffer))%Z in
        let totalSamples := Z.of_nat (List.length audioData) in
        let n := numChunks samplesPerChunk totalSamples in
        match chunk_loop samplesPerChunk totalSamples (upto n) [] st with
        | (st, Throw e) => (st, Throw e)
        | (st, Return fullTranscription) =>
            if truthy fullTranscription
            then (set_value st fullTranscription, Return tt)
            else (append_line st (lit "[No speech detected]"), Return tt)
        end
    end in
  match attempt with
  | (st, Return _) => st
  | (st, Throw audioError) =>
      append_line st (lit "[Error processing audio: " ++ message audioError ++ lit "]")
  end.

(** One guarded attempt on the whole recording; the flag tells whether it
    put a non-empty cleaned text into the transcript (the function then
    returns) or the function goes on. *)
Definition whole_attempt (c : call) (st : state) : state * bool :=
  let st := log_call st c in
  match transcribe w c with
  | Return (Some text) =>
      let cleanedText := cleanWhisperOutput (Some text) in
      if truthy cleanedText then (set_value st cleanedText, true) else (st, false)
  | Return None => (st, false)
  | Throw _ => (st, false)
  end.

(** The outer handler: the error becomes a line of the transcript and is
    thrown again. *)
Definition fail (st : state) (error : exn) : state * outcome unit :=
  (append_line st (lit "[Error processing recording: " ++ message error ++ lit "]"),
   Throw error).

(** The message of the [TypeError] that reading a property of
    [undefined] throws (as V8 words it). *)
Definition NO_SIZE : jsstring :=
  lit "Cannot read properties of undefined (reading 'size')".

(** The first statement of the function logs [audioBlob.size]: without a
    blob that read throws, before the test [!audioBlob || audioBlob.size
    === 0] is reached.  Every throw is inside the outer [try]. *)
Definition processLongRecording (st : state) : state * outcome unit :=
  match blob_size w with
  | None => fail st (mkExn TypeError NO_SIZE)
  | Some size =>
      if (size =? 0)%Z then fail st (mkExn PlainError (lit "Empty audio recording"))
      else if negb (transcriber_ready w)
      then fail st (mkExn PlainError (lit "Transcriber is not properly initialized"))
      else
        let (st, done) :=
          if negb (Qle_bool (inject_Z 15) (elapsed w))
          then whole_attempt Direct st
          else (st, false) in
        if done then (st, Return tt)
        else
          match metadata w with
          | Throw e => fail st e
          | Return _ =>
              let (st, done) := whole_attempt Full st in
              if done then (st, Return tt)
              else (web_audio_path st, Return tt)
          end
  end.

(** One channel of the buffer made for a chunk.  [createBuffer] is asked
    for [Math.floor(chunkLength * sampleRate)] frames, and the copy loop
    [chunkData[j] = channelData[startSample + j]] runs over
    [j < endSample - startSample] with
    [startSample = Math.floor(startTime * sampleRate)] and
    [endSample = Math.floor(endTime * sampleRate)], which are as many: it
    writes every frame.  A read past the end of [channelData] is
    [undefined], stored as [NaN]. *)
Definition chunk_channel (rate : positive) (channelData : list sample)
           (startTime endTime : Z) : list sample :=
  let startSample := (startTime * Zpos rate)%Z in
  let endSample := (endTime * Zpos rate)%Z in
  List.map (fun j => at_index nan channelData (startSample + j))
           (upto (endSample - startSample)).

End World.

(** A recording of 480001 frames at 16 kHz (30 s and one sample); the
    transcriber answers "head" on the first chunk and "tail" on any other. *)
Definition tail_world : World nat :=
  mkWorld (Some 960044%Z) true (inject_Z 31)
          (fun c => match c with
                    | Chunk 0 => Return (Some (lit "head"))
                    | _ => Return (Some (lit "tail"))
                    end)
          (Return tt)
          (Return (mkBuffer 16000 [List.repeat 0%nat (Z.to_nat 480001)]))
          (fun _ => Return tt).

(** A recording of 1600 frames at 16 kHz, a tenth of a second. *)
Definition short_world : World nat :=
  mkWorld (Some 3244%Z) true (1 # 10)%Q
          (fun c => match c with
                    | Chunk _ => Return (Some (lit "hello"))
                    | _ => Throw (mkExn PlainError (lit "inference failed"))
                    end)
          (Return tt)
          (Return (mkBuffer 16000 [List.repeat 0%nat 1600]))
          (fun _ => Return tt).

End LongRecording.

(* ===================================================================== *)
(** ** processRecording (popup/popup.js) and its fallback chain          *)
(* ===================================================================== *)

Module Controller.
Import JS Sanitizer Effects.
Local Open Scope string_scope.

(** What an identifier can denote: a number, or anything else. *)
Inductive value := VNum (q : Q) | VOther.

(** A scope is the list of its bindings; an environment is the chain of
    scopes visible at a program point, innermost first. *)
Definition scope := list (string * value).
Definition env := list scope.

Fixpoint lookup_scope (x : string) (sc : scope) : option value :=
  match sc with
  | [] => None
  | (y, v) :: rest => if String.eqb x y then Some v else lookup_scope x rest
  end.

(** Reading the identifier [x]: the innermost binding, or a
    [ReferenceError] when no scope of the chain declares it. *)
Fixpoint resolve (x : string) (rho : env) : outcome value :=
  match rho with
  | [] => Throw (mkExn ReferenceError (lit x ++ lit " is not defined")%list)
  | sc :: outer =>
      match lookup_scope x sc with
      | Some v => Return v
      | None => resolve x outer
      end
  end.

Definition declare (names : list string) : scope :=
  List.map (fun x => (x, VOther)) names.

(** The top-level declarations of the popup module: its imports, state
    variables, DOM handles and functions. *)
Definition module_scope (recordingStartTime : Q) : scope :=
  ("recordingStartTime", VNum recordingStartTime) ::
  declare [ "pipeline"; "env"; "loadWhisperModel"; "loadStandardModel";
            "cleanWhisperOutput"; "transcriber"; "processor"; "model";
            "recording"; "mediaRecorder"; "audioChunks"; "selectedModel";
            "recordingTimer"; "loadingProgress"; "isWhisperModel";
            "audioContext"; "analyser"; "dataArray"; "canvas"; "canvasCtx";
            "animationId"; "visualizerInitialized"; "recordBtn";
            "transcriptionEl"; "copyBtn"; "clearBtn"; "modelSelect";
            "statusEl"; "timerEl"; "modelInfoEl"; "progressBar";
            "progressCallback"; "darkModeCheckbox"; "saveSettingsBtn";
            "initializeModel"; "formatTime"; "updateTimer"; "initVisualizer";
            "drawWaveform"; "toggleRecording"; "stopRecording";
            "processRecording"; "processLongRecording"; "audioBufferToBlob";
            "bufferToWav"; "writeString"; "copyTranscription";
            "clearTranscription"; "changeModel"; "saveSettings";
            "loadSettings"; "loadUserPreferences";
            "saveTranscriptionToHistory" ].

(** The steps of the fallback chain that reach an external collaborator. *)
Inductive event :=
| MainTranscriber
| CreatePipeline (chunk_length_s : option Q)
| TempTranscriber
| LongRecordingRedirect
| LongRecordingLastResort.

(** [transcriptionEl.value] with the transcriber calls of
    [processLongRecording], and the events of this function. *)
Record state := mkState {
  ui : LongRecording.state;
  events : list event
}.

Definition emit (st : state) (e : event) : state := mkState (ui st) (events st ++ [e]).
Definition append_line (st : state) (text : jsstring) : state :=
  mkState (LongRecording.append_line (ui st) text) (events st).

Definition NO_SPEECH : jsstring := lit "[No speech detected]".

(** [Math.min(v, 20)]; [None] is [NaN]. *)
Definition min20 (v : value) : option Q :=
  match v with
  | VNum q => Some (if Qle_bool q (inject_Z 20) then q else inject_Z 20)
  | VOther => None
  end.

Section World.

Variable sample : Type.
Variable nan : sample.
Variable avg : sample -> sample -> sample.

Record World := mkWorld {
  (** The properties of the global object. *)
  globals : scope;
  (** The module variable [recordingStartTime] and [Date.now()], in ms. *)
  recordingStartTime : Q;
  now : Q;
  (** [await audioBlob.arrayBuffer()]. *)
  arrayBuffer : outcome unit;
  (** [typeof transcriber === 'function']. *)
  transcriber_is_function : bool;
  (** [await transcriber(audioBlob)]: the text when [result && result.text]
      holds, [None] when it does not. *)
  main_result : outcome (option jsstring);
  (** [await pipeline(...)] with the given [chunk_length_s]. *)
  create_pipeline : option Q -> outcome unit;
  (** [await tempTranscriber(audioBlob)], read like [main_result]. *)
  temp_result : outcome (option jsstring);
  (** What [processLongRecording] consults. *)
  long : LongRecording.World sample
}.

Variable w : World.

Definition call_long (st : state) : state * outcome unit :=
  let (ui', r) := LongRecording.processLongRecording nan avg (long w) (ui st) in
  (mkState ui' (events st), r).

(** Adds a transcription result to the transcript. *)
Definition show (st : state) (result : option jsstring) : state :=
  match result with
  | None => append_line st NO_SPEECH
  | Some text =>
      let cleanedText := cleanWhisperOutput (Some text) in
      if truthy (trim cleanedText) then append_line st cleanedText
      else append_line st NO_SPEECH
  end.

(** The scopes around the body of [processRecording]: its parameter, the
    module, the global object. *)
Definition function_env : env :=
  [ declare ["audioBlob"]; module_scope (recordingStartTime w); globals w ].

(** The [try] block.  Its [const]s ([audioArrayBuffer],
    [estimatedDuration], [result]) live in the block and are local
    definitions here. *)
Definition try_block (st : state) : state * outcome unit :=
  match arrayBuffer w with
  | Throw e => (st, Throw e)
  | Return _ =>
      if negb (transcriber_is_function w)
      then (st, Throw (mkExn PlainError
             (lit "Transcriber is not a function. Model may not be properly loaded.")))
      else
        let estimatedDuration := ((now w - recordingStartTime w) / inject_Z 1000)%Q in
        if negb (Qle_bool estimatedDuration (inject_Z 25))
        then call_long (emit st LongRecordingRedirect)
        else
          let st := emit st MainTranscriber in
          match main_result w with
          | Throw e => (st, Throw e)
          | Return result => (show st result, Return tt)
          end
  end.

(** The environment of the [try] block nested in the [catch] clause: the
    block's own [const]s, the [catch] parameter, then the function's
    scopes.  The [try] block above is not part of the chain. *)
Definition fallback_env : env :=
  declare ["pipeline"; "tempTranscriber"; "fallbackResult"]
    :: declare ["error"] :: function_env.

(** The reduced-window fallback.  The dynamic import of the library, which
    the module has already loaded, binds [pipeline]; building the
    arguments of [pipeline(...)] then reads [selectedModel], [Math] and
    [estimatedDuration]; the pipeline is created and used only after
    that. *)
Definition fallback (st : state) : state * outcome unit :=
  match
    (_ <- resolve "pipeline" fallback_env ;;
     _ <- resolve "selectedModel" fallback_env ;;
     _ <- resolve "Math" fallback_env ;;
     d <- resolve "estimatedDuration" fallback_env ;;
     Return (min20 d))
  with
  | Throw e => (st, Throw e)
  | Return chunk_length_s =>
      let st := emit st (CreatePipeline chunk_length_s) in
      match create_pipeline w chunk_length_s with
      | Throw e => (st, Throw e)
      | Return _ =>
          let st := emit st TempTranscriber in
          match temp_result w with
          | Throw e => (st, Throw e)
          | Return (Some text) => (show st (Some text), Return tt)
          | Return None =>
              (st, Throw (mkExn PlainError (lit "Fallback transcription failed")))
          end
      end
  end.

(** The whole function: the [try] block, on a throw the fallback, on a
    throw of the fallback [processLongRecording]; when that throws too,
    the first error is thrown again. *)
Definition processRecording (st : state) : state * outcome unit :=
  match try_block st with
  | (st, Return _) => (st, Return tt)
  | (st, Throw error) =>
      match fallback st with
      | (st, Return _) => (st, Return tt)
      | (st, Throw fallbackError) =>
          match call_long (emit st LongRecordingLastResort) with
          | (st, Return _) => (st, Return tt)
          | (st, Throw lastError) => (st, Throw error)
          end
      end
  end.

End World.

(** A ten-second recording whose direct transcription throws, in a
    browser whose global object has the usual properties. *)
Definition failing_world : World nat :=
  mkWorld (declare ["Math"; "Date"; "console"; "window"; "document"; "URL";
                    "Audio"; "fetch"; "chrome"])
          (inject_Z 1000) (inject_Z 11000)
          (Return tt) true
          (Throw (mkExn PlainError (lit "inference failed")))
          (fun _ => Return tt)
          (Return (Some (lit "never used")))
          LongRecording.tail_world.

Definition initial : state := mkState (LongRecording.mkState [] []) [].

End Controller.

(* ===================================================================== *)
(** ** bufferToWav (popup/popup.js): the WAV encoder of chunk buffers    *)
(* ===================================================================== *)

Module Wav.
Import Normalizer.

(** An element of a [Float32Array]: a finite value, which is a rational
    number, or one of the three special values.  The products formed
    below (a single-precision value times [0x8000] or [0x7FFF]) are exact
    in double precision. *)
Inductive f32 := Num (q : Q) | NaNv | PosInfv | NegInfv.

Definition Qlt_bool (a b : Q) : bool := negb (Qle_bool b a).

(** [Math.min(1, x)] *)
Definition min_1 (x : f32) : f32 :=
  match x with
  | Num q => if Qlt_bool q 1 then Num q else Num 1
  | NaNv => NaNv
  | PosInfv => Num 1
  | NegInfv => NegInfv
  end.

(** [Math.max(-1, x)] *)
Definition max_neg1 (x : f32) : f32 :=
  match x with
  | Num q => if Qlt_bool (-1) q then Num q else Num (-1)
  | NaNv => NaNv
  | PosInfv => PosInfv
  | NegInfv => Num (-1)
  end.

(** [x < 0] *)
Definition is_negative (x : f32) : bool :=
  match x with
  | Num q => Qlt_bool q 0
  | NegInfv => true
  | NaNv | PosInfv => false
  end.

(** [x * k] for a positive integer constant [k]. *)
Definition times (x : f32) (k : Z) : f32 :=
  match x with
  | Num q => Num (q * inject_Z k)
  | other => other
  end.

(** [value] of the sample loop:
    [sample < 0 ? sample * 0x8000 : sample * 0x7FFF] after clamping. *)
Definition scaled (x : f32) : f32 :=
  let sample := max_neg1 (min_1 x) in
  if is_negative sample then times sample 32768 else times sample 32767.

(** Rounding toward zero. *)
Definition Qtrunc (q : Q) : Z := if Qlt_bool q 0 then Qceiling q else Qfloor q.

(** The integer a number is converted to when stored: not-a-number and
    the infinities become 0, anything else is truncated. *)
Definition to_integer (x : f32) : Z :=
  match x with
  | Num q => Qtrunc q
  | _ => 0%Z
  end.

(** A buffer of bytes, each in [0, 255]. *)
Definition bytes := list Z.

(** The bytes, least significant first, of the low [8 * n] bits. *)
Fixpoint le_bytes (n : nat) (v : Z) : bytes :=
  match n with
  | O => []
  | S k => (v mod 256)%Z :: le_bytes k (v / 256)%Z
  end.

(** Writing bytes at a byte offset of a [DataView]; [None] is the
    [RangeError] of a write that does not fit. *)
Definition set_bytes (offset : nat) (bs : bytes) (buf : bytes) : option bytes :=
  if Nat.leb (offset + List.length bs) (List.length buf)
  then Some (List.firstn offset buf ++ bs ++ List.skipn (offset + List.length bs) buf)
  else None.

(** [view.setUint8(o, v)], [view.setUint16(o, v, true)],
    [view.setUint32(o, v, true)] and [view.setInt16(o, v, true)] for an
    integer [v]: the value is reduced modulo the width and stored little
    endian. *)
Definition setUint8 (o : nat) (v : Z) := set_bytes o (le_bytes 1 v).
Definition setUint16 (o : nat) (v : Z) := set_bytes o (le_bytes 2 v).
Definition setUint32 (o : nat) (v : Z) := set_bytes o (le_bytes 4 v).
Definition setInt16 (o : nat) (x : f32) := set_bytes o (le_bytes 2 (to_integer x)).

Definition and_then (x : option bytes) (f : bytes -> option bytes) : option bytes :=
  match x with
  | Some b => f b
  | None => None
  end.

(** [writeString(view, offset, string)] *)
Fixpoint writeString (offset : nat) (s : JS.jsstring) (buf : bytes) : option bytes :=
  match s with
  | [] => Some buf
  | c :: rest => and_then (setUint8 offset (Z.of_N c) buf) (writeString (S offset) rest)
  end.

(** The sample loop: one [setInt16] per sample, two bytes further each
    time. *)
Fixpoint write_samples (offset : nat) (data : list f32) (buf : bytes) : option bytes :=
  match data with
  | [] => Some buf
  | x :: rest =>
      and_then (setInt16 offset (scaled x) buf) (write_samples (offset + 2) rest)
  end.

(** [bufferToWav(buffer)]: the bytes of the blob. *)
Definition bufferToWav (buffer : AudioBuffer f32) : option bytes :=
  let numChannels := numberOfChannels buffer in
  let sampleRate := Zpos (sampleRate buffer) in
  let format := 1%Z in
  let bitDepth := 16%Z in
  let bytesPerSample := (bitDepth / 8)%Z in
  let blockAlign := (numChannels * bytesPerSample)%Z in
  let dataLength := (Z.of_nat (frames buffer) * numChannels * bytesPerSample)%Z in
  let fileLength := (44 + dataLength)%Z in
  let view : bytes := List.repeat 0%Z (Z.to_nat fileLength) in
  and_then (writeString 0 (JS.lit "RIFF") view) (fun view =>
  and_then (setUint32 4 (fileLength - 8) view) (fun view =>
  and_then (writeString 8 (JS.lit "WAVE") view) (fun view =>
  and_then (writeString 12 (JS.lit "fmt ") view) (fun view =>
  and_then (setUint32 16 16 view) (fun view =>
  and_then (setUint16 20 format view) (fun view =>
  and_then (setUint16 22 numChannels view) (fun view =>
  and_then (setUint32 24 sampleRate view) (fun view =>
  and_then (setUint32 28 (sampleRate * blockAlign) view) (fun view =>
  and_then (setUint16 32 blockAlign view) (fun view =>
  and_then (setUint16 34 bitDepth view) (fun view =>
  and_then (writeString 36 (JS.lit "data") view) (fun view =>
  and_then (setUint32 40 dataLength view) (fun view =>
  let data := getChannelData buffer 0 in
  write_samples 44 data view))))))))))))).

(** Reading a little-endian unsigned number of [n] bytes at an offset,
    and a signed one of two bytes. *)
Fixpoint le_value (bs : bytes) : Z :=
  match bs with
  | [] => 0%Z
  | b :: rest => (b + 256 * le_value rest)%Z
  end.

Definition getUint (n offset : nat) (buf : bytes) : Z :=
  le_value (List.firstn n (List.skipn offset buf)).

Definition getInt16 (offset : nat) (buf : bytes) : Z :=
  let u := getUint 2 offset buf in
  if (u <? 32768)%Z then u else (u - 65536)%Z.

(** The characters at an offset. *)
Definition getString (n offset : nat) (buf : bytes) : JS.jsstring :=
  List.map Z.to_N (List.firstn n (List.skipn offset buf)).

(** The two bytes the sample loop stores for one sample. *)
Definition sample_bytes (x : f32) : bytes := le_bytes 2 (to_integer (scaled x)).

(** The 44 header bytes for a buffer of the given shape, field by field. *)
Definition header (numChannels sampleRate frameCount : Z) : bytes :=
  let blockAlign := (numChannels * (16 / 8))%Z in
  let dataLength := (frameCount * numChannels * (16 / 8))%Z in
  List.map Z.of_N (JS.lit "RIFF") ++ le_bytes 4 (44 + dataLength - 8)
    ++ List.map Z.of_N (JS.lit "WAVE") ++ List.map Z.of_N (JS.lit "fmt ")
    ++ le_bytes 4 16 ++ le_bytes 2 1 ++ le_bytes 2 numChannels
    ++ le_bytes 4 sampleRate ++ le_bytes 4 (sampleRate * blockAlign)
    ++ le_bytes 2 blockAlign ++ le_bytes 2 16
    ++ List.map Z.of_N (JS.lit "data") ++ le_bytes 4 dataLength.

(** Example buffers: four mono frames, and two stereo buffers of one
    frame that differ in the right channel only. *)
Definition example : AudioBuffer f32 :=
  mkBuffer 16000 [[Num (1 # 2); Num (-1); Num 3; NaNv]].
Definition example_stereo : AudioBuffer f32 :=
  mkBuffer 16000 [[Num (1 # 2)]; [Num 1]].
Definition example_stereo' : AudioBuffer f32 :=
  mkBuffer 16000 [[Num (1 # 2)]; [Num (-1 # 4)]].

Definition blob_of (buffer : AudioBuffer f32) : bytes :=
  match bufferToWav buffer with
  | Some blob => blob
  | None => []
  end.

Definition example_blob : bytes := Eval vm_compute in blob_of example.
Definition example_stereo_blob : bytes := Eval vm_compute in blob_of example_stereo.

End Wav.

(* ===================================================================== *)
(** ** Transcription history (background/background.js, sidepanel)       *)
(* ===================================================================== *)

Module History.
Import JS.

Record entry := mkEntry {
  id : Z;
  text : jsstring;
  model : jsstring;
  timestamp : jsstring;
  preview : jsstring
}.

(** The key [transcriptionHistory] of [chrome.storage.local]; [None] when
    the key is absent. *)
Definition storage := option (list entry).

(** [data.transcriptionHistory || []] *)
Definition stored (st : storage) : list entry :=
  match st with
  | Some history => history
  | None => []
  end.

(** [text.substring(0, 100) + (text.length > 100 ? '...' : '')] *)
Definition make_preview (t : jsstring) : jsstring :=
  List.firstn 100 t ++ (if Nat.ltb 100 (List.length t) then lit "..." else []).

(** [!text || text.trim() === ''] *)
Definition is_blank (t : option jsstring) : bool :=
  match t with
  | None => true
  | Some s => (negb (truthy s) || negb (truthy (trim s)))%bool
  end.

(** [saveToHistory(text, model)].  [get_ok] and [set_ok] tell whether the
    two storage calls succeed (the handler swallows their errors), [now]
    is [Date.now()] and [iso] the ISO time stamp. *)
Definition saveToHistory (get_ok set_ok : bool) (now : Z) (iso : jsstring)
           (t : option jsstring) (m : jsstring) (st : storage) : storage :=
  match t with
  | None => st
  | Some s =>
      if is_blank t then st
      else if negb get_ok then st
      else
        let history := stored st in
        let history := mkEntry now s m iso (make_preview s) :: history in
        let history :=
          if Nat.ltb 50 (List.length history) then List.removelast history
          else history in
        if set_ok then Some history else st
  end.

(** [deleteHistoryItem()] of the side panel, for the selected item. *)
Definition deleteHistoryItem (get_ok set_ok : bool)
           (currentHistoryItem : option entry) (st : storage) : storage :=
  match currentHistoryItem with
  | None => st
  | Some current =>
      if negb get_ok then st
      else
        let history :=
          List.filter (fun item => negb (id item =? id current)%Z) (stored st) in
        if set_ok then Some history else st
  end.

(** [clearHistory()], after the confirmation dialog. *)
Definition clearHistory (confirmed set_ok : bool) (st : storage) : storage :=
  if (confirmed && set_ok)%bool then Some [] else st.

(** The messages the background listener knows, and its answers. *)
Inductive message :=
| Ping
| PreloadModel (m : jsstring)
| SaveTranscription (t : option jsstring) (m : jsstring)
| Unknown.

Inductive response := Active | Preloaded | Saved.

(** The [onMessage] listener; the storage calls of [saveToHistory] are
    taken to run before another message arrives. *)
Definition onMessage (get_ok set_ok : bool) (now : Z) (iso : jsstring)
           (msg : message) (st : storage) : option response * storage :=
  match msg with
  | Ping => (Some Active, st)
  | PreloadModel _ => (Some Preloaded, st)
  | SaveTranscription t m => (Some Saved, saveToHistory get_ok set_ok now iso t m st)
  | Unknown => (None, st)
  end.

(** [saveTranscriptionToHistory()] of the popup and the side panel: the
    trimmed transcript is sent to the background unless it is empty.
    [delivered] tells whether the message reaches the listener. *)
Definition saveTranscriptionToHistory (delivered get_ok set_ok : bool) (now : Z)
           (iso : jsstring) (value selectedModel : jsstring) (st : storage)
  : storage :=
  let t := trim value in
  if negb (truthy t) then st
  else if delivered
       then snd (onMessage get_ok set_ok now iso (SaveTranscription (Some t) selectedModel) st)
       else st.

End History.

(* ===================================================================== *)
(** ** formatTime (popup/popup.js and sidepanel/sidepanel.js)            *)
(* ===================================================================== *)

(** [ms] is a difference of two [Date.now()] values, an integer number of
    milliseconds.  Its quotients by 1000 and 60 are taken exactly: a
    quotient that is not an integer stays away from the next integer by
    far more than the rounding of a double, so the floors agree. *)
Module Timer.
Import JS.

(** [x % y] on numbers: the remainder has the sign of [x]. *)
Definition js_rem (x y : Q) : Q := (x - y * inject_Z (Wav.Qtrunc (x / y)))%Q.

(** The decimal digits of a non-negative integer; the fuel bounds their
    number. *)
Fixpoint digits (fuel : nat) (n : Z) : jsstring :=
  match fuel with
  | O => []
  | S f =>
      if (n <? 10)%Z then [Z.to_N (48 + n)]
      else digits f (n / 10) ++ [Z.to_N (48 + n mod 10)]
  end.

(** [n.toString()] for an integer. *)
Definition toString (n : Z) : jsstring :=
  if (n <? 0)%Z then 45%N :: digits (S (Z.to_nat (Z.log2 (- n)))) (- n)
  else digits (S (Z.to_nat (Z.log2 n))) n.

(** [s.padStart(2, '0')] *)
Definition padStart2 (s : jsstring) : jsstring :=
  List.repeat 48%N (2 - List.length s) ++ s.

(** [formatTime(ms)] of the popup. *)
Definition formatTime (ms : Z) : jsstring :=
  let seconds :=
    padStart2 (toString (Qfloor (js_rem (inject_Z ms / inject_Z 1000) (inject_Z 60)))) in
  let minutes :=
    padStart2 (toString (Qfloor (js_rem (inject_Z ms / inject_Z 1000 / inject_Z 60)
                                        (inject_Z 60)))) in
  minutes ++ [58%N] ++ seconds.

(** [formatTime(ms)] of the side panel. *)
Definition formatTime_sidepanel (ms : Z) : jsstring :=
  let seconds := Qfloor (inject_Z ms / inject_Z 1000) in
  let minutes := Qfloor (inject_Z seconds / inject_Z 60) in
  padStart2 (toString minutes) ++ [58%N] ++ padStart2 (toString (Z.rem seconds 60)).

(** Two decimal digits. *)
Definition two_digits (n : Z) : jsstring :=
  [Z.to_N (48 + n / 10); Z.to_N (48 + n mod 10)].

End Timer.

(* ===================================================================== *)
(** ** The transcriber of shared/whisper-utils.js                        *)
(* ===================================================================== *)

Module Shared.
Import JS Effects Normalizer.

(** The object the transcriber resolves to. *)
Record result := mkResult {
  text : jsstring;
  error : option exn
}.

(** [try { body } catch (e) { handler(e) }] *)
Definition try_catch {A : Type} (body : outcome A) (handler : exn -> outcome A)
  : outcome A :=
  match body with
  | Return a => Return a
  | Throw e => handler e
  end.

(** The decoders the function probes, in its order. *)
Inductive decoder := Tokenizer | ModelTokenizer | ProcessorTokenizer | ProcessorItself.

Section Engine.

Variable sample : Type.
Variable nan : sample.

(** Everything outside the function that it consults. *)
Record World := mkWorld {
  (** [await audioBlob.arrayBuffer()] *)
  arrayBuffer : outcome unit;
  (** [await read_audio(arrayBuffer, 16000)] *)
  read_audio : outcome (list sample);
  (** Creating the audio context and [decodeAudioData]. *)
  decodeAudioData : outcome (AudioBuffer sample);
  (** [await audioContext.close()] *)
  close : outcome unit;
  (** [processor] is set. *)
  processor_loaded : bool;
  (** [processor(audioData)] followed by [model.generate(...)]. *)
  run_model : list sample -> outcome unit;
  (** Which objects have a [decode] function. *)
  has_decode : decoder -> bool;
  (** Reading the data out of the output tensor. *)
  extract : outcome unit;
  (** [decoder.decode(outputData, ...)]; [None] is a falsy result. *)
  decode : decoder -> outcome (option jsstring);
  (** [JSON.stringify(outputData).substring(0, 100)] *)
  stringify : outcome jsstring;
  (** [Array.isArray(output) && output.length > 0] *)
  output_is_nonempty_array : bool
}.

Variable w : World.

(** The samples handed to the processor: what [read_audio] gives or,
    when that throws, the first channel of the decoded buffer, resampled
    to 16 kHz if needed. *)
Definition audioData : outcome (list sample) :=
  try_catch (read_audio w) (fun audioReadError =>
    try_catch
      (audioBuffer <- decodeAudioData w ;;
       let data := processAudioBlob nan audioBuffer in
       _ <- close w ;;
       Return data)
      (fun manualError => Throw manualError)).

(** The decoder the probing settles on, if any. *)
Definition chosen_decoder : option decoder :=
  if has_decode w Tokenizer then Some Tokenizer
  else if has_decode w ModelTokenizer then Some ModelTokenizer
  else if has_decode w ProcessorTokenizer then Some ProcessorTokenizer
  else if has_decode w ProcessorItself then Some ProcessorItself
  else None.

(** The decoding block with its handler; [None] is a falsy [result]. *)
Definition decoded_text : outcome (option jsstring) :=
  try_catch
    (_ <- extract w ;;
     match chosen_decoder with
     | Some d => decode w d
     | None =>
         raw <- stringify w ;;
         Return (Some (lit "[Unable to decode properly] Raw output: " ++ raw ++ lit "..."))
     end)
    (fun decodeError =>
       if output_is_nonempty_array w
       then Return (Some (lit "[Decode failed] Raw output available but couldn't be processed"))
       else Return (Some (lit "[No transcription available due to decoding error]"))).

(** [result || fallback] for an optional string. *)
Definition text_or (r : option jsstring) (fallback : jsstring) : jsstring :=
  match r with
  | Some s => or_else s fallback
  | None => fallback
  end.

(** [transcriber(audioBlob)] *)
Definition transcriber : outcome result :=
  try_catch
    (_ <- arrayBuffer w ;;
     data <- audioData ;;
     if negb (processor_loaded w)
     then Throw (mkExn PlainError (lit "Whisper processor not available for transcription"))
     else
       try_catch
         (_ <- run_model w data ;;
          r <- decoded_text ;;
          Return (mkResult (text_or r (lit "[Empty transcription result]")) None))
         (fun processingError =>
            Return (mkResult (lit "[Processing error: " ++ message processingError ++ lit "]")
                             (Some processingError))))
    (fun error =>
       Return (mkResult (lit "[Error during transcription: " ++ message error ++ lit "]")
                        (Some error))).

(** What a caller reads off the result with [result && result.text]. *)
Definition as_main_result : outcome (option jsstring) :=
  r <- transcriber ;;
  Return (if truthy (text r) then Some (text r) else None).

End Engine.

End Shared.

(* ===================================================================== *)
(** ** The stop handler of the recorder (popup/popup.js)                 *)
(* ===================================================================== *)

Module Recorder.
Import JS Effects.

(** The [dataavailable] handler: a chunk is kept when it is not empty.
    A chunk is represented by its size in bytes. *)
Definition on_dataavailable (size : Z) (audioChunks : list Z) : list Z :=
  if (0 <? size)%Z then audioChunks ++ [size] else audioChunks.

(** [new Blob(audioChunks).size] *)
Definition blob_size_of (audioChunks : list Z) : Z :=
  List.fold_right Z.add 0%Z audioChunks.

Section World.

Variable sample : Type.
Variable nan : sample.
Variable avg : sample -> sample -> sample.

(** The world in which the blob built from the chunks is the one the
    processing functions receive. *)
Definition with_blob (size : Z) (w : Controller.World sample) : Controller.World sample :=
  let l := Controller.long w in
  Controller.mkWorld
    (Controller.globals w) (Controller.recordingStartTime w) (Controller.now w)
    (Controller.arrayBuffer w) (Controller.transcriber_is_function w)
    (Controller.main_result w) (Controller.create_pipeline w)
    (Controller.temp_result w)
    (LongRecording.mkWorld (Some size) (LongRecording.transcriber_ready l)
       (LongRecording.elapsed l) (LongRecording.transcribe l)
       (LongRecording.metadata l) (LongRecording.decoded l)
       (LongRecording.make_blob l)).

(** The [stop] handler, from the check for audio data on.  [stop_now] is
    [Date.now()] when the handler runs. *)
Definition on_stop (audioChunks : list Z) (stop_now : Q)
           (w : Controller.World sample) (st : Controller.state) : Controller.state :=
  let attempt : Controller.state * outcome unit :=
    match audioChunks with
    | [] => (st, Throw (mkExn PlainError (lit "No audio data captured")))
    | _ :: _ =>
        let size := blob_size_of audioChunks in
        let w := with_blob size w in
        let estimatedDuration :=
          ((stop_now - Controller.recordingStartTime w) / inject_Z 1000)%Q in
        if (Segmenter.gt estimatedDuration (inject_Z 10) && (50000 <? size)%Z)%bool
        then Controller.call_long nan avg w st
        else Controller.processRecording nan avg w st
    end in
  match attempt with
  | (st, Return _) => st
  | (st, Throw error) =>
      Controller.append_line st
        (lit "[Transcription error: " ++ message error ++ lit "]")
  end.

End World.

End Recorder.

(* ===================================================================== *)
(** ** processRecording of the side panel (sidepanel/sidepanel.js)       *)
(* ===================================================================== *)

Module Sidepanel.
Import JS Sanitizer Effects.

(** The transcript, the status line and the stored history. *)
Record state := mkState {
  value : jsstring;
  status : jsstring;
  storage : History.storage
}.

(** [s.endsWith('.')] *)
Definition ends_with_period (s : jsstring) : bool :=
  match List.rev s with
  | c :: _ => char_eqb c 46%N
  | [] => false
  end.

Section World.

(** [transcriber && typeof transcriber === 'function'] *)
Variable transcriber_is_function : bool.
(** [await transcriber(audioBlob)]: the text when [result && result.text]
    holds, [None] when it does not. *)
Variable result : outcome (option jsstring).
Variable selectedModel : jsstring.
(** The delivery of the message to the background and its storage calls,
    [Date.now()] and the ISO time stamp there. *)
Variables delivered get_ok set_ok : bool.
Variable now : Z.
Variable iso : jsstring.

(** [processRecording(audioBlob)]: the new state and the returned value
    ([None] is [undefined]).  The handler swallows every error. *)
Definition processRecording (st : state) : state * option jsstring :=
  let attempt : outcome (state * jsstring) :=
    if transcriber_is_function then
      r <- result ;;
      match r with
      | Some (c :: t) =>
          let cleanedText := cleanWhisperOutput (Some (c :: t)) in
          let v :=
            if truthy (value st)
            then value st
                   ++ (if ends_with_period (value st) then lit " " else lit ". ")
                   ++ cleanedText
            else cleanedText in
          Return (mkState v (lit "Ready")
                    (History.saveTranscriptionToHistory delivered get_ok set_ok
                       now iso v selectedModel (storage st)),
                  cleanedText)
      | _ => Throw (mkExn PlainError (lit "No transcription result"))
      end
    else Throw (mkExn PlainError (lit "Transcriber not available"))
  in
  match attempt with
  | Return (st', cleanedText) => (st', Some cleanedText)
  | Throw error =>
      (mkState (value st)
               (lit "Error: " ++ or_else (message error) (lit "Failed to transcribe"))
               (storage st),
       None)
  end.

End World.

End Sidepanel.

(* ===================================================================== *)
(** ** The stand-alone popup script with its own cleaner                 *)
(* ===================================================================== *)

(** The stand-alone script does not import the shared [cleanWhisperOutput]
    but declares one of the same name, which has neither the
    [[BLANK_AUDIO]] step nor the two music steps.  The custom transcriber
    is a function of that script and cleans with that cleaner, on the
    short path and in the chunk loop. *)
Module Standalone.
Import JS Sanitizer Effects Normalizer Segmenter Stitcher.

(** The chain of replacements applied to a non-empty text, in source
    order. *)
Definition clean_text (text : jsstring) : jsstring :=
  let s := replace_all (m_lit (lit "<|startoftranscript|>")) [] text in
  let s := replace_all (m_lit (lit "<|endoftranscript|>")) [] s in
  let s := replace_all (m_lit (lit "<|endoftext|>")) [] s in
  let s := replace_all (m_lit (lit "<|notimestamps|>")) [] s in
  let s := replace_all (m_lit (lit "<|transcribe|>")) [] s in
  let s := replace_all (m_lit (lit "<|translate|>")) [] s in
  let s := replace_all (m_lit (lit "[START]")) [] s in
  let s := replace_all (m_lit (lit "[END]")) [] s in
  let s := replace_all m_tag [] s in
  let s := collapse s in
  let s := remove_at_start m_lone_period s in
  let s := remove_at_start m_punct s in
  let s := remove_first m_punct_end s in
  trim s.

(** [cleanWhisperOutput(text)] of the script; [None] stands for [null] or
    [undefined]. *)
Definition cleanWhisperOutput (text : option jsstring) : jsstring :=
  match text with
  | None => []
  | Some [] => []
  | Some t => clean_text t
  end.

Section Engine.

Variable sample : Type.
Variable nan : sample.

(** One run of the engine: the decoded text, where [None] is an
    [undefined] result, or what the run throws. *)
Variable infer : Transcriber.request sample -> outcome (option jsstring).

(** The chunk loop: every window is sliced out, sent to the engine,
    cleaned and merged.  No iteration has a handler of its own. *)
Fixpoint chunk_loop (audioData : list sample) (o : ChunkOptions)
         (ws : list window) (st : jsstring * jsSet) : outcome (jsstring * jsSet) :=
  match ws with
  | [] => Return st
  | (startSample, endSample) :: rest =>
      let chunkData := slice audioData startSample endSample in
      chunkTranscription <- infer (Transcriber.ChunkRequest chunkData o) ;;
      let cleanedChunk := cleanWhisperOutput chunkTranscription in
      chunk_loop audioData o rest (merge_chunk st cleanedChunk)
  end.

(** The branch for audio longer than 25 seconds.  [None]: the loop does
    not end (the window step is zero, every window is the first one, and
    the engine does not throw on it). *)
Definition custom_chunking (audioData : list sample) (options : Options)
  : option (outcome jsstring) :=
  let o := chunkOptions options in
  let len := Z.of_nat (List.length audioData) in
  let sizes := adjustedSizes len o in
  match windows len sizes with
  | Some ws =>
      Some (st <- chunk_loop audioData o ws ([], []) ;;
            Return (or_else (fst st) Transcriber.EMPTY))
  | None =>
      let (startSample, endSample) := window_at len sizes 0 in
      match infer (Transcriber.ChunkRequest (slice audioData startSample endSample) o) with
      | Throw e => Some (Throw e)
      | Return _ => None
      end
  end.

(** The branch for shorter audio: one run of the engine on all samples. *)
Definition standard_approach (audioData : list sample) : outcome jsstring :=
  transcription <- infer (Transcriber.WholeRequest audioData) ;;
  let cleanedTranscription := cleanWhisperOutput transcription in
  Return (or_else cleanedTranscription Transcriber.EMPTY).

(** [transcriber(audioBlob, options)] of the script.  [decoded] is what
    decoding the blob gives, [processor] whether the processor is loaded.
    The result is the [text] field of the returned object; the handler
    around the whole body throws again what it catches. *)
Definition transcriber (decoded : outcome (AudioBuffer sample)) (processor : bool)
           (options : Options) : option (outcome jsstring) :=
  match decoded with
  | Throw e => Some (Throw e)
  | Return audioBuffer =>
      let audioData := processAudioBlob nan audioBuffer in
      if negb processor
      then Some (Throw (mkExn PlainError (lit "Processor is not initialized")))
      else
        let estimatedDuration := estimatedDuration (Z.of_nat (List.length audioData)) in
        if gt estimatedDuration (inject_Z 25)
        then custom_chunking audioData options
        else Some (standard_approach audioData)
  end.

End Engine.

(** Fifty seconds of audio at 16 kHz.  With the default chunk options the
    loop cuts it into the windows [0, 320000), [240000, 560000) and
    [480000, 800000), whose first samples are 0, 1 and 2. *)
Definition three_window_audio : list nat :=
  List.repeat 0%nat (Z.to_nat 240000) ++ List.repeat 1%nat (Z.to_nat 240000)
  ++ List.repeat 2%nat (Z.to_nat 320000).

(** An engine that fails on the window that starts with sample 1 and
    returns a text on every other. *)
Definition second_window_fails (r : Transcriber.request nat)
  : outcome (option jsstring) :=
  match r with
  | Transcriber.ChunkRequest (0%nat :: _) _ => Return (Some (lit "one"))
  | Transcriber.ChunkRequest (1%nat :: _) _ =>
      Throw (mkExn PlainError (lit "inference failed"))
  | Transcriber.ChunkRequest _ _ => Return (Some (lit "three"))
  | Transcriber.WholeRequest _ => Return (Some (lit "whole"))
  end.

End Standalone.

(* ===================================================================== *)
(** ** Reference functions for the long path of the custom transcriber   *)
(* ===================================================================== *)

Module TranscriberSpec.
Import JS Sanitizer Effects Normalizer Segmenter Transcriber.

(** What every cleaned text looks like. *)
Definition trimmed_single_spaced (y : jsstring) : Prop :=
  trim y = y /\ collapse y = y /\ ws_normal y = true /\
  starts_outside is_space y = true /\ ends_outside is_space y = true.

(** A text that is not empty, has its white space as single spaces and
    does not end in white space: what the cleaner hands to the stitcher
    when it hands over anything. *)
Definition solid (c : jsstring) : Prop :=
  truthy c = true /\ ws_normal c = true /\ ends_outside is_space c = true.

Section Engine.

Variable sample : Type.
Variable infer : request sample -> outcome (option jsstring).

(** The cleaned text of one window; the empty text when the engine
    throws on it. *)
Definition window_text (audioData : list sample) (o : ChunkOptions)
           (win : window) : jsstring :=
  match infer (ChunkRequest (slice audioData (fst win) (snd win)) o) with
  | Return t => Standalone.cleanWhisperOutput t
  | Throw _ => []
  end.

(** The engine returns on every window of the list. *)
Definition engine_returns (audioData : list sample) (o : ChunkOptions)
           (ws : list window) : Prop :=
  forall win, List.In win ws ->
    exists t, infer (ChunkRequest (slice audioData (fst win) (snd win)) o) = Return t.

End Engine.

End TranscriberSpec.

(* ===================================================================== *)
(** * Properties                                                         *)
(* ===================================================================== *)

(** ** Arithmetic of the modelled JavaScript numbers *)

Section NumberFacts.
Import Effects Segmenter.

Lemma Qfloor_div_pos (a : Z) (p : positive) :
  Qfloor (inject_Z a / inject_Z (Zpos p))%Q = (a / Zpos p)%Z.
Proof.
  unfold Qfloor, Qdiv, Qmult, Qinv, inject_Z. simpl.
  now rewrite Z.mul_1_r.
Qed.

Lemma Qceiling_div_pos (a : Z) (p : positive) :
  Qceiling (inject_Z a / inject_Z (Zpos p))%Q = (- ((- a) / Zpos p))%Z.
Proof.
  unfold Qceiling, Qfloor, Qdiv, Qmult, Qinv, Qopp, inject_Z. simpl.
  now rewrite Z.mul_1_r.
Qed.

Lemma gt_estimated (len n : Z) :
  gt (estimatedDuration len) (inject_Z n) = (n * 16000 <? len)%Z.
Proof.
  unfold gt, estimatedDuration, Qle_bool, Qdiv, Qmult, Qinv, inject_Z. simpl.
  rewrite !Z.mul_1_r.
  destruct (Z.leb_spec len (n * 16000)); destruct (Z.ltb_spec (n * 16000) len);
    try reflexivity; lia.
Qed.

Lemma length_upto (n : Z) : List.length (upto n) = Z.to_nat n.
Proof. unfold upto. now rewrite List.length_map, List.length_seq. Qed.

Lemma nth_map_upto (A : Type) (f : Z -> A) (n i : Z) (d : A) :
  (0 <= i < n)%Z -> List.nth (Z.to_nat i) (List.map f (upto n)) d = f i.
Proof.
  intros Hi. unfold upto. rewrite List.map_map.
  rewrite List.nth_indep with (d' := f (Z.of_nat 0)).
  - rewrite (List.map_nth (fun k => f (Z.of_nat k))).
    rewrite List.seq_nth by lia. simpl. f_equal. lia.
  - rewrite List.length_map, List.length_seq. lia.
Qed.

Lemma In_upto (n i : Z) : List.In i (upto n) <-> (0 <= i < n)%Z.
Proof.
  unfold upto. rewrite List.in_map_iff. split.
  - intros [k [<- Hk]]. apply List.in_seq in Hk. lia.
  - intros Hi. exists (Z.to_nat i). split; [lia|]. apply List.in_seq. lia.
Qed.

End NumberFacts.

(** ** Segmenter *)

Section SegmenterFacts.
Import Effects Segmenter.

Lemma long_tier_count (len : Z) :
  (1920000 < len)%Z -> (6 <= spec_window_count len)%Z.
Proof.
  intros H. unfold spec_window_count.
  change (25 * 16000 - 3 * 16000)%Z with 352000%Z.
  change (25 * 16000)%Z with 400000%Z.
  rewrite Qceiling_div_pos.
  assert ((- (len - 400000)) / 352000 <= -5)%Z; [|lia].
  apply Z.lt_succ_r. apply Z.div_lt_upper_bound; lia.
Qed.

(** C4.  For audio longer than 120 seconds the chunk loop uses windows of
    25 s with 3 s of overlap whatever the caller's options, visits exactly
    ceil((totalSamples - window) / (window - stride)) + 1 windows, and
    window i starts at sample i * (window - stride), so the start samples
    increase strictly. *)
Theorem C4_long_audio_windows (len : Z) (options : Options) :
  gt (estimatedDuration len) (inject_Z 120) = true ->
  adjustedSizes len (chunkOptions options) = ((25 * 16000)%Z, (3 * 16000)%Z) /\
  exists ws,
    segment len options = Some ws /\
    Z.of_nat (List.length ws) = spec_window_count len /\
    (forall i, (0 <= i < spec_window_count len)%Z ->
       fst (List.nth (Z.to_nat i) ws (0, 0)%Z) = (i * (25 * 16000 - 3 * 16000))%Z) /\
    (forall i j, (0 <= i < j)%Z -> (j < spec_window_count len)%Z ->
       (fst (List.nth (Z.to_nat i) ws (0, 0)) < fst (List.nth (Z.to_nat j) ws (0, 0)))%Z).
Proof.
  intros Hlong.
  assert (Hsizes : adjustedSizes len (chunkOptions options)
                   = ((25 * 16000)%Z, (3 * 16000)%Z)).
  { unfold adjustedSizes. now rewrite Hlong. }
  split; [exact Hsizes|].
  rewrite gt_estimated in Hlong. apply Z.ltb_lt in Hlong.
  pose proof (long_tier_count Hlong) as Hcount.
  assert (Hn : numChunks len ((25 * 16000)%Z, (3 * 16000)%Z)
               = Fin (spec_window_count len)) by reflexivity.
  exists (List.map (window_at len ((25 * 16000)%Z, (3 * 16000)%Z))
                   (upto (spec_window_count len))).
  assert (Hnth : forall i, (0 <= i < spec_window_count len)%Z ->
            fst (List.nth (Z.to_nat i)
                   (List.map (window_at len ((25 * 16000)%Z, (3 * 16000)%Z))
                             (upto (spec_window_count len))) (0, 0)%Z)
            = (i * (25 * 16000 - 3 * 16000))%Z).
  { intros i Hi. now rewrite nth_map_upto. }
  repeat split.
  - unfold segment, windows. now rewrite Hsizes, Hn.
  - rewrite List.length_map, length_upto. lia.
  - exact Hnth.
  - intros i j Hij Hj. rewrite !Hnth by lia. lia.
Qed.

Lemma C4_long_audio_windows_witness :
  gt (estimatedDuration 2400000) (inject_Z 120) = true /\
  exists ws,
    segment 2400000 noOptions = Some ws /\
    Z.of_nat (List.length ws) = spec_window_count 2400000.
Proof.
  split; [reflexivity|].
  destruct (@C4_long_audio_windows 2400000 noOptions eq_refl)
    as [_ [ws [Hseg [Hlen _]]]].
  exists ws. split; assumption.
Defined.

End SegmenterFacts.

(** ** Double arithmetic *)

Section DoubleFacts.
Import Double.
Local Open Scope Q_scope.

Lemma pow2_pos (e : Z) : 0 < pow2 e.
Proof. apply Qpower_0_lt. reflexivity. Qed.

Lemma pow2_add (a b : Z) : pow2 (a + b) == pow2 a * pow2 b.
Proof. apply Qpower_plus. discriminate. Qed.

Lemma pow2_Z (k : Z) : (0 <= k)%Z -> pow2 k == inject_Z (2 ^ k).
Proof. intros Hk. unfold pow2. now rewrite (Zpower_Qpower 2 k Hk). Qed.

Lemma pow2_le (a b : Z) : (a <= b)%Z -> pow2 a <= pow2 b.
Proof. intros H. apply Qpower_le_compat_l; [exact H | discriminate]. Qed.

Lemma pow2_sub (a b : Z) : pow2 (a - b) == pow2 a / pow2 b.
Proof.
  assert (H : pow2 a == pow2 (a - b) * pow2 b).
  { rewrite <- pow2_add. now replace (a - b + b)%Z with a by lia. }
  rewrite H. field. intros Heq. pose proof (pow2_pos b). lra.
Qed.

(** The nearest integer is at least as near as any integer. *)
Lemma nearest_even_bounds (x : Q) :
  x - (1 # 2) <= inject_Z (nearest_even x) <= x + (1 # 2).
Proof.
  unfold nearest_even.
  pose proof (Qfloor_le x) as Hlo. pose proof (Qlt_floor x) as Hhi.
  rewrite inject_Z_plus in Hhi. change (inject_Z 1) with 1 in Hhi.
  destruct (x - inject_Z (Qfloor x) ?= 1 # 2) eqn:Hc.
  - apply Qeq_alt in Hc. destruct (Z.even (Qfloor x)).
    + lra.
    + rewrite inject_Z_plus. change (inject_Z 1) with 1. lra.
  - apply Qlt_alt in Hc. lra.
  - apply Qgt_alt in Hc. rewrite inject_Z_plus. change (inject_Z 1) with 1. lra.
Qed.

Lemma nearest_even_integer (x : Q) (j : Z) :
  Qabs (x - inject_Z (nearest_even x)) <= Qabs (x - inject_Z j).
Proof.
  pose proof (nearest_even_bounds x) as [Hlo Hhi].
  assert (Hm : Qabs (x - inject_Z (nearest_even x)) <= 1 # 2).
  { apply Qabs_Qle_condition. lra. }
  destruct (Z_le_gt_dec j (Qfloor x)) as [Hj|Hj].
  - (* j <= floor x <= x *)
    assert (H1 : inject_Z j <= inject_Z (Qfloor x)) by (rewrite <- Zle_Qle; exact Hj).
    pose proof (Qfloor_le x) as Hf.
    rewrite (Qabs_pos (x - inject_Z j)) by lra.
    unfold nearest_even in *.
    pose proof (Qlt_floor x) as Hhi'. rewrite inject_Z_plus in Hhi'. change (inject_Z 1) with 1 in Hhi'.
    destruct (x - inject_Z (Qfloor x) ?= 1 # 2) eqn:Hc.
    + apply Qeq_alt in Hc. apply Qabs_Qle_condition.
      destruct (Z.even (Qfloor x)); [|rewrite inject_Z_plus; change (inject_Z 1) with 1]; lra.
    + apply Qlt_alt in Hc. apply Qabs_Qle_condition. lra.
    + apply Qgt_alt in Hc. apply Qabs_Qle_condition. rewrite inject_Z_plus. change (inject_Z 1) with 1. lra.
  - (* j >= floor x + 1 > x *)
    assert (H1 : inject_Z (Qfloor x + 1) <= inject_Z j) by (rewrite <- Zle_Qle; lia).
    rewrite inject_Z_plus in H1. change (inject_Z 1) with 1 in H1.
    pose proof (Qfloor_le x) as Hf.
    pose proof (Qlt_floor x) as Hhi'. rewrite inject_Z_plus in Hhi'. change (inject_Z 1) with 1 in Hhi'.
    rewrite (Qabs_neg (x - inject_Z j)) by lra.
    unfold nearest_even in *.
    destruct (x - inject_Z (Qfloor x) ?= 1 # 2) eqn:Hc.
    + apply Qeq_alt in Hc. apply Qabs_Qle_condition.
      destruct (Z.even (Qfloor x)); [|rewrite inject_Z_plus; change (inject_Z 1) with 1]; lra.
    + apply Qlt_alt in Hc. apply Qabs_Qle_condition. lra.
    + apply Qgt_alt in Hc. apply Qabs_Qle_condition. rewrite inject_Z_plus. change (inject_Z 1) with 1. lra.
Qed.

Lemma pow2_52 : pow2 52 == 4503599627370496.
Proof. reflexivity. Qed.

Lemma pow2_53 : pow2 53 == 9007199254740992.
Proof. reflexivity. Qed.

Lemma log2_bounds (n : Z) :
  (0 < n)%Z -> pow2 (Z.log2 n) <= inject_Z n /\ inject_Z n < pow2 (Z.log2 n + 1).
Proof.
  intros Hn. destruct (Z.log2_spec n Hn) as [Hlo Hhi].
  pose proof (Z.log2_nonneg n) as Hnn.
  rewrite !pow2_Z by lia. split.
  - now rewrite <- Zle_Qle.
  - rewrite <- Zlt_Qlt. now replace (Z.log2 n + 1)%Z with (Z.succ (Z.log2 n)) by lia.
Qed.

Lemma exponent_spec (x : Q) :
  0 < x -> pow2 52 <= x / pow2 (exponent x) /\ x / pow2 (exponent x) < pow2 53.
Proof.
  intros Hx. unfold exponent.
  set (a := Z.log2 (Qnum x)). set (b := Z.log2 (Zpos (Qden x))).
  set (e0 := (a - b - 52)%Z).
  assert (Hn : (0 < Qnum x)%Z).
  { destruct x as [n d]. unfold Qlt in Hx. simpl in *. lia. }
  destruct (log2_bounds Hn) as [Hnlo Hnhi]. fold a in Hnlo, Hnhi.
  destruct (@log2_bounds (Zpos (Qden x)) ltac:(lia)) as [Hdlo Hdhi].
  fold b in Hdlo, Hdhi.
  assert (Hxe : x == inject_Z (Qnum x) / inject_Z (Zpos (Qden x))).
  { destruct x as [n d]. simpl. apply Qmake_Qdiv. }
  set (N := inject_Z (Qnum x)) in *. set (D := inject_Z (Zpos (Qden x))) in *.
  assert (HD : 0 < D).
  { unfold D. change 0 with (inject_Z 0). rewrite <- Zlt_Qlt. lia. }
  pose proof (pow2_pos e0) as Ht. pose proof (pow2_pos b) as Hb.
  pose proof (pow2_pos (a - b + 1)) as Hup. pose proof (pow2_pos (a - b - 1)) as Hdn.
  assert (Hhi : x < pow2 53 * pow2 e0).
  { rewrite <- pow2_add. replace (53 + e0)%Z with (a - b + 1)%Z by (unfold e0; lia).
    rewrite Hxe. apply Qlt_shift_div_r; [exact HD|].
    assert (H1 : pow2 (a + 1) == pow2 (a - b + 1) * pow2 b).
    { rewrite <- pow2_add. now replace (a - b + 1 + b)%Z with (a + 1)%Z by lia. }
    assert (H2 : pow2 (a - b + 1) * pow2 b <= pow2 (a - b + 1) * D).
    { apply Qmult_le_l; assumption. }
    lra. }
  assert (Hlo : pow2 51 * pow2 e0 < x).
  { rewrite <- pow2_add. replace (51 + e0)%Z with (a - b - 1)%Z by (unfold e0; lia).
    rewrite Hxe. apply Qlt_shift_div_l; [exact HD|].
    assert (H1 : pow2 a == pow2 (a - b - 1) * pow2 (b + 1)).
    { rewrite <- pow2_add. now replace (a - b - 1 + (b + 1))%Z with a by lia. }
    assert (H2 : pow2 (a - b - 1) * D < pow2 (a - b - 1) * pow2 (b + 1)).
    { apply Qmult_lt_l; assumption. }
    lra. }
  assert (H51 : pow2 51 == 2251799813685248) by reflexivity.
  rewrite H51 in Hlo. rewrite pow2_53 in Hhi.
  destruct (Qle_bool (pow2 52) (x / pow2 e0)) eqn:Htest.
  - apply Qle_bool_iff in Htest. split; [exact Htest|].
    rewrite pow2_53. apply Qlt_shift_div_r; [exact Ht | exact Hhi].
  - assert (Hlt : x / pow2 e0 < pow2 52).
    { apply Qnot_le_lt. intros H. apply Qle_bool_iff in H. congruence. }
    assert (Hhalf : pow2 e0 == 2 * pow2 (e0 - 1)).
    { change 2 with (pow2 1). rewrite <- pow2_add.
      now replace (1 + (e0 - 1))%Z with e0 by lia. }
    pose proof (pow2_pos (e0 - 1)) as Ht'.
    assert (Hx2 : x < pow2 52 * pow2 e0).
    { assert (E : x == x / pow2 e0 * pow2 e0) by (field; lra).
      pose proof (proj2 (Qmult_lt_r _ _ (pow2 e0) Ht) Hlt) as H. lra. }
    rewrite pow2_52 in *. rewrite pow2_53. split.
    + apply Qle_shift_div_l; [exact Ht'|]. lra.
    + apply Qlt_shift_div_r; [exact Ht'|]. lra.
Qed.

Lemma round_pos_nearest (x y : Q) :
  0 < x -> representable y -> Qabs (x - round_pos x) <= Qabs (x - y).
Proof.
  intros Hx [my [ey [Hmy Hy]]]. unfold round_pos.
  destruct (exponent_spec Hx) as [Hlo Hhi].
  set (e := exponent x) in *. set (t := pow2 e) in *.
  pose proof (pow2_pos e) as Ht. fold t in Ht.
  set (x' := x / t) in *. set (m := nearest_even x').
  assert (Hxt : x == x' * t) by (unfold x'; field; lra).
  set (y' := inject_Z my * pow2 (ey - e)).
  assert (Hyt : y == y' * t).
  { rewrite Hy. unfold y', t. rewrite pow2_sub. field.
    pose proof (pow2_pos e). lra. }
  assert (Hgoal : Qabs (x' - inject_Z m) <= Qabs (x' - y')).
  { destruct (Z_le_gt_dec 0 (ey - e)) as [Hge|Hlt].
    - assert (Hint : y' == inject_Z (my * 2 ^ (ey - e))).
      { unfold y'. rewrite inject_Z_mult, pow2_Z by exact Hge. reflexivity. }
      rewrite Hint. apply nearest_even_integer.
    - assert (Hc : pow2 (ey - e) <= 1 # 2).
      { apply Qle_trans with (pow2 (-1)); [apply pow2_le; lia | discriminate]. }
      pose proof (pow2_pos (ey - e)) as Hc0.
      assert (Hy' : y' < pow2 52).
      { unfold y'. rewrite pow2_52.
        destruct (Z_le_gt_dec 0 my) as [Hpos|Hneg].
        - assert (Hm1 : inject_Z my <= 9007199254740991).
          { change 9007199254740991 with (inject_Z 9007199254740991).
            rewrite <- Zle_Qle. lia. }
          assert (Hm0 : 0 <= inject_Z my).
          { change 0 with (inject_Z 0). rewrite <- Zle_Qle. lia. }
          assert (H1 : inject_Z my * pow2 (ey - e) <= inject_Z my * (1 # 2)).
          { apply Qmult_le_compat_nonneg; split; lra. }
          lra.
        - assert (Hm0 : inject_Z my < 0).
          { change 0 with (inject_Z 0). rewrite <- Zlt_Qlt. lia. }
          assert (H1 : inject_Z my * pow2 (ey - e) < 0 * pow2 (ey - e)).
          { apply Qmult_lt_r; assumption. }
          lra. }
      pose proof (nearest_even_integer x' (2 ^ 52)) as Hn. fold m in Hn.
      assert (H52 : inject_Z (2 ^ 52) == pow2 52) by reflexivity.
      rewrite H52 in Hn.
      rewrite (Qabs_pos (x' - pow2 52)) in Hn by lra.
      rewrite (Qabs_pos (x' - y')) by lra. lra. }
  assert (E1 : x - inject_Z m * t == (x' - inject_Z m) * t) by (rewrite Hxt at 1; ring).
  assert (E2 : x - y == (x' - y') * t) by (rewrite Hxt at 1; rewrite Hyt; ring).
  rewrite E1, E2, !Qabs_Qmult, (Qabs_pos t) by lra.
  apply Qmult_le_compat_r; [exact Hgoal | lra].
Qed.

Lemma round_nearest (x y : Q) :
  0 <= x -> representable y -> Qabs (x - round x) <= Qabs (x - y).
Proof.
  intros Hx Hy. destruct x as [[|p|p] d].
  - unfold round. cbn [Qnum].
    assert (H0 : (0 # d) - 0 == 0) by reflexivity.
    rewrite H0. apply Qabs_nonneg.
  - unfold round. cbn [Qnum]. apply round_pos_nearest; [reflexivity | exact Hy].
  - exfalso. unfold Qle in Hx. simpl in Hx. lia.
Qed.








Lemma round_le (x y : Q) : 0 <= x -> representable y -> x <= y -> round x <= y.
Proof.
  intros Hx Hy Hyx. pose proof (round_nearest Hx Hy) as Hn.
  rewrite (Qabs_neg (x - y)) in Hn by lra.
  apply Qabs_Qle_condition in Hn. lra.
Qed.

End DoubleFacts.

(** ** AudioNormalizer *)

Section NormalizerFacts.
Import Effects Normalizer Double.

Variable sample : Type.
Variable nan : sample.

Local Open Scope Q_scope.






(** Sample rates whose quotient by 16000 is no double: at 37800 Hz output
    sample 400 is input sample 944 (the exact product is 945), and at
    44056 Hz output sample 46000 is input sample 126660 (exactly 126661). *)
Lemma resample_index_inexact :
  Qfloor (mul (inject_Z 400) (ratio 37800)) = 944%Z /\
  Qfloor (inject_Z 400 * (37800 # 16000)) = 945%Z /\
  Qfloor (mul (inject_Z 46000) (ratio 44056)) = 126660%Z /\
  Qfloor (inject_Z 46000 * (44056 # 16000)) = 126661%Z.
Proof. repeat split; vm_compute; reflexivity. Qed.

Local Close Scope Q_scope.





End NormalizerFacts.


(** ** StitchingAssembler *)

Section StitcherFacts.
Import JS Stitcher.

Lemma str_eqb_eq (a b : jsstring) : str_eqb a b = true <-> a = b.
Proof.
  revert b. induction a as [|x a IH]; intros [|y b]; simpl; split;
    try discriminate; try reflexivity.
  - intros H. apply andb_true_iff in H as [Hx Hab].
    apply N.eqb_eq in Hx. apply IH in Hab. congruence.
  - intros H. injection H as -> ->. apply andb_true_iff. split.
    + apply N.eqb_refl.
    + now apply IH.
Qed.

Lemma str_eqb_refl (a : jsstring) : str_eqb a a = true.
Proof. now apply str_eqb_eq. Qed.

Lemma set_has_In (s : jsSet) (w : jsstring) : set_has s w = true <-> List.In w s.
Proof.
  unfold set_has. rewrite List.existsb_exists. split.
  - intros [x [Hx Heq]]. apply str_eqb_eq in Heq. now subst.
  - intros H. exists w. split; [exact H | apply str_eqb_refl].
Qed.

Lemma set_add_NoDup (w : jsstring) (s : jsSet) :
  List.NoDup s -> List.NoDup (set_add w s).
Proof.
  intros Hs. unfold set_add. destruct (set_has s w) eqn:Hw; [exact Hs|].
  apply List.NoDup_app; [exact Hs | repeat constructor; intros [] |].
  intros x Hx [<-|[]]. apply set_has_In in Hx. congruence.
Qed.

Lemma set_add_size (w : jsstring) (s : jsSet) :
  (set_size (set_add w s) <= S (set_size s))%nat.
Proof.
  unfold set_add, set_size. destruct (set_has s w); [lia|].
  rewrite List.length_app. simpl. lia.
Qed.

Lemma evict_head (first : jsstring) (rest : jsSet) :
  (20 < set_size (first :: rest))%nat -> evict (first :: rest) = rest.
Proof.
  intros H. unfold evict. apply Nat.ltb_lt in H. rewrite H. simpl.
  now rewrite str_eqb_refl.
Qed.

Lemma evict_small (s : jsSet) : (set_size s <= 20)%nat -> evict s = s.
Proof.
  intros H. unfold evict.
  destruct (Nat.ltb_spec 20 (set_size s)); [lia | reflexivity].
Qed.

Lemma evict_invariant (s : jsSet) :
  List.NoDup s -> (set_size s <= 21)%nat ->
  List.NoDup (evict s) /\ (set_size (evict s) <= 20)%nat.
Proof.
  intros Hnd Hsz. destruct (Nat.le_gt_cases (set_size s) 20) as [Hle|Hgt].
  - rewrite evict_small by exact Hle. now split.
  - destruct s as [|first rest]; [simpl in Hgt; lia|].
    rewrite evict_head by exact Hgt. split.
    + now inversion Hnd.
    + unfold set_size in *. simpl in Hsz. lia.
Qed.

Lemma filter_none (A : Type) (f : A -> bool) (l : list A) :
  (forall x, List.In x l -> f x = false) -> List.filter f l = [].
Proof.
  induction l as [|x l IH]; intros H; simpl; [reflexivity|].
  rewrite (H x (or_introl eq_refl)). apply IH. intros y Hy. apply H. now right.
Qed.

(** A set holds every word at most once, so the count the word loop
    computes is 0 or 1. *)
Lemma repetitionCount_le_1 (lastWords : jsSet) (word : jsstring) :
  List.NoDup lastWords -> (repetitionCount lastWords word <= 1)%nat.
Proof.
  unfold repetitionCount, spread. induction 1 as [|x l Hx Hnd IH]; simpl; [lia|].
  destruct (str_eqb x word) eqn:Heq; [|exact IH].
  apply str_eqb_eq in Heq. subst x. simpl.
  assert (Hnil : List.filter (fun w => str_eqb w word) l = []); [|rewrite Hnil; simpl; lia].
  apply filter_none. intros y Hy.
  destruct (str_eqb y word) eqn:Hyw; [|reflexivity].
  apply str_eqb_eq in Hyw. now subst y.
Qed.

Lemma track_word_accepts (uniqueWords : list jsstring) (lastWords : jsSet)
      (word : jsstring) :
  List.NoDup lastWords ->
  track_word (uniqueWords, lastWords) word
  = (uniqueWords ++ [word], evict (set_add word lastWords)).
Proof.
  intros Hnd. unfold track_word.
  pose proof (repetitionCount_le_1 word Hnd) as Hc.
  destruct (Nat.ltb_spec (repetitionCount lastWords word) 3); [reflexivity | lia].
Qed.

Lemma tracked_invariant (lastWords : jsSet) :
  tracked lastWords -> List.NoDup lastWords /\ (set_size lastWords <= 20)%nat.
Proof.
  induction 1 as [|u l w Ht [Hnd Hsz]].
  - split; [constructor | simpl; lia].
  - rewrite track_word_accepts by exact Hnd. simpl.
    apply evict_invariant.
    + now apply set_add_NoDup.
    + pose proof (set_add_size w l). lia.
Qed.

Lemma fold_track_word_tracked (words uniqueWords : list jsstring) (lastWords : jsSet) :
  tracked lastWords ->
  tracked (snd (List.fold_left track_word words (uniqueWords, lastWords))).
Proof.
  revert uniqueWords lastWords.
  induction words as [|w ws IH]; intros u l Ht; cbn [List.fold_left]; [exact Ht|].
  destruct (track_word (u, l) w) as [u' l'] eqn:Hstep.
  apply IH. replace l' with (snd (track_word (u, l) w)) by now rewrite Hstep.
  now constructor.
Qed.

Lemma merge_chunk_tracked (st : jsstring * jsSet) (cleanedChunk : jsstring) :
  tracked (snd st) -> tracked (snd (merge_chunk st cleanedChunk)).
Proof.
  destruct st as [full l]. simpl. intros Ht. unfold merge_chunk.
  destruct (truthy cleanedChunk); [|exact Ht].
  pose proof (@fold_track_word_tracked (split_ws cleanedChunk) [] l Ht) as H.
  destruct (List.fold_left track_word (split_ws cleanedChunk) ([], l)) as [u l'].
  simpl in H. now destruct (Nat.ltb 0 (List.length u)).
Qed.

Lemma stitch_tracked (cleanedChunks : list jsstring) :
  tracked (snd (stitch cleanedChunks)).
Proof.
  unfold stitch.
  assert (H : forall st, tracked (snd st) ->
            tracked (snd (List.fold_left merge_chunk cleanedChunks st))).
  { induction cleanedChunks as [|c cs IH]; intros st Hst; simpl; [exact Hst|].
    apply IH. now apply merge_chunk_tracked. }
  apply H. constructor.
Qed.

(** The word loop never rejects a word: it emits all of them, in order. *)
Lemma fold_track_word_emits_all (words uniqueWords : list jsstring) (lastWords : jsSet) :
  tracked lastWords ->
  fst (List.fold_left track_word words (uniqueWords, lastWords)) = uniqueWords ++ words.
Proof.
  revert uniqueWords lastWords.
  induction words as [|w ws IH]; intros u l Ht; cbn [List.fold_left].
  - simpl. now rewrite List.app_nil_r.
  - pose proof (tracked_word u w Ht) as Ht'.
    rewrite track_word_accepts in * by apply (tracked_invariant Ht).
    simpl in Ht'. rewrite IH by exact Ht'. now rewrite <- List.app_assoc.
Qed.

(** C9.  While windows are stitched the set of recent words never holds
    more than 20 entries, before and after every word; and when adding a
    word takes it over 20, the entry that leaves is the head of the
    insertion order, the oldest one, while the new word goes to the end. *)
Theorem C9_recent_words_bounded_fifo (lastWords : jsSet) :
  tracked lastWords ->
  (set_size lastWords <= 20)%nat /\
  forall (uniqueWords : list jsstring) (word : jsstring),
    let lastWords' := snd (track_word (uniqueWords, lastWords) word) in
    (set_size lastWords' <= 20)%nat /\
    ((20 < set_size (set_add word lastWords))%nat ->
     exists oldest rest,
       lastWords = oldest :: rest /\ lastWords' = rest ++ [word]).
Proof.
  intros Ht. destruct (tracked_invariant Ht) as [Hnd Hsz].
  split; [exact Hsz|]. intros u word lastWords'. split.
  - apply (tracked_invariant (tracked_word u word Ht)).
  - intros Hover. subst lastWords'. rewrite track_word_accepts by exact Hnd. simpl.
    unfold set_add in *. destruct (set_has lastWords word); [lia|].
    destruct lastWords as [|oldest rest].
    + simpl in Hover. lia.
    + exists oldest, rest. split; [reflexivity|].
      change ((oldest :: rest) ++ [word]) with (oldest :: (rest ++ [word])) in *.
      now rewrite evict_head.
Qed.

Lemma C9_recent_words_bounded_fifo_witness :
  let lastWords :=
    snd (stitch [lit "a b c d e f g h i j k l m n o p q r s t"]) in
  tracked lastWords /\
  (set_size lastWords <= 20)%nat /\
  exists oldest rest,
    lastWords = oldest :: rest /\
    snd (track_word ([], lastWords) (lit "u")) = rest ++ [lit "u"].
Proof.
  intros lastWords.
  assert (Ht : tracked lastWords) by apply stitch_tracked.
  destruct (C9_recent_words_bounded_fifo Ht) as [Hsz Hstep].
  split; [exact Ht|]. split; [exact Hsz|].
  apply (proj2 (Hstep [] (lit "u"))).
  vm_compute. repeat constructor.
Defined.

Lemma split_ws_cons (c : char) (t : jsstring) :
  split_ws (c :: t)
  = if is_space c then
      match t with
      | d :: _ => if is_space d then split_ws t else [] :: split_ws t
      | [] => [] :: split_ws t
      end
    else
      match split_ws t with
      | w :: ws => (c :: w) :: ws
      | [] => [[c]]
      end.
Proof. reflexivity. Qed.

Lemma split_ws_nonempty (s : jsstring) : split_ws s <> [].
Proof.
  induction s as [|c t IH]; [discriminate|].
  rewrite split_ws_cons. destruct (is_space c).
  - destruct t as [|d t']; [discriminate|].
    destruct (is_space d); [exact IH | discriminate].
  - destruct (split_ws t); discriminate.
Qed.

(** The repetition cap never triggers: every word of every window is
    emitted, because the set holds each word once and the count stays
    below 3. *)
Lemma merge_chunk_emits_all (full : jsstring) (lastWords : jsSet)
      (cleanedChunk : jsstring) :
  tracked lastWords -> truthy cleanedChunk = true ->
  fst (merge_chunk (full, lastWords) cleanedChunk)
  = full ++ (if (truthy full && negb (ends_with_space full))%bool
             then [SPACE] else [])
         ++ join [SPACE] (split_ws cleanedChunk).
Proof.
  intros Ht Hc. unfold merge_chunk. rewrite Hc.
  pose proof (@fold_track_word_emits_all (split_ws cleanedChunk) [] lastWords Ht) as H.
  destruct (List.fold_left track_word (split_ws cleanedChunk) ([], lastWords))
    as [u l']. simpl in H. subst u.
  pose proof (split_ws_nonempty cleanedChunk) as Hne.
  now destruct (split_ws cleanedChunk).
Qed.

(** C1 (the code departs from it).  On the window texts
    "forty nine forty nine forty nine" and "forty nine test" the merge
    emits every word: the transcript holds "forty" four times within nine
    words, the fourth occurrence is not suppressed. *)
Theorem C1_fourth_repeat_is_emitted :
  let merged :=
    fst (stitch [lit "forty nine forty nine forty nine"; lit "forty nine test"]) in
  merged = lit "forty nine forty nine forty nine forty nine test" /\
  occurrences (lit "forty") (split_ws merged) = 4%nat /\
  occurrences (lit "nine") (split_ws merged) = 4%nat.
Proof. vm_compute. repeat split. Qed.

End StitcherFacts.

(** ** processLongRecording: the chunk loop of the Web Audio path *)

Section LongRecordingFacts.
Import JS Sanitizer Effects Normalizer LongRecording.

Variable sample : Type.
Variable w : World sample.

(** Every window the loop generates holds at least one sample, and the
    test [chunkLength < 0.5] compares a sample count: it never skips. *)
Lemma generated_window_never_skipped (samplesPerChunk totalSamples i : Z) :
  (0 < samplesPerChunk)%Z ->
  List.In i (upto (numChunks samplesPerChunk totalSamples)) ->
  let (startTime, endTime) := chunk_bounds samplesPerChunk totalSamples i in
  (1 <= endTime - startTime)%Z /\ lt_half (endTime - startTime) = false.
Proof.
  intros Hspc Hi. apply In_upto in Hi. unfold numChunks in Hi.
  destruct samplesPerChunk as [|p|p]; try lia.
  rewrite Qceiling_div_pos in Hi. unfold chunk_bounds.
  pose proof (Z.mul_succ_div_gt (- totalSamples) (Zpos p) ltac:(lia)) as Hq.
  assert (Hlen : (1 <= Z.min ((i + 1) * Zpos p) totalSamples - i * Zpos p)%Z) by nia.
  split; [exact Hlen|]. unfold lt_half. apply Z.ltb_ge. lia.
Qed.

End LongRecordingFacts.

(** C3 (the code departs from it).  Fifty seconds of audio make three
    windows.  The engine returns "one" on the first, throws on the second
    and would return "three" on the third; the chunk loop of the custom
    transcriber has no handler around the engine call, so the call throws
    the engine's error and neither "one" nor "three" is returned. *)
Theorem C3_failed_window_aborts_the_transcript :
  let audioData := Standalone.three_window_audio in
  let o := Segmenter.chunkOptions Segmenter.noOptions in
  let ws := [(0, 320000); (240000, 560000); (480000, 800000)]%Z in
  let e := Effects.mkExn Effects.PlainError (JS.lit "inference failed") in
  Segmenter.segment (Z.of_nat (List.length audioData)) Segmenter.noOptions = Some ws /\
  List.map (fun win =>
              Standalone.second_window_fails
                (Transcriber.ChunkRequest
                   (Normalizer.slice audioData (fst win) (snd win)) o)) ws
  = [Effects.Return (Some (JS.lit "one")); Effects.Throw e;
     Effects.Return (Some (JS.lit "three"))] /\
  Standalone.transcriber 0%nat Standalone.second_window_fails
    (Effects.Return (Normalizer.mkBuffer 16000 [audioData])) true Segmenter.noOptions
  = Some (Effects.Throw e).
Proof. vm_compute. repeat split. Qed.

(** C6 (the code departs from it).  A recording of 1600 frames at 16 kHz
    makes one window, [0, 1600).  It lasts a tenth of a second, less than
    half a second, yet it is not skipped: the transcriber is called on it
    and its text becomes the transcript. *)
Theorem C6_short_window_is_processed :
  let st := LongRecording.web_audio_path 0%nat Nat.add LongRecording.short_world
                                         (LongRecording.mkState [] []) in
  LongRecording.numChunks (30 * 16000) 1600 = 1%Z /\
  LongRecording.chunk_bounds (30 * 16000) 1600 0 = (0, 1600)%Z /\
  (inject_Z (1600 - 0) / inject_Z 16000 < 1 # 2)%Q /\
  LongRecording.calls st = [LongRecording.Chunk 0] /\
  LongRecording.value st = JS.lit "hello".
Proof. vm_compute. repeat split. Qed.

(** ** processRecording: the fallback chain *)

Section ControllerFacts.
Import JS Effects Controller.
Local Open Scope string_scope.

Variable sample : Type.
Variable nan : sample.
Variable avg : sample -> sample -> sample.

(** The reduced-window fallback stops while it builds the arguments of
    [pipeline(...)]: no scope visible in the [catch] clause declares
    [estimatedDuration]. *)
Lemma fallback_throws_ReferenceError (w : World sample) (st : state) :
  lookup_scope "estimatedDuration" (globals w) = None ->
  exists msg, fallback w st = (st, Throw (mkExn ReferenceError msg)).
Proof.
  intros Hglobal. unfold fallback, fallback_env, function_env.
  cbn [resolve lookup_scope declare List.map String.eqb Ascii.eqb Bool.eqb
       module_scope bind].
  destruct (lookup_scope "Math" (globals w)) as [v|].
  - rewrite Hglobal. eexists. reflexivity.
  - eexists. reflexivity.
Qed.

(** C10.  When the [try] block of [processRecording] throws, the
    reduced-window fallback throws a [ReferenceError] before it creates or
    calls the temporary pipeline and leaves the state untouched, and the
    function goes on to [processLongRecording]; it returns if that
    returns and rethrows the first error if that throws. *)
Theorem C10_reduced_window_fallback_never_runs
        (w : World sample) (st st1 : state) (error : exn) :
  lookup_scope "estimatedDuration" (globals w) = None ->
  try_block nan avg w st = (st1, Throw error) ->
  (exists msg, fallback w st1 = (st1, Throw (mkExn ReferenceError msg))) /\
  processRecording nan avg w st
  = (let (st2, r) := call_long nan avg w (emit st1 LongRecordingLastResort) in
     (st2, match r with
           | Return _ => Return tt
           | Throw _ => Throw error
           end)).
Proof.
  intros Hglobal Htry.
  destruct (fallback_throws_ReferenceError w st1 Hglobal) as [msg Hfb].
  split; [now exists msg|].
  unfold processRecording. rewrite Htry, Hfb.
  destruct (call_long nan avg w (emit st1 LongRecordingLastResort)) as [st2 [[]|e]];
    reflexivity.
Qed.

End ControllerFacts.

Lemma C10_reduced_window_fallback_never_runs_witness :
  let st1 := Controller.emit Controller.initial Controller.MainTranscriber in
  Controller.try_block 0%nat Nat.add Controller.failing_world Controller.initial
  = (st1, Effects.Throw (Effects.mkExn Effects.PlainError (JS.lit "inference failed"))) /\
  Controller.fallback Controller.failing_world st1
  = (st1, Effects.Throw (Effects.mkExn Effects.ReferenceError
                           (JS.lit "estimatedDuration is not defined"))) /\
  Controller.events
    (fst (Controller.processRecording 0%nat Nat.add Controller.failing_world
                                      Controller.initial))
  = [Controller.MainTranscriber; Controller.LongRecordingLastResort].
Proof.
  intros st1.
  assert (Htry : Controller.try_block 0%nat Nat.add Controller.failing_world
                                      Controller.initial
                 = (st1, Effects.Throw (Effects.mkExn Effects.PlainError
                                          (JS.lit "inference failed"))))
    by reflexivity.
  destruct (@C10_reduced_window_fallback_never_runs nat 0%nat Nat.add
              Controller.failing_world Controller.initial st1 _ eq_refl Htry)
    as [_ Hrun].
  split; [exact Htry|]. split; [reflexivity|].
  rewrite Hrun. vm_compute. reflexivity.
Defined.

(** ** Channels *)

Section ChannelFacts.
Import Effects Normalizer.

Variable sample : Type.
Variable nan : sample.
Variable avg : sample -> sample -> sample.

(** C7 (as the code has it).  For a buffer with more than one channel the
    transcriber's normalizer returns what it returns for the first channel
    alone, the other channels are not read; the mix-down of the Web Audio
    path has one sample per frame, the average of channels 0 and 1.  Both
    results are a single array of samples. *)
Theorem C7_first_channel_or_stereo_average (b : AudioBuffer sample) :
  (1 < numberOfChannels b)%Z ->
  processAudioBlob nan b
  = processAudioBlob nan (mkBuffer (sampleRate b) [getChannelData b 0]) /\
  List.length (monoMix nan avg b) = frames b /\
  forall i, (0 <= i < Z.of_nat (frames b))%Z ->
    at_index nan (monoMix nan avg b) i
    = avg (at_index nan (getChannelData b 0) i) (at_index nan (getChannelData b 1) i).
Proof.
  intros Hmany. split; [reflexivity|].
  unfold monoMix. apply Z.ltb_lt in Hmany. rewrite Hmany. split.
  - rewrite List.length_map, length_upto. lia.
  - intros i Hi. unfold at_index at 1. now rewrite nth_map_upto.
Qed.

End ChannelFacts.

Lemma C7_first_channel_or_stereo_average_witness :
  let b := Normalizer.mkBuffer 48000 [[1; 2; 3]; [5; 6; 7]]%nat in
  (1 < Normalizer.numberOfChannels b)%Z /\
  Normalizer.processAudioBlob 0%nat b = [1]%nat /\
  Normalizer.monoMix 0%nat (fun l r => Nat.div (l + r) 2) b = [3; 4; 5]%nat /\
  List.length (Normalizer.monoMix 0%nat (fun l r => Nat.div (l + r) 2) b)
  = Normalizer.frames b.
Proof.
  intros b.
  assert (Hmany : (1 < Normalizer.numberOfChannels b)%Z) by reflexivity.
  split; [exact Hmany|]. split; [reflexivity|]. split; [reflexivity|].
  exact (proj1 (proj2 (@C7_first_channel_or_stereo_average
                         nat 0%nat (fun l r => Nat.div (l + r) 2) b Hmany))).
Defined.

(** C7 as stated fails.  On a stereo buffer at 16 kHz whose channels hold
    1 and 3 the transcriber's normalizer returns the left sample 1, not
    the channel average 2; and on a buffer of three channels holding 1, 3
    and 8 the mix-down of the Web Audio path is 2, the average of the
    first two, not the average 4 of the three. *)
Lemma C7_channels_not_averaged_counterexample :
  let stereo := Normalizer.mkBuffer 16000 [[1%Q]; [3%Q]] in
  let surround := Normalizer.mkBuffer 16000 [[1%Q]; [3%Q]; [8%Q]] in
  let mixed := Normalizer.monoMix 0%Q (fun l r => (l + r) / 2)%Q surround in
  ((1 < Normalizer.numberOfChannels stereo)%Z /\
   Normalizer.processAudioBlob 0%Q stereo = [1%Q] /\
   ~ (List.nth 0 (Normalizer.processAudioBlob 0%Q stereo) 0%Q
      == Normalizer.spec_channel_average (Normalizer.channels stereo) 0)%Q) /\
  ((1 < Normalizer.numberOfChannels surround)%Z /\
   (List.nth 0 mixed 0 == 2)%Q /\
   ~ (List.nth 0 mixed 0%Q
      == Normalizer.spec_channel_average (Normalizer.channels surround) 0)%Q).
Proof.
  intros stereo surround mixed. split.
  - split; [reflexivity|]. split; [reflexivity|]. vm_compute. discriminate.
  - split; [reflexivity|]. split; [reflexivity|]. vm_compute. discriminate.
Qed.

(** ** The short path of the transcriber *)

Section ShortPathFacts.
Import JS Effects Normalizer Segmenter.

Variable sample : Type.
Variable nan : sample.
Variable infer : Transcriber.request sample -> outcome (option jsstring).

(** C5 (as the code has it).  Audio of at most 25 seconds is sent to the
    engine once, whole, and no word filter is applied: the returned text
    is the engine output as cleaned by the script's own
    [cleanWhisperOutput], except that an empty cleaned output is reported
    as "[Empty transcription]". *)
Theorem C5_short_audio_single_run (audioBuffer : AudioBuffer sample)
        (options : Options) :
  let audioData := processAudioBlob nan audioBuffer in
  gt (estimatedDuration (Z.of_nat (List.length audioData))) (inject_Z 25) = false ->
  Standalone.transcriber nan infer (Return audioBuffer) true options
  = Some (match infer (Transcriber.WholeRequest audioData) with
          | Throw e => Throw e
          | Return transcription =>
              let cleaned := Standalone.cleanWhisperOutput transcription in
              Return (if truthy cleaned then cleaned else Transcriber.EMPTY)
          end).
Proof.
  intros audioData Hshort. unfold Standalone.transcriber. fold audioData.
  cbn [negb]. rewrite Hshort. reflexivity.
Qed.

End ShortPathFacts.

Lemma C5_short_audio_single_run_witness :
  let b := Normalizer.mkBuffer 16000 [[1; 2; 3]%nat] in
  let infer := fun _ : Transcriber.request nat =>
                 Effects.Return (Some (JS.lit "<|startoftranscript|> so so so so.")) in
  Standalone.transcriber 0%nat infer (Effects.Return b) true Segmenter.noOptions
  = Some (Effects.Return (JS.lit "so so so so")).
Proof.
  intros b infer.
  rewrite (@C5_short_audio_single_run nat 0%nat infer b Segmenter.noOptions eq_refl).
  reflexivity.
Defined.

(** C5 as stated fails when the cleaned output is empty: the engine
    answers "[BLANK_AUDIO]" on a short buffer, the script's cleaner makes
    it [''], and the transcriber returns "[Empty transcription]"
    instead. *)
Lemma C5_empty_output_counterexample :
  let b := Normalizer.mkBuffer 16000 [[1; 2; 3]%nat] in
  let infer := fun _ : Transcriber.request nat =>
                 Effects.Return (Some (JS.lit "[BLANK_AUDIO]")) in
  Segmenter.gt (Segmenter.estimatedDuration 3) (inject_Z 25) = false /\
  Standalone.cleanWhisperOutput (Some (JS.lit "[BLANK_AUDIO]")) = [] /\
  Standalone.transcriber 0%nat infer (Effects.Return b) true Segmenter.noOptions
  = Some (Effects.Return (JS.lit "[Empty transcription]")) /\
  Standalone.transcriber 0%nat infer (Effects.Return b) true Segmenter.noOptions
  <> Some (Effects.Return
             (Standalone.cleanWhisperOutput (Some (JS.lit "[BLANK_AUDIO]")))).
Proof.
  intros b infer. repeat split; try reflexivity.
  vm_compute. discriminate.
Qed.

(** The cleaner of the short path is the script's own, which has no step
    for spaced tags: the engine output "[ Music ] hi" is returned as it
    is, where the shared cleaner gives "hi". *)
Lemma short_path_keeps_spaced_tags :
  let b := Normalizer.mkBuffer 16000 [[1; 2; 3]%nat] in
  let infer := fun _ : Transcriber.request nat =>
                 Effects.Return (Some (JS.lit "[ Music ] hi")) in
  Standalone.transcriber 0%nat infer (Effects.Return b) true Segmenter.noOptions
  = Some (Effects.Return (JS.lit "[ Music ] hi")) /\
  Sanitizer.cleanWhisperOutput (Some (JS.lit "[ Music ] hi")) = JS.lit "hi".
Proof. split; vm_compute; reflexivity. Qed.

(** ** TextSanitizer *)

Section SanitizerFacts.
Import JS Sanitizer.

(** *** Patterns that cannot match *)

Lemma replace_all_no_match (m : matcher) (r s : jsstring) :
  (forall c t, List.In c s -> m (c :: t) = None) -> replace_all m r s = s.
Proof.
  unfold replace_all. induction s as [|c t IH]; intros H; [reflexivity|].
  cbn [replace_all_from]. rewrite (H c t (or_introl eq_refl)).
  f_equal. apply IH. intros d u Hd. apply H. now right.
Qed.

Lemma remove_first_no_match (m : matcher) (s : jsstring) :
  m [] = None ->
  (forall c t, List.In c s -> m (c :: t) = None) -> remove_first m s = s.
Proof.
  intros Hnil. induction s as [|c t IH]; intros H.
  - simpl. now rewrite Hnil.
  - cbn [remove_first]. rewrite (H c t (or_introl eq_refl)).
    f_equal. apply IH. intros d u Hd. apply H. now right.
Qed.

Lemma m_lit_head (a : char) (p : jsstring) (c : char) (t : jsstring) :
  char_eqb a c = false -> m_lit (a :: p) (c :: t) = None.
Proof. intros H. simpl. now rewrite H. Qed.

Lemma m_one_seq_head (cls : char -> bool) (m : matcher) (c : char) (t : jsstring) :
  cls c = false -> m_seq (m_one cls) m (c :: t) = None.
Proof. intros H. unfold m_seq, m_one. now rewrite H. Qed.

Lemma no_markup_In (s : jsstring) (c : char) :
  no_markup s = true -> List.In c s ->
  char_eqb LANGLE c = false /\ char_eqb LBRACKET c = false.
Proof.
  unfold no_markup. rewrite List.forallb_forall. intros H Hc.
  specialize (H c Hc). apply negb_true_iff, orb_false_iff in H as [H1 H2].
  unfold char_eqb in *. rewrite N.eqb_sym in H1. rewrite N.eqb_sym in H2.
  now split.
Qed.

Lemma drop_while_In (cls : char -> bool) (s : jsstring) (c : char) :
  List.In c (drop_while cls s) -> List.In c s.
Proof.
  induction s as [|d t IH]; simpl; [tauto|].
  destruct (cls d); [intros H; right; now apply IH | tauto].
Qed.

Lemma m_music_core_no_bracket (s : jsstring) :
  no_markup s = true -> m_music_core s = None.
Proof.
  intros H. destruct s as [|c t]; [reflexivity|].
  apply m_one_seq_head. apply (no_markup_In (c :: t)); [exact H | now left].
Qed.

Lemma no_markup_drop_while (cls : char -> bool) (s : jsstring) :
  no_markup s = true -> no_markup (drop_while cls s) = true.
Proof.
  unfold no_markup. rewrite !List.forallb_forall. intros H c Hc.
  apply H. now apply drop_while_In in Hc.
Qed.

(** *** Whitespace *)

Lemma drop_while_outside (cls : char -> bool) (s : jsstring) :
  starts_outside cls s = true -> drop_while cls s = s.
Proof.
  destruct s as [|c t]; [reflexivity|]. simpl. intros H.
  apply negb_true_iff in H. now rewrite H.
Qed.

Lemma drop_while_starts_outside (cls : char -> bool) (s : jsstring) :
  starts_outside cls (drop_while cls s) = true.
Proof.
  induction s as [|c t IH]; [reflexivity|]. simpl.
  destruct (cls c) eqn:Hc; [exact IH|]. simpl. now rewrite Hc.
Qed.

Lemma drop_while_suffix (cls : char -> bool) (s : jsstring) :
  exists a, s = a ++ drop_while cls s.
Proof.
  induction s as [|c t [a Ha]]; [now exists []|]. simpl.
  destruct (cls c); [|now exists []].
  exists (c :: a). simpl. now f_equal.
Qed.

Lemma replace_all_from_skip (m : matcher) (r : jsstring) (k : nat) (s : jsstring) :
  replace_all_from m r k s = replace_all_from m r 0 (List.skipn k s).
Proof.
  revert k. induction s as [|c t IH]; intros k.
  - now destruct k.
  - destruct k as [|k]; [reflexivity|]. cbn [replace_all_from List.skipn]. apply IH.
Qed.

Lemma collapse_cons (c : char) (t : jsstring) :
  collapse (c :: t)
  = if is_space c then SPACE :: collapse (drop_while is_space t)
    else c :: collapse t.
Proof.
  unfold collapse, replace_all. cbn [replace_all_from]. unfold m_plus, m_one.
  destruct (is_space c); [|reflexivity].
  destruct (drop_while_suffix is_space t) as [a Ha].
  assert (Hlen : Nat.sub (List.length (c :: t)) (List.length (drop_while is_space t))
                 = S (List.length a)).
  { rewrite Ha at 1. cbn [List.length]. rewrite List.length_app. lia. }
  rewrite Hlen. rewrite replace_all_from_skip.
  rewrite Ha at 1. now rewrite List.skipn_app, List.skipn_all, Nat.sub_diag.
Qed.

Lemma ws_normal_tail_cases (c : char) (t : jsstring) :
  ws_normal (c :: t)
  = ((if is_space c then char_eqb c SPACE && starts_outside is_space t else true)
     && ws_normal t)%bool.
Proof. reflexivity. Qed.

Lemma collapse_starts_outside (s : jsstring) :
  starts_outside is_space s = true -> starts_outside is_space (collapse s) = true.
Proof.
  destruct s as [|c t]; [reflexivity|]. intros H. rewrite collapse_cons.
  simpl in H. apply negb_true_iff in H. rewrite H. simpl. now rewrite H.
Qed.

Lemma collapse_ws_normal_bounded (n : nat) (s : jsstring) :
  (List.length s <= n)%nat -> ws_normal (collapse s) = true.
Proof.
  revert s. induction n as [|n IH]; intros s Hn.
  - destruct s; [reflexivity | simpl in Hn; lia].
  - destruct s as [|c t]; [reflexivity|]. rewrite collapse_cons.
    simpl in Hn.
    destruct (is_space c) eqn:Hc.
    + rewrite ws_normal_tail_cases.
      change (is_space SPACE) with true. cbn [char_eqb]. rewrite N.eqb_refl.
      rewrite collapse_starts_outside by apply drop_while_starts_outside.
      simpl. apply IH.
      destruct (drop_while_suffix is_space t) as [a Ha].
      assert (List.length t = List.length a + List.length (drop_while is_space t))%nat.
      { rewrite Ha at 1. apply List.length_app. }
      lia.
    + rewrite ws_normal_tail_cases, Hc. simpl. apply IH. lia.
Qed.

Lemma collapse_ws_normal (s : jsstring) : ws_normal (collapse s) = true.
Proof. now apply (@collapse_ws_normal_bounded (List.length s)). Qed.

Lemma collapse_fixed (s : jsstring) : ws_normal s = true -> collapse s = s.
Proof.
  induction s as [|c t IH]; [reflexivity|].
  rewrite ws_normal_tail_cases, collapse_cons. intros H.
  apply andb_true_iff in H as [Hc Ht].
  destruct (is_space c).
  - apply andb_true_iff in Hc as [Hsp Hout]. apply N.eqb_eq in Hsp. subst c.
    rewrite drop_while_outside by exact Hout. f_equal. now apply IH.
  - f_equal. now apply IH.
Qed.

Lemma ws_normal_tail (c : char) (t : jsstring) :
  ws_normal (c :: t) = true -> ws_normal t = true.
Proof. rewrite ws_normal_tail_cases. intros H. now apply andb_true_iff in H. Qed.

Lemma ws_normal_drop_while (cls : char -> bool) (s : jsstring) :
  ws_normal s = true -> ws_normal (drop_while cls s) = true.
Proof.
  induction s as [|c t IH]; [reflexivity|]. intros H. simpl.
  destruct (cls c); [|exact H]. apply IH. now apply ws_normal_tail in H.
Qed.

Lemma ws_normal_prefix (a b : jsstring) :
  ws_normal (a ++ b) = true -> ws_normal a = true.
Proof.
  induction a as [|c a IH]; [reflexivity|].
  rewrite <- List.app_comm_cons, !ws_normal_tail_cases. intros H.
  apply andb_true_iff in H as [Hc Hrest]. apply andb_true_iff. split.
  - destruct (is_space c); [|reflexivity].
    apply andb_true_iff in Hc as [Hsp Hout]. apply andb_true_iff.
    split; [exact Hsp|]. now destruct a.
  - now apply IH.
Qed.

(** *** Matches that reach the end leave a prefix *)

Lemma remove_first_to_end_prefix (m : matcher) (s : jsstring) :
  exists b, s = remove_first (m_to_end m) s ++ b.
Proof.
  induction s as [|c t [b Hb]].
  - exists []. simpl. unfold m_to_end. now destruct (m []) as [[|? ?]|].
  - cbn [remove_first]. unfold m_to_end at 1.
    destruct (m (c :: t)) as [[|x rest]|].
    + now exists (c :: t).
    + exists b. simpl. now f_equal.
    + exists b. simpl. now f_equal.
Qed.

Lemma trimEnd_prefix (s : jsstring) : exists b, s = trimEnd s ++ b.
Proof.
  induction s as [|c t [b Hb]]; [now exists []|]. cbn [trimEnd].
  destruct (trimEnd t) as [|d t'] eqn:Ht.
  - destruct (is_space c); [now exists (c :: t)|].
    exists b. simpl in *. now f_equal.
  - exists b. rewrite Hb at 1. reflexivity.
Qed.

Lemma trimEnd_ends_outside (s : jsstring) : ends_outside is_space (trimEnd s) = true.
Proof.
  induction s as [|c t IH]; [reflexivity|]. cbn [trimEnd].
  destruct (trimEnd t) as [|d t'] eqn:Ht.
  - destruct (is_space c) eqn:Hc; [reflexivity|]. simpl. now rewrite Hc.
  - exact IH.
Qed.

Lemma trimEnd_starts_outside (s : jsstring) :
  starts_outside is_space s = true -> starts_outside is_space (trimEnd s) = true.
Proof.
  destruct s as [|c t]; [reflexivity|]. cbn [trimEnd]. intros H.
  destruct (trimEnd t); [|exact H]. simpl in H.
  apply negb_true_iff in H. rewrite H. simpl. now rewrite H.
Qed.

Lemma trimEnd_fixed (s : jsstring) :
  ends_outside is_space s = true -> trimEnd s = s.
Proof.
  induction s as [|c t IH]; [reflexivity|]. intros H. cbn [trimEnd].
  destruct t as [|d t'].
  - simpl in *. apply negb_true_iff in H. now rewrite H.
  - rewrite IH by exact H. reflexivity.
Qed.

Lemma trim_fixed (s : jsstring) :
  starts_outside is_space s = true -> ends_outside is_space s = true -> trim s = s.
Proof.
  intros Hs He. unfold trim, trimStart.
  rewrite drop_while_outside by exact Hs. now apply trimEnd_fixed.
Qed.

(** *** The shape of every cleaned text *)

Lemma remove_at_start_lone_period (s : jsstring) :
  remove_at_start m_lone_period s = s \/ remove_at_start m_lone_period s = [].
Proof.
  unfold remove_at_start, m_lone_period, m_to_end.
  destruct (m_seq _ _ s) as [[|? ?]|]; auto.
Qed.

Lemma remove_at_start_punct (s : jsstring) :
  remove_at_start m_punct s = drop_while is_punct s.
Proof.
  unfold remove_at_start, m_punct, m_plus, m_one.
  destruct s as [|c t]; [reflexivity|]. simpl. now destruct (is_punct c).
Qed.

Lemma clean_text_shape (text : jsstring) :
  let y := clean_text text in
  ws_normal y = true /\ starts_outside is_space y = true
  /\ ends_outside is_space y = true.
Proof.
  unfold clean_text.
  set (s0 := remove_first m_music_end _).
  fold (collapse s0).
  set (s2 := remove_at_start m_lone_period (collapse s0)).
  set (s3 := remove_at_start m_punct s2).
  set (s4 := remove_first m_punct_end s3).
  assert (H2 : ws_normal s2 = true).
  { subst s2. destruct (remove_at_start_lone_period (collapse s0)) as [-> | ->];
      [apply collapse_ws_normal | reflexivity]. }
  assert (H3 : ws_normal s3 = true).
  { subst s3. rewrite remove_at_start_punct. now apply ws_normal_drop_while. }
  assert (H4 : ws_normal s4 = true).
  { subst s4. unfold m_punct_end.
    destruct (remove_first_to_end_prefix (m_plus is_punct) s3) as [b Hb].
    apply ws_normal_prefix with (b := b). now rewrite <- Hb. }
  cbv zeta. unfold trim, trimStart. repeat split.
  - destruct (trimEnd_prefix (drop_while is_space s4)) as [b Hb].
    apply ws_normal_prefix with (b := b). rewrite <- Hb.
    now apply ws_normal_drop_while.
  - apply trimEnd_starts_outside, drop_while_starts_outside.
  - apply trimEnd_ends_outside.
Qed.

(** *** Cleaned texts without markup and with clean ends are fixed *)

Lemma m_punct_end_none (s : jsstring) :
  s <> [] -> ends_outside is_punct s = true -> m_punct_end s = None.
Proof.
  unfold m_punct_end, m_to_end, m_plus, m_one.
  destruct s as [|c t]; [congruence|]. intros _ Hend.
  destruct (is_punct c) eqn:Hc; [|reflexivity].
  assert (Hne : drop_while is_punct t <> []); [|now destruct (drop_while is_punct t)].
  revert c Hc Hend. induction t as [|d t IH]; intros c Hc Hend.
  - simpl in Hend. rewrite Hc in Hend. discriminate.
  - simpl. destruct (is_punct d) eqn:Hd; [|discriminate].
    now apply (IH d).
Qed.

Lemma remove_first_punct_end_fixed (s : jsstring) :
  ends_outside is_punct s = true -> remove_first m_punct_end s = s.
Proof.
  induction s as [|c t IH]; intros Hend; [reflexivity|].
  cbn [remove_first]. rewrite m_punct_end_none by (congruence || exact Hend).
  f_equal. destruct t as [|d t']; [reflexivity|]. now apply IH.
Qed.

Lemma clean_text_fixed (y : jsstring) :
  no_markup y = true -> no_punct_ends y = true ->
  ws_normal y = true -> starts_outside is_space y = true ->
  ends_outside is_space y = true ->
  clean_text y = y.
Proof.
  intros Hmark Hpunct Hws Hstart Hend.
  apply andb_true_iff in Hpunct as [Hp1 Hp2].
  assert (Hlangle : forall p c t, List.In c y -> m_lit (LANGLE :: p) (c :: t) = None).
  { intros p c t Hc. apply m_lit_head. now apply (no_markup_In y). }
  assert (Hbracket : forall p c t, List.In c y -> m_lit (LBRACKET :: p) (c :: t) = None).
  { intros p c t Hc. apply m_lit_head. now apply (no_markup_In y). }
  unfold clean_text.
  rewrite (@replace_all_no_match (m_lit (lit "<|startoftranscript|>")) [] y) by apply Hlangle.
  rewrite (@replace_all_no_match (m_lit (lit "<|endoftranscript|>")) [] y) by apply Hlangle.
  rewrite (@replace_all_no_match (m_lit (lit "<|endoftext|>")) [] y) by apply Hlangle.
  rewrite (@replace_all_no_match (m_lit (lit "<|notimestamps|>")) [] y) by apply Hlangle.
  rewrite (@replace_all_no_match (m_lit (lit "<|transcribe|>")) [] y) by apply Hlangle.
  rewrite (@replace_all_no_match (m_lit (lit "<|translate|>")) [] y) by apply Hlangle.
  rewrite (@replace_all_no_match (m_lit (lit "[START]")) [] y) by apply Hbracket.
  rewrite (@replace_all_no_match (m_lit (lit "[END]")) [] y) by apply Hbracket.
  rewrite (@replace_all_no_match m_tag [] y).
  2:{ intros c t Hc. apply m_one_seq_head. now apply (no_markup_In y). }
  rewrite (@replace_all_no_match (m_lit (lit "[BLANK_AUDIO]")) [] y) by apply Hbracket.
  assert (Hms : remove_at_start m_music_start y = y).
  { unfold remove_at_start, m_music_start, m_seq at 1, m_star.
    now rewrite m_music_core_no_bracket by now apply no_markup_drop_while. }
  rewrite Hms.
  assert (Hme : remove_first m_music_end y = y).
  { apply remove_first_no_match; [reflexivity|].
    intros c t Hc. unfold m_music_end, m_to_end, m_music_core.
    rewrite m_one_seq_head; [reflexivity|]. now apply (no_markup_In y). }
  rewrite Hme. fold (collapse y). rewrite collapse_fixed by exact Hws.
  assert (Hlp : remove_at_start m_lone_period y = y).
  { unfold remove_at_start, m_lone_period, m_to_end, m_seq at 1, m_star.
    rewrite drop_while_outside by exact Hstart.
    destruct y as [|c t]; [reflexivity|].
    rewrite m_one_seq_head; [reflexivity|].
    simpl in Hp1. apply negb_true_iff in Hp1. unfold is_punct in Hp1.
    repeat (apply orb_false_iff in Hp1 as [Hp1 ?]).
    unfold char_eqb in *. now rewrite N.eqb_sym. }
  rewrite Hlp. rewrite remove_at_start_punct, drop_while_outside by exact Hp1.
  rewrite remove_first_punct_end_fixed by exact Hp2.
  now apply trim_fixed.
Qed.

(** C2 (as the code has it).  [cleanWhisperOutput] is a total function,
    it maps a missing and an empty text to the empty string, and a cleaned
    text that holds neither '<' nor '[' and neither begins nor ends with a
    punctuation mark is left as it is by a second pass. *)
Theorem C2_clean_output_is_fixed (x : option jsstring) :
  no_markup (cleanWhisperOutput x) = true ->
  no_punct_ends (cleanWhisperOutput x) = true ->
  cleanWhisperOutput None = [] /\
  cleanWhisperOutput (Some []) = [] /\
  cleanWhisperOutput (Some (cleanWhisperOutput x)) = cleanWhisperOutput x.
Proof.
  intros Hmark Hpunct. split; [reflexivity|]. split; [reflexivity|].
  destruct x as [[|c t]|]; try reflexivity.
  cbn [cleanWhisperOutput] in *.
  destruct (clean_text_shape (c :: t)) as [Hws [Hstart Hend]].
  destruct (clean_text (c :: t)) as [|d y] eqn:Hy; [reflexivity|].
  now apply clean_text_fixed.
Qed.

End SanitizerFacts.

Lemma C2_clean_output_is_fixed_witness :
  let x := Some (JS.lit "<|startoftranscript|> Hello,   world.<|endoftext|>") in
  Sanitizer.cleanWhisperOutput x = JS.lit "Hello, world" /\
  Sanitizer.cleanWhisperOutput (Some (Sanitizer.cleanWhisperOutput x))
  = Sanitizer.cleanWhisperOutput x.
Proof.
  intros x. split; [reflexivity|].
  exact (proj2 (proj2 (@C2_clean_output_is_fixed x eq_refl eq_refl))).
Defined.

(** C2 as stated fails: cleaning "Hello world. " gives "Hello world."
    (the full stop is followed by a space, so the pattern for trailing
    punctuation does not match before the final trim), and cleaning that
    again gives "Hello world". *)
Lemma C2_not_idempotent_counterexample :
  Sanitizer.cleanWhisperOutput (Some (JS.lit "Hello world. ")) = JS.lit "Hello world." /\
  Sanitizer.cleanWhisperOutput (Some (JS.lit "Hello world.")) = JS.lit "Hello world" /\
  Sanitizer.cleanWhisperOutput
    (Some (Sanitizer.cleanWhisperOutput (Some (JS.lit "Hello world. "))))
  <> Sanitizer.cleanWhisperOutput (Some (JS.lit "Hello world. ")).
Proof. repeat split; try reflexivity. vm_compute. discriminate. Qed.


(** ** bufferToWav *)

Section WavFacts.
Import Normalizer Wav.

Lemma set_bytes_at_end (pre bs : bytes) (m : nat) :
  (List.length bs <= m)%nat ->
  set_bytes (List.length pre) bs (pre ++ List.repeat 0%Z m)
  = Some (pre ++ bs ++ List.repeat 0%Z (m - List.length bs)).
Proof.
  intros Hfit. unfold set_bytes.
  rewrite List.length_app, List.repeat_length.
  destruct (Nat.leb_spec (List.length pre + List.length bs) (List.length pre + m));
    [|lia].
  rewrite List.firstn_app, List.firstn_all, Nat.sub_diag. cbn [List.firstn].
  rewrite List.app_nil_r.
  rewrite List.skipn_app, List.skipn_all2 by lia. cbn [List.app].
  replace (List.length pre + List.length bs - List.length pre)%nat
    with (List.length bs) by lia.
  replace (List.repeat 0%Z m)
    with (List.repeat 0%Z (List.length bs) ++ List.repeat 0%Z (m - List.length bs)).
  - rewrite List.skipn_app, List.skipn_all2 by (rewrite List.repeat_length; lia).
    rewrite List.repeat_length, Nat.sub_diag. reflexivity.
  - rewrite <- List.repeat_app. f_equal. lia.
Qed.

Lemma write_samples_at_end (data : list f32) :
  forall (pre : bytes) (m : nat),
    (2 * List.length data <= m)%nat ->
    write_samples (List.length pre) data (pre ++ List.repeat 0%Z m)
    = Some (pre ++ List.flat_map sample_bytes data
                ++ List.repeat 0%Z (m - 2 * List.length data)).
Proof.
  induction data as [|x rest IH]; intros pre m Hfit.
  - cbn [write_samples List.flat_map List.length List.app]. now rewrite Nat.sub_0_r.
  - cbn [write_samples List.flat_map]. unfold setInt16.
    cbn [List.length] in Hfit.
    rewrite (@set_bytes_at_end pre (le_bytes 2 (to_integer (scaled x))) m)
      by (cbn [le_bytes List.length]; lia).
    cbn [and_then].
    change (le_bytes 2 (to_integer (scaled x))) with (sample_bytes x).
    replace (pre ++ sample_bytes x ++ List.repeat 0%Z (m - List.length (sample_bytes x)))
      with ((pre ++ sample_bytes x) ++ List.repeat 0%Z (m - 2))
      by (now rewrite <- List.app_assoc).
    replace (List.length pre + 2)%nat with (List.length (pre ++ sample_bytes x))
      by (rewrite List.length_app; reflexivity).
    rewrite IH by lia. rewrite <- !List.app_assoc.
    replace (m - 2 - 2 * List.length rest)%nat
      with (m - 2 * List.length (x :: rest))%nat by (cbn [List.length]; lia).
    reflexivity.
Qed.

Lemma frames_fit (buffer : AudioBuffer f32) :
  (2 * frames buffer
   <= Z.to_nat (Z.of_nat (frames buffer) * numberOfChannels buffer * (16 / 8)))%nat.
Proof.
  unfold frames, getChannelData, numberOfChannels.
  destruct (channels buffer) as [|c rest]; cbn [List.nth List.length]; [lia|].
  change (16 / 8)%Z with 2%Z. nia.
Qed.

(** The encoder never overruns its buffer, and its output is the header,
    then the samples of channel 0, then zeros up to the announced size. *)
Lemma bufferToWav_closed_form (buffer : AudioBuffer f32) :
  let n := numberOfChannels buffer in
  let d := Z.to_nat (Z.of_nat (frames buffer) * n * (16 / 8)) in
  bufferToWav buffer
  = Some (header n (Zpos (sampleRate buffer)) (Z.of_nat (frames buffer))
            ++ List.flat_map sample_bytes (getChannelData buffer 0)
            ++ List.repeat 0%Z (d - 2 * frames buffer)).
Proof.
  intros n d. unfold bufferToWav. fold n.
  set (rate := Zpos (sampleRate buffer)).
  set (dataLength := (Z.of_nat (frames buffer) * n * (16 / 8))%Z).
  assert (Hd : (0 <= dataLength)%Z).
  { unfold dataLength, n, numberOfChannels. change (16 / 8)%Z with 2%Z. nia. }
  replace (Z.to_nat (44 + dataLength)) with (44 + d)%nat
    by (unfold d; fold dataLength; lia).
  rewrite List.repeat_app.
  pose proof (frames_fit buffer) as Hfit. fold n in Hfit. fold d in Hfit.
  pose proof (@write_samples_at_end (getChannelData buffer 0)
                (header n rate (Z.of_nat (frames buffer))) d Hfit) as Hloop.
  change (List.length (header n rate (Z.of_nat (frames buffer)))) with 44%nat in Hloop.
  etransitivity; [|exact Hloop]. reflexivity.
Qed.

Lemma le_value_le_bytes (k : nat) (v : Z) :
  le_value (le_bytes k v) = (v mod 256 ^ Z.of_nat k)%Z.
Proof.
  revert v. induction k as [|k IH]; intros v.
  - cbn [le_bytes le_value]. change (256 ^ Z.of_nat 0)%Z with 1%Z.
    now rewrite Z.mod_1_r.
  - cbn [le_bytes le_value]. rewrite IH.
    replace (256 ^ Z.of_nat (S k))%Z with (256 * 256 ^ Z.of_nat k)%Z
      by (rewrite Nat2Z.inj_succ, Z.pow_succ_r by lia; reflexivity).
    rewrite Z.rem_mul_r by (try apply Z.pow_pos_nonneg; lia). reflexivity.
Qed.

Lemma le_value_small (k : nat) (v : Z) :
  (0 <= v < 256 ^ Z.of_nat k)%Z -> le_value (le_bytes k v) = v.
Proof. intros H. rewrite le_value_le_bytes. now apply Z.mod_small. Qed.

Ltac field_arith :=
  repeat match goal with x := _ : Z |- _ => subst x end;
  change (256 ^ Z.of_nat 4)%Z with 4294967296%Z in *;
  change (256 ^ Z.of_nat 2)%Z with 65536%Z in *;
  nia.

Lemma length_header (n rate frameCount : Z) :
  List.length (header n rate frameCount) = 44%nat.
Proof. reflexivity. Qed.

Lemma length_sample_bytes (data : list f32) :
  List.length (List.flat_map sample_bytes data) = (2 * List.length data)%nat.
Proof.
  induction data as [|x rest IH]; [reflexivity|].
  cbn [List.flat_map List.length]. rewrite List.length_app, IH.
  cbn [sample_bytes le_bytes List.length]. lia.
Qed.

Lemma bufferToWav_length (buffer : AudioBuffer f32) :
  exists blob,
    bufferToWav buffer = Some blob /\
    Z.of_nat (List.length blob)
    = (44 + 2 * Z.of_nat (frames buffer) * numberOfChannels buffer)%Z.
Proof.
  eexists. split; [apply bufferToWav_closed_form|].
  rewrite !List.length_app, length_header, length_sample_bytes, List.repeat_length.
  pose proof (frames_fit buffer) as Hfit. fold (frames buffer).
  change (16 / 8)%Z with 2%Z in *.
  assert (0 <= Z.of_nat (frames buffer) * numberOfChannels buffer * 2)%Z.
  { unfold numberOfChannels. nia. }
  lia.
Qed.

(** X1.  For a buffer with at least one channel [bufferToWav] never
    writes outside its array, and the blob has 44 header bytes and two
    bytes per frame and channel. *)
Theorem bufferToWav_size (buffer : AudioBuffer f32) :
  (1 <= numberOfChannels buffer)%Z ->
  exists blob,
    bufferToWav buffer = Some blob /\
    Z.of_nat (List.length blob)
    = (44 + 2 * Z.of_nat (frames buffer) * numberOfChannels buffer)%Z.
Proof. intros _. apply bufferToWav_length. Qed.

(** X2.  The header reads back field by field: the chunk names,
    a RIFF size of the file length less 8, PCM format 1, the channel
    count, the sample rate, the byte rate, the block alignment, 16 bits
    per sample, and the announced data length, as long as the sizes fit
    their fields. *)
Theorem bufferToWav_header_round_trip (buffer : AudioBuffer f32) (blob : bytes) :
  let n := numberOfChannels buffer in
  let rate := Zpos (sampleRate buffer) in
  let dataLength := (2 * Z.of_nat (frames buffer) * n)%Z in
  bufferToWav buffer = Some blob ->
  (1 <= n)%Z ->
  (44 + dataLength < 2 ^ 32)%Z ->
  (rate * (2 * n) < 2 ^ 32)%Z ->
  (2 * n < 2 ^ 16)%Z ->
  getString 4 0 blob = JS.lit "RIFF" /\
  getUint 4 4 blob = (Z.of_nat (List.length blob) - 8)%Z /\
  getString 4 8 blob = JS.lit "WAVE" /\
  getString 4 12 blob = JS.lit "fmt " /\
  getUint 4 16 blob = 16%Z /\
  getUint 2 20 blob = 1%Z /\
  getUint 2 22 blob = n /\
  getUint 4 24 blob = rate /\
  getUint 4 28 blob = (rate * n * 2)%Z /\
  getUint 2 32 blob = (n * 2)%Z /\
  getUint 2 34 blob = 16%Z /\
  getString 4 36 blob = JS.lit "data" /\
  getUint 4 40 blob = dataLength.
Proof.
  intros n rate dataLength Hblob Hone Hfile Hrate Hn.
  destruct (bufferToWav_length buffer) as [blob' [Hblob' Hlen]].
  assert (blob' = blob) by congruence. subst blob'. rewrite Hlen. clear Hlen Hblob'.
  pose proof (bufferToWav_closed_form buffer) as Hform. cbv zeta in Hform.
  fold n rate in Hform.
  set (rest := List.flat_map sample_bytes (getChannelData buffer 0) ++ _) in Hform.
  assert (Hb : blob = header n rate (Z.of_nat (frames buffer)) ++ rest) by congruence.
  subst blob. clear Hform Hblob.
  assert (Hn0 : (0 <= n)%Z) by (unfold n, numberOfChannels; lia).
  assert (Hd0 : (0 <= dataLength)%Z) by (unfold dataLength; nia).
  assert (Hr0 : (0 < rate)%Z) by (unfold rate; lia).
  change (2 ^ 32)%Z with (256 ^ Z.of_nat 4)%Z in *.
  change (2 ^ 16)%Z with (256 ^ Z.of_nat 2)%Z in *.
  unfold dataLength in *. clear dataLength.
  repeat split; try reflexivity.
  - change (getUint 4 4 (header n rate (Z.of_nat (frames buffer)) ++ rest))
      with (le_value (le_bytes 4 (44 + Z.of_nat (frames buffer) * n * (16 / 8) - 8))).
    change (16 / 8)%Z with 2%Z. rewrite le_value_small; field_arith.
  - change (getUint 2 22 (header n rate (Z.of_nat (frames buffer)) ++ rest))
      with (le_value (le_bytes 2 n)). rewrite le_value_small; field_arith.
  - change (getUint 4 24 (header n rate (Z.of_nat (frames buffer)) ++ rest))
      with (le_value (le_bytes 4 rate)). rewrite le_value_small; field_arith.
  - change (getUint 4 28 (header n rate (Z.of_nat (frames buffer)) ++ rest))
      with (le_value (le_bytes 4 (rate * (n * (16 / 8))))).
    change (16 / 8)%Z with 2%Z. rewrite le_value_small; field_arith.
  - change (getUint 2 32 (header n rate (Z.of_nat (frames buffer)) ++ rest))
      with (le_value (le_bytes 2 (n * (16 / 8)))).
    change (16 / 8)%Z with 2%Z. rewrite le_value_small; field_arith.
  - change (getUint 4 40 (header n rate (Z.of_nat (frames buffer)) ++ rest))
      with (le_value (le_bytes 4 (Z.of_nat (frames buffer) * n * (16 / 8)))).
    change (16 / 8)%Z with 2%Z. rewrite le_value_small; field_arith.
Qed.

Lemma Qlt_bool_iff (a b : Q) : Qlt_bool a b = true <-> (a < b)%Q.
Proof.
  unfold Qlt_bool. rewrite negb_true_iff. split.
  - intros H. apply Qnot_le_lt. intros Hle. apply Qle_bool_iff in Hle. congruence.
  - intros H. destruct (Qle_bool b a) eqn:Hle; [|reflexivity].
    apply Qle_bool_iff in Hle. exfalso. exact (Qlt_not_le _ _ H Hle).
Qed.

Lemma Qlt_bool_false (a b : Q) : Qlt_bool a b = false <-> (b <= a)%Q.
Proof.
  unfold Qlt_bool. rewrite negb_false_iff. apply Qle_bool_iff.
Qed.

(** Every stored sample is a 16-bit signed value. *)
Lemma scaled_range (x : f32) :
  (-32768 <= to_integer (scaled x) <= 32767)%Z.
Proof.
  destruct x as [q| | |]; try (vm_compute; split; discriminate).
  unfold scaled, min_1, max_neg1.
  assert (Hclamp : exists c, (-1 <= c)%Q /\ (c <= 1)%Q /\
            (if Qlt_bool q 1
             then if Qlt_bool (-1) q then Num q else Num (-1)
             else if Qlt_bool (-1) 1 then Num 1 else Num (-1)) = Num c).
  { destruct (Qlt_bool q 1) eqn:H1.
    - destruct (Qlt_bool (-1) q) eqn:H2.
      + exists q. apply Qlt_bool_iff in H1, H2.
        repeat split; now apply Qlt_le_weak.
      + exists (-1)%Q. repeat split; discriminate.
    - exists 1%Q. repeat split; discriminate. }
  destruct Hclamp as [c [Hlo [Hhi Hc]]].
  replace (match (if Qlt_bool q 1 then Num q else Num 1) with
           | Num q0 => if Qlt_bool (-1) q0 then Num q0 else Num (-1)
           | NaNv => NaNv
           | PosInfv => PosInfv
           | NegInfv => Num (-1)
           end) with (Num c) by (rewrite <- Hc; now destruct (Qlt_bool q 1)).
  cbn [is_negative times to_integer]. unfold Qtrunc.
  destruct (Qlt_bool c 0) eqn:Hneg; cbn [times to_integer]; unfold Qtrunc.
  - apply Qlt_bool_iff in Hneg.
    assert (Hp : (c * inject_Z 32768 < 0)%Q).
    { unfold Qlt, Qmult, inject_Z in *. simpl in *. nia. }
    apply Qlt_bool_iff in Hp. rewrite Hp. split.
    + change (-32768)%Z with (Qceiling (inject_Z (-32768))).
      apply Qceiling_resp_le.
      unfold Qle, Qmult, inject_Z in *. simpl in *. nia.
    + apply Qlt_bool_iff in Hp. apply Qlt_le_weak in Hp.
      apply Qceiling_resp_le in Hp. change (Qceiling 0) with 0%Z in Hp. lia.
  - apply Qlt_bool_false in Hneg.
    assert (Hp : (0 <= c * inject_Z 32767)%Q).
    { unfold Qle, Qmult, inject_Z in *. simpl in *. nia. }
    apply Qlt_bool_false in Hp. rewrite Hp. apply Qlt_bool_false in Hp. split.
    + apply Qfloor_resp_le in Hp. change (Qfloor 0) with 0%Z in Hp. lia.
    + change 32767%Z with (Qfloor (inject_Z 32767)).
      apply Qfloor_resp_le.
      apply Qle_trans with (1 * inject_Z 32767)%Q.
      * apply Qmult_le_compat_r; [exact Hhi | discriminate].
      * vm_compute. discriminate.
Qed.

Lemma skipn_samples (i : nat) :
  forall (data : list f32) (rest : bytes),
    List.skipn (2 * i) (List.flat_map sample_bytes data ++ rest)
    = List.flat_map sample_bytes (List.skipn i data)
        ++ List.skipn (2 * (i - List.length data)) rest.
Proof.
  induction i as [|i IH]; intros data rest; [reflexivity|].
  destruct data as [|x data].
  - cbn [List.flat_map List.app List.skipn List.length]. now rewrite Nat.sub_0_r.
  - replace (2 * S i)%nat with (S (S (2 * i))) by lia.
    cbn [List.flat_map sample_bytes le_bytes List.app List.skipn List.length Nat.sub].
    apply IH.
Qed.

Lemma getInt16_sample (pre : bytes) (data : list f32) (rest : bytes) (i : nat) :
  (i < List.length data)%nat ->
  getInt16 (List.length pre + 2 * i)
           (pre ++ List.flat_map sample_bytes data ++ rest)
  = to_integer (scaled (List.nth i data NaNv)).
Proof.
  intros Hi. unfold getInt16, getUint.
  rewrite List.skipn_app, List.skipn_all2 by lia. cbn [List.app].
  replace (List.length pre + 2 * i - List.length pre)%nat with (2 * i)%nat by lia.
  rewrite skipn_samples.
  destruct (List.skipn i data) as [|x tl] eqn:Hskip.
  - apply (f_equal (@List.length f32)) in Hskip.
    rewrite List.length_skipn in Hskip. simpl in Hskip. lia.
  - assert (Hx : List.nth i data NaNv = x).
    { rewrite <- (List.firstn_skipn i data) at 1. rewrite Hskip.
      rewrite List.app_nth2; rewrite List.length_firstn, Nat.min_l by lia; [|lia].
      now rewrite Nat.sub_diag. }
    rewrite Hx.
    change (List.firstn 2 (List.flat_map sample_bytes (x :: tl) ++ _))
      with (le_bytes 2 (to_integer (scaled x))).
    rewrite le_value_le_bytes. change (256 ^ Z.of_nat 2)%Z with 65536%Z.
    pose proof (scaled_range x) as Hr.
    destruct (Z.ltb_spec (to_integer (scaled x) mod 65536) 32768) as [Hlt|Hge].
    + destruct (Z.neg_nonneg_cases (to_integer (scaled x))) as [Hn|Hn].
      * rewrite <- (Z.mod_add _ 1) in Hlt by lia.
        rewrite Z.mod_small in Hlt by lia. lia.
      * apply Z.mod_small. lia.
    + destruct (Z.neg_nonneg_cases (to_integer (scaled x))) as [Hn|Hn].
      * rewrite <- (Z.mod_add _ 1) by lia. rewrite Z.mod_small by lia. lia.
      * rewrite Z.mod_small in Hge by lia. lia.
Qed.

(** X3.  The frames of channel 0 follow the header, packed two
    bytes each: the 16-bit value at offset [44 + 2i] is frame [i] clamped
    to [-1, 1], scaled by [0x8000] below zero and [0x7FFF] otherwise and
    truncated; it lies in the signed 16-bit range.  A frame of 1 or more
    reads 32767, one of -1 or less reads -32768, a not-a-number 0. *)
Theorem bufferToWav_samples_round_trip (buffer : AudioBuffer f32) (blob : bytes)
        (i : nat) :
  bufferToWav buffer = Some blob ->
  (i < frames buffer)%nat ->
  let x := List.nth i (getChannelData buffer 0) NaNv in
  getInt16 (44 + 2 * i) blob = to_integer (scaled x) /\
  (-32768 <= getInt16 (44 + 2 * i) blob <= 32767)%Z /\
  (forall q, x = Num q -> (1 <= q)%Q -> getInt16 (44 + 2 * i) blob = 32767%Z) /\
  (forall q, x = Num q -> (q <= -1)%Q -> getInt16 (44 + 2 * i) blob = (-32768)%Z) /\
  (x = NaNv -> getInt16 (44 + 2 * i) blob = 0%Z).
Proof.
  intros Hblob Hi x.
  pose proof (bufferToWav_closed_form buffer) as Hform. cbv zeta in Hform.
  set (rest := List.repeat 0%Z _) in Hform.
  assert (Hb : blob = header (numberOfChannels buffer) (Zpos (sampleRate buffer))
                             (Z.of_nat (frames buffer))
                        ++ List.flat_map sample_bytes (getChannelData buffer 0) ++ rest)
    by congruence.
  assert (Hget : getInt16 (44 + 2 * i) blob = to_integer (scaled x)).
  { rewrite Hb. rewrite <- (length_header (numberOfChannels buffer)
                              (Zpos (sampleRate buffer)) (Z.of_nat (frames buffer))).
    now apply getInt16_sample. }
  rewrite Hget. split; [reflexivity|]. split; [apply scaled_range|].
  repeat split.
  - intros q Hq Hone. rewrite Hq. unfold scaled, min_1.
    apply Qlt_bool_false in Hone. rewrite Hone. reflexivity.
  - intros q Hq Hlow. rewrite Hq. unfold scaled, min_1, max_neg1.
    assert (H1 : Qlt_bool q 1 = true).
    { apply Qlt_bool_iff. eapply Qle_lt_trans; [exact Hlow | reflexivity]. }
    rewrite H1. apply Qlt_bool_false in Hlow. rewrite Hlow. reflexivity.
  - intros Hq. now rewrite Hq.
Qed.

(** X4.  Only channel 0 reaches the blob: two buffers of
    the same rate and channel count with the same first channel encode
    alike, and every byte past the frames of channel 0 is zero, although
    the header announces two bytes per frame for every channel. *)
Theorem bufferToWav_first_channel_only (b1 b2 : AudioBuffer f32) (blob : bytes) :
  (1 <= numberOfChannels b1)%Z ->
  bufferToWav b1 = Some blob ->
  sampleRate b1 = sampleRate b2 ->
  numberOfChannels b1 = numberOfChannels b2 ->
  getChannelData b1 0 = getChannelData b2 0 ->
  bufferToWav b2 = Some blob /\
  forall k, (44 + 2 * frames b1 <= k)%nat -> List.nth k blob 0%Z = 0%Z.
Proof.
  intros _ Hblob Hrate Hn Hdata.
  pose proof (bufferToWav_closed_form b1) as H1.
  pose proof (bufferToWav_closed_form b2) as H2. cbv zeta in H1, H2.
  assert (Hframes : frames b1 = frames b2) by (unfold frames; now rewrite Hdata).
  split.
  - rewrite H2, <- Hblob, H1, Hrate, Hn, Hdata, Hframes. reflexivity.
  - intros k Hk. rewrite H1 in Hblob.
    assert (Hb : blob = header (numberOfChannels b1) (Zpos (sampleRate b1))
                               (Z.of_nat (frames b1))
                        ++ List.flat_map sample_bytes (getChannelData b1 0)
                        ++ List.repeat 0%Z
                             (Z.to_nat (Z.of_nat (frames b1) * numberOfChannels b1 * (16 / 8))
                              - 2 * frames b1)) by congruence.
    rewrite Hb. rewrite List.app_nth2 by (rewrite length_header; lia).
    rewrite List.app_nth2
      by (rewrite length_header, length_sample_bytes; fold (frames b1); lia).
    apply List.nth_repeat.
Qed.

End WavFacts.

Lemma bufferToWav_size_witness :
  exists blob,
    Wav.bufferToWav Wav.example = Some blob /\
    Z.of_nat (List.length blob) = 52%Z.
Proof.
  apply (@bufferToWav_size Wav.example). vm_compute. discriminate.
Defined.

Lemma bufferToWav_header_round_trip_witness :
  Wav.bufferToWav Wav.example = Some Wav.example_blob /\
  Wav.getUint 4 4 Wav.example_blob = 44%Z /\
  Wav.getUint 2 22 Wav.example_blob = 1%Z /\
  Wav.getUint 4 24 Wav.example_blob = 16000%Z /\
  Wav.getUint 4 40 Wav.example_blob = 8%Z.
Proof.
  assert (Hblob : Wav.bufferToWav Wav.example = Some Wav.example_blob)
    by (vm_compute; reflexivity).
  split; [exact Hblob|].
  assert (H1 : (1 <= Normalizer.numberOfChannels Wav.example)%Z)
    by (vm_compute; discriminate).
  assert (H2 : (44 + 2 * Z.of_nat (Normalizer.frames Wav.example)
                       * Normalizer.numberOfChannels Wav.example < 2 ^ 32)%Z)
    by (vm_compute; reflexivity).
  assert (H3 : (Zpos (Normalizer.sampleRate Wav.example)
                * (2 * Normalizer.numberOfChannels Wav.example) < 2 ^ 32)%Z)
    by (vm_compute; reflexivity).
  assert (H4 : (2 * Normalizer.numberOfChannels Wav.example < 2 ^ 16)%Z)
    by (vm_compute; reflexivity).
  pose proof (@bufferToWav_header_round_trip Wav.example Wav.example_blob
                Hblob H1 H2 H3 H4)
    as [_ [Hsize [_ [_ [_ [_ [Hn [Hrate [_ [_ [_ [_ Hdata]]]]]]]]]]]].
  exact (conj Hsize (conj Hn (conj Hrate Hdata))).
Defined.

Lemma bufferToWav_samples_round_trip_witness :
  Wav.bufferToWav Wav.example = Some Wav.example_blob /\
  (2 < Normalizer.frames Wav.example)%nat /\
  Wav.getInt16 (44 + 2 * 2) Wav.example_blob = 32767%Z.
Proof.
  assert (Hblob : Wav.bufferToWav Wav.example = Some Wav.example_blob)
    by (vm_compute; reflexivity).
  assert (Hi : (2 < Normalizer.frames Wav.example)%nat)
    by (vm_compute; repeat constructor).
  split; [exact Hblob|]. split; [exact Hi|].
  destruct (@bufferToWav_samples_round_trip Wav.example Wav.example_blob 2 Hblob Hi)
    as [_ [_ [Hhigh _]]].
  apply (Hhigh 3%Q); [reflexivity | discriminate].
Defined.

Lemma bufferToWav_first_channel_only_witness :
  Wav.bufferToWav Wav.example_stereo = Some Wav.example_stereo_blob /\
  Wav.bufferToWav Wav.example_stereo' = Some Wav.example_stereo_blob /\
  List.nth 46 Wav.example_stereo_blob 0%Z = 0%Z.
Proof.
  assert (Hblob : Wav.bufferToWav Wav.example_stereo = Some Wav.example_stereo_blob)
    by (vm_compute; reflexivity).
  assert (Hch : (1 <= Normalizer.numberOfChannels Wav.example_stereo)%Z)
    by (vm_compute; discriminate).
  destruct (@bufferToWav_first_channel_only Wav.example_stereo Wav.example_stereo'
              Wav.example_stereo_blob Hch Hblob eq_refl eq_refl eq_refl)
    as [Hsame Hzero].
  split; [exact Hblob|]. split; [exact Hsame|].
  apply Hzero. vm_compute. repeat constructor.
Defined.

(** ** Segmenter: coverage and overlap *)

Section SegmenterCoverage.
Import Effects Segmenter.

Lemma numChunks_positive_step (len chunk stride : Z) :
  (0 < chunk - stride)%Z ->
  exists c,
    numChunks len (chunk, stride) = Fin (c + 1) /\
    (len - chunk <= c * (chunk - stride))%Z /\
    ((c - 1) * (chunk - stride) < len - chunk)%Z.
Proof.
  intros Hstep. unfold numChunks, ceil_quot.
  destruct (Z.eqb_spec (chunk - stride) 0) as [H0|_]; [lia|].
  destruct (chunk - stride)%Z as [|p|p] eqn:Hp; try lia.
  rewrite Qceiling_div_pos. exists (- (- (len - chunk) / Zpos p))%Z.
  split; [reflexivity|].
  pose proof (Z.mul_div_le (- (len - chunk)) (Zpos p) ltac:(lia)).
  pose proof (Z.mul_succ_div_gt (- (len - chunk)) (Zpos p) ltac:(lia)).
  split; nia.
Qed.

Lemma windows_positive_step (len chunk stride : Z) :
  (0 < chunk - stride)%Z ->
  exists c,
    windows len (chunk, stride)
    = Some (List.map (window_at len (chunk, stride)) (upto (c + 1))) /\
    (len - chunk <= c * (chunk - stride))%Z /\
    ((c - 1) * (chunk - stride) < len - chunk)%Z.
Proof.
  intros Hstep.
  destruct (@numChunks_positive_step len chunk stride Hstep) as [c [Hn [Hlo Hhi]]].
  exists c. unfold windows. rewrite Hn. now repeat split.
Qed.

(** X5.  With a positive window step and audio longer than the overlap,
    the chunk loop visits at least one window; every window is non-empty,
    lies inside the audio and is at most one chunk long; every sample
    belongs to some window; and the last window ends with the audio. *)
Theorem windows_cover_the_audio (len chunk stride : Z) :
  (0 < chunk - stride)%Z -> (0 <= stride)%Z -> (stride < len)%Z ->
  exists ws,
    windows len (chunk, stride) = Some ws /\
    ws <> [] /\
    (forall win, List.In win ws ->
       (0 <= fst win < snd win)%Z /\ (snd win <= len)%Z /\
       (snd win - fst win <= chunk)%Z) /\
    (forall k, (0 <= k < len)%Z ->
       exists win, List.In win ws /\ (fst win <= k < snd win)%Z) /\
    (exists win, List.In win ws /\ snd win = len).
Proof.
  intros Hstep Hstride Hlen.
  destruct (@windows_positive_step len chunk stride Hstep) as [c [Hws [Hlo Hhi]]].
  assert (Hc : (0 <= c)%Z) by nia.
  exists (List.map (window_at len (chunk, stride)) (upto (c + 1))).
  split; [exact Hws|]. split.
  - intros Hnil. apply (f_equal (@List.length window)) in Hnil.
    rewrite List.length_map, length_upto in Hnil. simpl in Hnil. lia.
  - split; [|split].
    + intros win Hin. apply List.in_map_iff in Hin as [i [<- Hi]].
      apply In_upto in Hi. unfold window_at. cbn [fst snd]. nia.
    + intros k Hk.
      set (i := Z.min (k / (chunk - stride)) c).
      exists (window_at len (chunk, stride) i). split.
      * apply List.in_map. apply In_upto.
        pose proof (Z.div_pos k (chunk - stride) ltac:(lia) Hstep). lia.
      * unfold window_at. cbn [fst snd].
        pose proof (Z.mul_div_le k (chunk - stride) Hstep).
        pose proof (Z.mul_succ_div_gt k (chunk - stride) Hstep).
        pose proof (Z.div_pos k (chunk - stride) ltac:(lia) Hstep).
        destruct (Z.min_spec (k / (chunk - stride)) c) as [[Hle Hi]|[Hle Hi]];
          fold i in Hi; rewrite Hi; nia.
    + exists (window_at len (chunk, stride) c). split.
      * apply List.in_map. apply In_upto. lia.
      * unfold window_at. cbn [fst snd]. nia.
Qed.

(** X6.  Under the same conditions two consecutive windows share exactly
    the overlap: the earlier one is a full chunk and the later one starts
    [stride] samples before the earlier one ends. *)
Theorem consecutive_windows_overlap (len chunk stride : Z) :
  (0 < chunk - stride)%Z -> (0 <= stride)%Z -> (stride < len)%Z ->
  exists ws,
    windows len (chunk, stride) = Some ws /\
    forall i, (0 <= i)%Z -> (i + 1 < Z.of_nat (List.length ws))%Z ->
      let w1 := List.nth (Z.to_nat i) ws (0, 0)%Z in
      let w2 := List.nth (Z.to_nat (i + 1)) ws (0, 0)%Z in
      (snd w1 - fst w1 = chunk)%Z /\ (fst w2 = snd w1 - stride)%Z.
Proof.
  intros Hstep Hstride Hlen.
  destruct (@windows_positive_step len chunk stride Hstep) as [c [Hws [Hlo Hhi]]].
  assert (Hc : (0 <= c)%Z) by nia.
  exists (List.map (window_at len (chunk, stride)) (upto (c + 1))).
  split; [exact Hws|].
  intros i Hi Hnext. rewrite List.length_map, length_upto in Hnext.
  cbv zeta. rewrite !nth_map_upto by lia.
  unfold window_at. cbn [fst snd]. nia.
Qed.

(** X7.  A window step of zero with audio longer than one chunk gives an
    unbounded number of windows: the loop only ends if the engine throws. *)
Theorem zero_step_never_ends (sample : Type)
        (infer : Transcriber.request sample -> outcome (option JS.jsstring))
        (audioData : list sample) (options : Options) :
  let o := chunkOptions options in
  let len := Z.of_nat (List.length audioData) in
  gt (estimatedDuration len) (inject_Z 120) = false ->
  chunk_length_s o = stride_length_s o ->
  (chunk_length_s o * sampleRate < len)%Z ->
  (forall chunkData, exists t, infer (Transcriber.ChunkRequest chunkData o) = Return t) ->
  Standalone.custom_chunking infer audioData options = None.
Proof.
  intros o len Htier Heq Hlong Hreturns.
  unfold Standalone.custom_chunking. fold o len.
  assert (Hsizes : adjustedSizes len o
                   = ((chunk_length_s o * sampleRate)%Z, (chunk_length_s o * sampleRate)%Z)).
  { unfold adjustedSizes. rewrite Htier, <- Heq. reflexivity. }
  rewrite Hsizes.
  assert (Hw : windows len ((chunk_length_s o * sampleRate)%Z,
                            (chunk_length_s o * sampleRate)%Z) = None).
  { unfold windows, numChunks, ceil_quot. rewrite Z.sub_diag. cbn [Z.eqb].
    destruct (Z.ltb_spec 0 (len - chunk_length_s o * sampleRate)); [reflexivity | lia]. }
  rewrite Hw.
  destruct (window_at len _ 0) as [a b].
  destruct (Hreturns (Normalizer.slice audioData a b)) as [t Ht]. now rewrite Ht.
Qed.

End SegmenterCoverage.

Lemma windows_cover_the_audio_witness :
  exists ws,
    Segmenter.segment 480000 Segmenter.noOptions = Some ws /\
    exists win, List.In win ws /\ (fst win <= 300000 < snd win)%Z.
Proof.
  destruct (@windows_cover_the_audio 480000 320000 80000
              ltac:(lia) ltac:(lia) ltac:(lia)) as [ws [Hws [_ [_ [Hcover _]]]]].
  exists ws. split; [exact Hws|]. apply Hcover. split; [discriminate | reflexivity].
Defined.

Lemma consecutive_windows_overlap_witness :
  exists ws,
    Segmenter.segment 480000 Segmenter.noOptions = Some ws /\
    (fst (List.nth 1 ws (0, 0)%Z) = snd (List.nth 0 ws (0, 0)%Z) - 80000)%Z.
Proof.
  destruct (@consecutive_windows_overlap 480000 320000 80000
              ltac:(lia) ltac:(lia) ltac:(lia)) as [ws [Hws Hover]].
  exists ws. split; [exact Hws|].
  apply (Hover 0%Z); [discriminate|].
  assert (Hlen : List.length ws = 2%nat).
  { assert (Heq : Some ws = Some [(0, 320000); (240000, 480000)]%Z)
      by (rewrite <- Hws; reflexivity).
    injection Heq as ->. reflexivity. }
  rewrite Hlen. reflexivity.
Defined.

Lemma zero_step_never_ends_witness :
  let options := Segmenter.mkOptions (Some 5%Z) (Some 5%Z) None None in
  let infer := fun _ : Transcriber.request nat => Effects.Return (Some (JS.lit "text")) in
  let audioData := List.repeat 0%nat (Z.to_nat 400001) in
  Standalone.custom_chunking infer audioData options = None.
Proof.
  intros options infer audioData.
  apply (@zero_step_never_ends nat infer audioData options).
  - vm_compute. reflexivity.
  - reflexivity.
  - vm_compute. reflexivity.
  - intros chunkData. eexists. reflexivity.
Defined.

(** ** processLongRecording and the stop handler *)

Section LongRecordingMore.
Import JS Sanitizer Effects Normalizer LongRecording.

Variable sample : Type.
Variable nan : sample.
Variable avg : sample -> sample -> sample.
Variable w : World sample.

(** X8.  A recording that fits one window (at most 30 seconds) makes the
    one window [0, totalSamples).  Its bounds, which are sample counts,
    are multiplied by the sample rate once more for the buffer and the
    copy loop: each channel of the buffer [createBuffer] returns for it
    has [totalSamples * sampleRate] frames, the recording's samples
    followed by [NaN] in every further frame. *)
Theorem chunk_buffer_is_padded_recording (rate : positive)
        (channelData : list sample) :
  let totalSamples := Z.of_nat (List.length channelData) in
  let samplesPerChunk := (30 * Zpos rate)%Z in
  (1 <= totalSamples <= samplesPerChunk)%Z ->
  numChunks samplesPerChunk totalSamples = 1%Z /\
  chunk_bounds samplesPerChunk totalSamples 0 = (0, totalSamples)%Z /\
  let chunkData := chunk_channel nan rate channelData 0 totalSamples in
  Z.of_nat (List.length chunkData) = (totalSamples * Zpos rate)%Z /\
  List.firstn (List.length channelData) chunkData = channelData /\
  forall j, (totalSamples <= j < totalSamples * Zpos rate)%Z ->
    at_index nan chunkData j = nan.
Proof.
  intros totalSamples samplesPerChunk Htotal.
  assert (Hn : numChunks samplesPerChunk totalSamples = 1%Z).
  { unfold samplesPerChunk in *.
    change (30 * Zpos rate)%Z with (Zpos (30 * rate)) in *.
    unfold numChunks. rewrite Qceiling_div_pos.
    pose proof (Z.mul_div_le (- totalSamples) (Zpos (30 * rate)) ltac:(lia)).
    pose proof (Z.mul_succ_div_gt (- totalSamples) (Zpos (30 * rate)) ltac:(lia)).
    nia. }
  split; [exact Hn|]. split.
  { unfold chunk_bounds. f_equal. lia. }
  intros chunkData.
  assert (Hlen : Z.of_nat (List.length chunkData) = (totalSamples * Zpos rate)%Z).
  { unfold chunkData, chunk_channel. rewrite List.length_map, length_upto. nia. }
  assert (Hget : forall j, (0 <= j < totalSamples * Zpos rate)%Z ->
            at_index nan chunkData j = at_index nan channelData j).
  { intros j Hj. unfold chunkData, chunk_channel, at_index at 1.
    rewrite nth_map_upto by lia. f_equal; lia. }
  split; [exact Hlen|]. split.
  - apply List.nth_ext with (d := nan) (d' := nan).
    + rewrite List.length_firstn. nia.
    + intros n Hn'. rewrite List.length_firstn in Hn'.
      rewrite List.nth_firstn.
      destruct (Nat.ltb_spec n (List.length channelData)) as [Hlt|Hge]; [|lia].
      specialize (Hget (Z.of_nat n) ltac:(nia)).
      unfold at_index in Hget. now rewrite Nat2Z.id in Hget.
  - intros j Hj. rewrite Hget by lia. unfold at_index.
    apply List.nth_overflow. unfold totalSamples in Hj. lia.
Qed.

Lemma append_line_truthy (st : state) (line : jsstring) :
  truthy line = true -> truthy (value (append_line st line)) = true.
Proof.
  intros Hline. unfold append_line, set_value. cbn [value].
  destruct (value st) as [|c v]; [|reflexivity].
  cbn [truthy List.app]. now destruct line.
Qed.

Lemma whole_attempt_truthy (c : call) (st st' : state) :
  whole_attempt w c st = (st', true) -> truthy (value st') = true.
Proof.
  unfold whole_attempt.
  destruct (transcribe w c) as [[t|]|e]; try discriminate.
  destruct (truthy (cleanWhisperOutput (Some t))) eqn:Ht; [|discriminate].
  intros H. injection H as <-. exact Ht.
Qed.

Lemma whole_attempt_value (c : call) (st st' : state) :
  whole_attempt w c st = (st', false) -> value st' = value st.
Proof.
  unfold whole_attempt.
  destruct (transcribe w c) as [[t|]|e];
    try (intros H; injection H as <-; reflexivity).
  destruct (truthy (cleanWhisperOutput (Some t))); [discriminate|].
  intros H. injection H as <-. reflexivity.
Qed.

Lemma web_audio_path_truthy (st : state) :
  truthy (value (web_audio_path nan avg w st)) = true.
Proof.
  unfold web_audio_path.
  destruct (decoded w) as [audioBuffer|e].
  - destruct (chunk_loop w _ _ _ [] st) as [st1 [full|e]].
    + destruct (truthy full) eqn:Hfull; [exact Hfull|].
      now apply append_line_truthy.
    + now apply append_line_truthy.
  - now apply append_line_truthy.
Qed.

Lemma processLongRecording_trace_lemma (st : state) :
  truthy (value (fst (processLongRecording nan avg w st))) = true.
Proof.
  unfold processLongRecording, fail.
  destruct (blob_size w) as [size|]; [|now apply append_line_truthy].
  destruct (size =? 0)%Z; [now apply append_line_truthy|].
  destruct (negb (transcriber_ready w)); [now apply append_line_truthy|].
  destruct (if negb (Qle_bool (inject_Z 15) (elapsed w))
            then whole_attempt w Direct st else (st, false)) as [st1 done1] eqn:H1.
  destruct done1.
  - destruct (negb (Qle_bool (inject_Z 15) (elapsed w))); [|discriminate].
    now apply whole_attempt_truthy in H1.
  - destruct (metadata w) as [[]|e]; [|now apply append_line_truthy].
    destruct (whole_attempt w Full st1) as [st2 done2] eqn:H2.
    destruct done2.
    + now apply whole_attempt_truthy in H2.
    + apply web_audio_path_truthy.
Qed.

(** X9.  [processLongRecording] never leaves the transcript empty:
    whether it returns or throws, the page shows a text or a bracketed
    note afterwards. *)
Theorem processLongRecording_leaves_a_trace (st : state) :
  truthy (value (fst (processLongRecording nan avg w st))) = true.
Proof. apply processLongRecording_trace_lemma. Qed.

(** X10.  [processLongRecording] throws in four situations only, all of
    them before any chunking: no blob (the read of its size throws a
    [TypeError]), an empty blob, a missing transcriber, or a failure to
    load the recording's metadata.  In each it first appends the line
    "[Error processing recording: ...]" with the error's message to the
    transcript it found. *)
Theorem processLongRecording_throws_early (st st' : state) (e : exn) :
  processLongRecording nan avg w st = (st', Throw e) ->
  ((blob_size w = None /\ e = mkExn TypeError NO_SIZE) \/
   (blob_size w = Some 0%Z /\ e = mkExn PlainError (lit "Empty audio recording")) \/
   (transcriber_ready w = false /\
    e = mkExn PlainError (lit "Transcriber is not properly initialized")) \/
   metadata w = Throw e) /\
  value st'
  = value (append_line st (lit "[Error processing recording: " ++ message e ++ lit "]")).
Proof.
  unfold processLongRecording, fail.
  destruct (blob_size w) as [size|].
  2:{ intros H. injection H as <- <-. split; [now left | reflexivity]. }
  destruct (Z.eqb_spec size 0) as [->|Hsize].
  { intros H. injection H as <- <-. split; [right; now left | reflexivity]. }
  destruct (transcriber_ready w); cbn [negb].
  2:{ intros H. injection H as <- <-.
      split; [right; right; now left | reflexivity]. }
  destruct (if negb (Qle_bool (inject_Z 15) (elapsed w))
            then whole_attempt w Direct st else (st, false)) as [st1 done1] eqn:H1.
  destruct done1; [discriminate|].
  assert (Hv : value st1 = value st).
  { destruct (negb (Qle_bool (inject_Z 15) (elapsed w))).
    - now apply whole_attempt_value in H1.
    - now injection H1 as <-. }
  destruct (metadata w) as [[]|e'].
  - destruct (whole_attempt w Full st1) as [st2 [|]]; discriminate.
  - intros H. injection H as <- <-. split; [right; right; now right|].
    unfold append_line, set_value. cbn [value]. now rewrite Hv.
Qed.

End LongRecordingMore.

Lemma chunk_buffer_is_padded_recording_witness :
  let channelData := [5; 6; 7]%nat in
  let chunkData := LongRecording.chunk_channel 0%nat 16000 channelData 0 3 in
  LongRecording.numChunks 480000 3 = 1%Z /\
  LongRecording.chunk_bounds 480000 3 0 = (0, 3)%Z /\
  Z.of_nat (List.length chunkData) = 48000%Z /\
  List.firstn 3 chunkData = channelData /\
  Normalizer.at_index 0%nat chunkData 47999 = 0%nat.
Proof.
  intros channelData chunkData.
  destruct (@chunk_buffer_is_padded_recording nat 0%nat 16000 channelData)
    as [Hn [Hb [Hlen [Hfirst Hrest]]]].
  - cbn. lia.
  - split; [exact Hn|]. split; [exact Hb|]. split; [exact Hlen|].
    split; [exact Hfirst|]. apply Hrest. cbn. lia.
Defined.

Lemma processLongRecording_throws_early_witness :
  let w := LongRecording.mkWorld (Some 0%Z) true (inject_Z 20)
             (fun _ => Effects.Return (Some (JS.lit "text"))) (Effects.Return tt)
             (Effects.Return (Normalizer.mkBuffer 16000 [[0%nat]]))
             (fun _ => Effects.Return tt) in
  let st := LongRecording.mkState (JS.lit "earlier text") [] in
  let e := Effects.mkExn Effects.PlainError (JS.lit "Empty audio recording") in
  LongRecording.processLongRecording 0%nat Nat.add w st
  = (LongRecording.append_line st (JS.lit "[Error processing recording: Empty audio recording]"),
     Effects.Throw e) /\
  LongRecording.value
    (LongRecording.append_line st
       (JS.lit "[Error processing recording: Empty audio recording]"))
  = JS.lit "earlier text" ++ [10%N]
    ++ JS.lit "[Error processing recording: Empty audio recording]".
Proof.
  intros w st e.
  assert (Hrun : LongRecording.processLongRecording 0%nat Nat.add w st
                 = (LongRecording.append_line st
                      (JS.lit "[Error processing recording: Empty audio recording]"),
                    Effects.Throw e)) by reflexivity.
  split; [exact Hrun|].
  destruct (@processLongRecording_throws_early nat 0%nat Nat.add w st _ e Hrun)
    as [_ Hvalue].
  exact Hvalue.
Defined.

Section RecorderFacts.
Import JS Sanitizer Effects.

Variable sample : Type.
Variable nan : sample.
Variable avg : sample -> sample -> sample.

Lemma controller_append_line_truthy (st : Controller.state) (line : jsstring) :
  truthy line = true ->
  truthy (LongRecording.value (Controller.ui (Controller.append_line st line))) = true.
Proof. intros H. unfold Controller.append_line. cbn. now apply append_line_truthy. Qed.

Lemma show_truthy (st : Controller.state) (r : option jsstring) :
  truthy (LongRecording.value (Controller.ui (Controller.show st r))) = true.
Proof.
  unfold Controller.show. destruct r as [t|].
  - destruct (truthy (trim (cleanWhisperOutput (Some t)))) eqn:Ht.
    + apply controller_append_line_truthy.
      destruct (cleanWhisperOutput (Some t)); [discriminate | reflexivity].
    + now apply controller_append_line_truthy.
  - now apply controller_append_line_truthy.
Qed.

Lemma call_long_truthy (w : Controller.World sample) (st : Controller.state) :
  truthy (LongRecording.value
            (Controller.ui (fst (Controller.call_long nan avg w st)))) = true.
Proof.
  unfold Controller.call_long.
  pose proof (@processLongRecording_trace_lemma sample nan avg (Controller.long w)
                (Controller.ui st)) as H.
  now destruct (LongRecording.processLongRecording nan avg (Controller.long w)
                  (Controller.ui st)) as [ui' r].
Qed.

Lemma processRecording_truthy (w : Controller.World sample) (st : Controller.state) :
  truthy (LongRecording.value
            (Controller.ui (fst (Controller.processRecording nan avg w st)))) = true.
Proof.
  unfold Controller.processRecording.
  destruct (Controller.try_block nan avg w st) as [st1 [[]|error]] eqn:Htry.
  - revert Htry. unfold Controller.try_block.
    destruct (Controller.arrayBuffer w); [|discriminate].
    destruct (negb (Controller.transcriber_is_function w)); [discriminate|].
    destruct (negb (Qle_bool _ (inject_Z 25))).
    + intros H. pose proof (call_long_truthy w (Controller.emit st Controller.LongRecordingRedirect)) as Ht.
      rewrite H in Ht. exact Ht.
    + destruct (Controller.main_result w); [|discriminate].
      intros H.
      match type of H with (?s, _) = _ => replace st1 with s by congruence end.
      apply show_truthy.
  - destruct (Controller.fallback w st1) as [st2 [[]|fallbackError]] eqn:Hfb.
    + revert Hfb. unfold Controller.fallback.
      destruct (_ <- Controller.resolve _ _ ;; _); [|discriminate].
      destruct (Controller.create_pipeline w a); [|discriminate].
      destruct (Controller.temp_result w) as [[t|]|]; try discriminate.
      intros H.
      match type of H with (?s, _) = _ => replace st2 with s by congruence end.
      apply show_truthy.
    + pose proof (call_long_truthy w (Controller.emit st2 Controller.LongRecordingLastResort))
        as Ht.
      now destruct (Controller.call_long nan avg w
                      (Controller.emit st2 Controller.LongRecordingLastResort))
        as [st3 [[]|lastError]].
Qed.

(** X11.  After the stop handler of the recorder has run, the transcript
    is never empty: whichever path is taken and whatever fails, a text or
    a bracketed note has been written. *)
Theorem on_stop_leaves_a_trace (audioChunks : list Z) (stop_now : Q)
        (w : Controller.World sample) (st : Controller.state) :
  truthy (LongRecording.value
            (Controller.ui (Recorder.on_stop nan avg audioChunks stop_now w st))) = true.
Proof.
  unfold Recorder.on_stop.
  destruct audioChunks as [|c rest]; [now apply controller_append_line_truthy|].
  set (w' := Recorder.with_blob _ w).
  destruct (Segmenter.gt _ _ && _)%bool.
  - pose proof (call_long_truthy w' st) as H.
    destruct (Controller.call_long nan avg w' st) as [st1 [[]|e]]; [exact H|].
    now apply controller_append_line_truthy.
  - pose proof (processRecording_truthy w' st) as H.
    destruct (Controller.processRecording nan avg w' st) as [st1 [[]|e]]; [exact H|].
    now apply controller_append_line_truthy.
Qed.

End RecorderFacts.

(** ** The long path of the custom transcriber *)

Section StitchingFacts.
Import JS Sanitizer Effects Normalizer Segmenter Stitcher Transcriber TranscriberSpec.

Lemma tail_shape (s0 : jsstring) :
  let y := trim (remove_first m_punct_end
                   (remove_at_start m_punct
                      (remove_at_start m_lone_period (collapse s0)))) in
  ws_normal y = true /\ starts_outside is_space y = true
  /\ ends_outside is_space y = true.
Proof.
  set (s2 := remove_at_start m_lone_period (collapse s0)).
  set (s3 := remove_at_start m_punct s2).
  set (s4 := remove_first m_punct_end s3).
  assert (H2 : ws_normal s2 = true).
  { subst s2. destruct (remove_at_start_lone_period (collapse s0)) as [-> | ->];
      [apply collapse_ws_normal | reflexivity]. }
  assert (H3 : ws_normal s3 = true).
  { subst s3. rewrite remove_at_start_punct. now apply ws_normal_drop_while. }
  assert (H4 : ws_normal s4 = true).
  { subst s4. unfold m_punct_end.
    destruct (remove_first_to_end_prefix (m_plus is_punct) s3) as [b Hb].
    apply ws_normal_prefix with (b := b). now rewrite <- Hb. }
  cbv zeta. unfold trim, trimStart. repeat split.
  - destruct (trimEnd_prefix (drop_while is_space s4)) as [b Hb].
    apply ws_normal_prefix with (b := b). rewrite <- Hb.
    now apply ws_normal_drop_while.
  - apply trimEnd_starts_outside, drop_while_starts_outside.
  - apply trimEnd_ends_outside.
Qed.

Lemma cleaned_shape (x : option jsstring) :
  ws_normal (cleanWhisperOutput x) = true /\
  starts_outside is_space (cleanWhisperOutput x) = true /\
  ends_outside is_space (cleanWhisperOutput x) = true.
Proof.
  destruct x as [[|c t]|]; try (now repeat split).
  apply (clean_text_shape (c :: t)).
Qed.

Lemma standalone_cleaned_shape (x : option jsstring) :
  ws_normal (Standalone.cleanWhisperOutput x) = true /\
  starts_outside is_space (Standalone.cleanWhisperOutput x) = true /\
  ends_outside is_space (Standalone.cleanWhisperOutput x) = true.
Proof.
  destruct x as [[|c t]|]; try (now repeat split).
  cbn [Standalone.cleanWhisperOutput]. unfold Standalone.clean_text. apply tail_shape.
Qed.

Lemma shape_is_trimmed_single_spaced (y : jsstring) :
  ws_normal y = true -> starts_outside is_space y = true ->
  ends_outside is_space y = true -> trimmed_single_spaced y.
Proof.
  intros Hws Hs He. unfold trimmed_single_spaced.
  split; [now apply trim_fixed|]. split; [now apply collapse_fixed|]. now repeat split.
Qed.

(** X12.  Every cleaned text, of the shared cleaner and of the one in the
    stand-alone script, is trimmed and single-spaced: trimming it or
    collapsing its whitespace again changes nothing, and any white space in
    it is one plain space between two other characters. *)
Theorem cleanWhisperOutput_is_trimmed_and_single_spaced (x : option jsstring) :
  trimmed_single_spaced (cleanWhisperOutput x) /\
  trimmed_single_spaced (Standalone.cleanWhisperOutput x).
Proof.
  split.
  - destruct (cleaned_shape x) as [Hws [Hs He]].
    now apply shape_is_trimmed_single_spaced.
  - destruct (standalone_cleaned_shape x) as [Hws [Hs He]].
    now apply shape_is_trimmed_single_spaced.
Qed.

Lemma join_split_ws (s : jsstring) :
  ws_normal s = true -> join [SPACE] (split_ws s) = s.
Proof.
  induction s as [|c t IH]; [reflexivity|].
  rewrite ws_normal_tail_cases, split_ws_cons. intros H.
  apply andb_true_iff in H as [Hc Ht]. specialize (IH Ht).
  pose proof (split_ws_nonempty t) as Hne.
  destruct (is_space c).
  - apply andb_true_iff in Hc as [Hsp Hout]. apply N.eqb_eq in Hsp. subst c.
    destruct t as [|d t']; [reflexivity|].
    cbn [starts_outside] in Hout. apply negb_true_iff in Hout. rewrite Hout.
    destruct (split_ws (d :: t')) as [|w ws]; [contradiction|].
    change (join [SPACE] ([] :: w :: ws)) with (SPACE :: join [SPACE] (w :: ws)).
    now rewrite IH.
  - destruct (split_ws t) as [|w ws]; [contradiction|].
    destruct ws as [|w' ws'].
    + change (join [SPACE] [c :: w]) with (c :: join [SPACE] [w]). now rewrite IH.
    + change (join [SPACE] ((c :: w) :: w' :: ws'))
        with (c :: join [SPACE] (w :: w' :: ws')).
      now rewrite IH.
Qed.

Lemma ends_outside_snoc (cls : char -> bool) (l : jsstring) (c : char) :
  ends_outside cls (l ++ [c]) = negb (cls c).
Proof.
  induction l as [|x l IH]; [reflexivity|].
  cbn [List.app ends_outside]. destruct (l ++ [c]) eqn:E; [|exact IH].
  now destruct l.
Qed.

Lemma ends_outside_app (cls : char -> bool) (a b : jsstring) :
  b <> [] -> ends_outside cls (a ++ b) = ends_outside cls b.
Proof.
  intros Hb. induction a as [|x a IH]; [reflexivity|].
  cbn [List.app ends_outside]. destruct (a ++ b) eqn:E; [|exact IH].
  apply List.app_eq_nil in E as [_ E]. contradiction.
Qed.

Lemma ends_with_space_outside (s : jsstring) :
  ends_outside is_space s = true -> ends_with_space s = false.
Proof.
  destruct s as [|c l] using List.rev_ind; [reflexivity|].
  rewrite ends_outside_snoc. unfold ends_with_space. rewrite List.rev_app_distr.
  cbn [List.rev List.app]. intros H. apply negb_true_iff in H.
  unfold char_eqb. destruct (N.eqb_spec c SPACE) as [->|]; [discriminate H | reflexivity].
Qed.

Lemma join_snoc (sep : jsstring) (l : list jsstring) (c : jsstring) :
  join sep (l ++ [c])
  = match l with
    | [] => c
    | _ :: _ => join sep l ++ sep ++ c
    end.
Proof.
  induction l as [|w l IH]; [reflexivity|].
  destruct l as [|w' l']; [reflexivity|].
  change (join sep ((w :: w' :: l') ++ [c]))
    with (w ++ sep ++ join sep ((w' :: l') ++ [c])).
  rewrite IH. change (join sep (w :: w' :: l')) with (w ++ sep ++ join sep (w' :: l')).
  now rewrite <- !List.app_assoc.
Qed.

Lemma join_solid (F : list jsstring) :
  List.Forall solid F -> F <> [] ->
  truthy (join [SPACE] F) = true /\ ends_outside is_space (join [SPACE] F) = true.
Proof.
  induction 1 as [|w rest [Hw [_ He]] Hrest IH]; [congruence|]. intros _.
  destruct rest as [|x r]; [now split|].
  destruct (IH ltac:(discriminate)) as [Ht He'].
  change (join [SPACE] (w :: x :: r)) with (w ++ [SPACE] ++ join [SPACE] (x :: r)).
  split.
  - destruct w; [discriminate | reflexivity].
  - rewrite List.app_assoc. rewrite ends_outside_app; [exact He'|].
    intros E. rewrite E in Ht. discriminate.
Qed.

Lemma merge_solid (F : list jsstring) (lastWords : jsSet) (c : jsstring) :
  tracked lastWords -> List.Forall solid F -> solid c ->
  fst (merge_chunk (join [SPACE] F, lastWords) c) = join [SPACE] (F ++ [c]).
Proof.
  intros Ht HF [Hc [Hws He]].
  rewrite merge_chunk_emits_all by assumption.
  rewrite join_split_ws by exact Hws. rewrite join_snoc.
  destruct F as [|w rest]; [reflexivity|].
  destruct (@join_solid (w :: rest) HF ltac:(discriminate)) as [Htr Hends].
  rewrite Htr, (ends_with_space_outside _ Hends). reflexivity.
Qed.

Lemma fold_merge_join (chunks : list jsstring) :
  (forall c, List.In c chunks ->
     ws_normal c = true /\ ends_outside is_space c = true) ->
  forall (F : list jsstring) (lastWords : jsSet),
    tracked lastWords -> List.Forall solid F ->
    fst (List.fold_left merge_chunk chunks (join [SPACE] F, lastWords))
    = join [SPACE] (F ++ List.filter truthy chunks).
Proof.
  induction chunks as [|c rest IH]; intros Hgood F lastWords Ht HF.
  - cbn. now rewrite List.app_nil_r.
  - cbn [List.fold_left List.filter].
    assert (Hrest : forall c', List.In c' rest ->
              ws_normal c' = true /\ ends_outside is_space c' = true).
    { intros c' Hin. apply Hgood. now right. }
    destruct (Hgood c (or_introl eq_refl)) as [Hws He].
    pose proof (@merge_chunk_tracked (join [SPACE] F, lastWords) c Ht) as Ht'.
    destruct (truthy c) eqn:Hc.
    + assert (Hsolid : solid c) by (repeat split; assumption).
      pose proof (@merge_solid F lastWords c Ht HF Hsolid) as Hm.
      destruct (merge_chunk (join [SPACE] F, lastWords) c) as [full' lw'].
      cbn [fst snd] in Hm, Ht'. subst full'.
      rewrite (IH Hrest (F ++ [c]) lw' Ht').
      * now rewrite <- List.app_assoc.
      * apply List.Forall_app. split; [exact HF | now constructor].
    + unfold merge_chunk at 2. rewrite Hc. now apply IH.
Qed.

Lemma stitch_join (chunks : list jsstring) :
  (forall c, List.In c chunks ->
     ws_normal c = true /\ ends_outside is_space c = true) ->
  forall lastWords, tracked lastWords ->
  fst (List.fold_left merge_chunk chunks ([], lastWords))
  = join [SPACE] (List.filter truthy chunks).
Proof.
  intros Hgood lastWords Ht.
  apply (@fold_merge_join chunks Hgood [] lastWords Ht). constructor.
Qed.

Lemma cleaned_chunks_good (outputs : list (option jsstring)) (c : jsstring) :
  List.In c (List.map Standalone.cleanWhisperOutput outputs) ->
  ws_normal c = true /\ ends_outside is_space c = true.
Proof.
  intros Hin. apply List.in_map_iff in Hin as [x [<- _]].
  destruct (standalone_cleaned_shape x) as [Hws [_ He]]. now split.
Qed.

(** X13.  Stitching cleaned window texts is plain concatenation: the
    merged transcript is the non-empty cleaned texts, in order, joined by
    single spaces.  No word of any window is left out. *)
Theorem stitch_joins_the_cleaned_texts (outputs : list (option jsstring)) :
  fst (stitch (List.map Standalone.cleanWhisperOutput outputs))
  = join [SPACE]
      (List.filter truthy (List.map Standalone.cleanWhisperOutput outputs)).
Proof.
  unfold stitch. apply stitch_join; [apply cleaned_chunks_good | constructor].
Qed.

Variable sample : Type.
Variable nan : sample.
Variable infer : request sample -> outcome (option jsstring).

Lemma chunk_loop_returns (audioData : list sample) (o : ChunkOptions)
      (ws : list window) :
  engine_returns infer audioData o ws ->
  forall st,
    Standalone.chunk_loop infer audioData o ws st
    = Return (List.fold_left merge_chunk
                (List.map (window_text infer audioData o) ws) st).
Proof.
  induction ws as [|[a b] rest IH]; intros Hret st; [reflexivity|].
  cbn [Standalone.chunk_loop List.map List.fold_left].
  destruct (Hret (a, b) (or_introl eq_refl)) as [t Ht]. cbn [fst snd] in Ht.
  assert (Hw : window_text infer audioData o (a, b) = Standalone.cleanWhisperOutput t).
  { unfold window_text. cbn [fst snd]. now rewrite Ht. }
  rewrite Ht, Hw. cbn [bind].
  apply IH. intros win Hin. apply Hret. now right.
Qed.

Lemma window_texts_good (audioData : list sample) (o : ChunkOptions)
      (ws : list window) (c : jsstring) :
  List.In c (List.map (window_text infer audioData o) ws) ->
  ws_normal c = true /\ ends_outside is_space c = true.
Proof.
  intros Hin. apply List.in_map_iff in Hin as [win [<- _]]. unfold window_text.
  destruct (infer _) as [t|e]; [|now split].
  destruct (standalone_cleaned_shape t) as [Hws [_ He]]. now split.
Qed.

Lemma windows_nonzero_step (len chunk stride : Z) :
  chunk <> stride -> exists ws, windows len (chunk, stride) = Some ws.
Proof.
  intros Hstep. unfold windows, numChunks, ceil_quot.
  destruct (Z.eqb_spec (chunk - stride) 0) as [H0|_]; [lia|].
  eexists. reflexivity.
Qed.

(** X14.  Audio longer than 25 seconds, cut with a window step that is
    not zero (the chunk length differs from the stride, as with the
    default options and in the long tier), on which the engine returns
    for every window: the call returns, and its text is the cleaned texts
    of the windows, the empty ones left out, joined by single spaces, or
    "[Empty transcription]" when nothing is left. *)
Theorem transcriber_long_audio_text (audioBuffer : AudioBuffer sample)
        (options : Options) :
  let audioData := processAudioBlob nan audioBuffer in
  let len := Z.of_nat (List.length audioData) in
  let o := chunkOptions options in
  gt (estimatedDuration len) (inject_Z 25) = true ->
  fst (adjustedSizes len o) <> snd (adjustedSizes len o) ->
  (forall ws, segment len options = Some ws -> engine_returns infer audioData o ws) ->
  exists ws,
    segment len options = Some ws /\
    Standalone.transcriber nan infer (Return audioBuffer) true options
    = Some (Return (or_else
                      (join [SPACE]
                         (List.filter truthy
                            (List.map (window_text infer audioData o) ws)))
                      EMPTY)).
Proof.
  intros audioData len o Hlong Hstep Hret.
  assert (Hseg : exists ws, segment len options = Some ws).
  { unfold segment. fold o. destruct (adjustedSizes len o) as [chunk stride].
    now apply windows_nonzero_step. }
  destruct Hseg as [ws Hseg]. specialize (Hret ws Hseg).
  exists ws. split; [exact Hseg|].
  unfold Standalone.transcriber. fold audioData. fold len. cbn [negb]. rewrite Hlong.
  unfold Standalone.custom_chunking. fold len. fold o.
  unfold segment in Hseg. fold o in Hseg. rewrite Hseg.
  rewrite (chunk_loop_returns Hret). cbn [bind].
  rewrite stitch_join; [reflexivity | apply window_texts_good | constructor].
Qed.

Lemma standalone_chunk_loop_aborts (audioData : list sample) (o : ChunkOptions)
      (ws : list window) (st : jsstring * Stitcher.jsSet)
      (startSample endSample : Z) (e : exn) :
  List.In (startSample, endSample) ws ->
  infer (ChunkRequest (slice audioData startSample endSample) o) = Throw e ->
  exists e', Standalone.chunk_loop infer audioData o ws st = Throw e'.
Proof.
  revert st. induction ws as [|[a b] rest IH]; intros st Hin Hthrow; [destruct Hin|].
  cbn [Standalone.chunk_loop]. destruct Hin as [Heq|Hin].
  - injection Heq as -> ->. rewrite Hthrow. now exists e.
  - destruct (infer (ChunkRequest (slice audioData a b) o)) as [t|e1].
    + now apply IH.
    + now exists e1.
Qed.

(** X15.  The long path of the transcriber is all or nothing: when the
    engine throws on any one window, the call throws and none of the text
    of the other windows is returned. *)
Theorem transcriber_long_audio_all_or_nothing (audioBuffer : AudioBuffer sample)
        (options : Options) (ws : list window) (win : window) (e : exn) :
  let audioData := processAudioBlob nan audioBuffer in
  let len := Z.of_nat (List.length audioData) in
  let o := chunkOptions options in
  gt (estimatedDuration len) (inject_Z 25) = true ->
  segment len options = Some ws ->
  List.In win ws ->
  infer (ChunkRequest (slice audioData (fst win) (snd win)) o) = Throw e ->
  exists e', Standalone.transcriber nan infer (Return audioBuffer) true options = Some (Throw e').
Proof.
  intros audioData len o Hlong Hseg Hin Hthrow.
  unfold Standalone.transcriber. fold audioData. fold len. cbn [negb]. rewrite Hlong.
  unfold Standalone.custom_chunking. fold len. fold o.
  unfold segment in Hseg. fold o in Hseg. rewrite Hseg.
  destruct win as [a b]. cbn [fst snd] in Hthrow.
  destruct (@standalone_chunk_loop_aborts audioData o ws ([], []) a b e Hin Hthrow)
    as [e' He'].
  exists e'. now rewrite He'.
Qed.

Lemma or_else_truthy (a b : jsstring) : truthy b = true -> truthy (or_else a b) = true.
Proof. intros Hb. unfold or_else. now destruct (truthy a) eqn:Ha. Qed.

(** X16.  Whatever the transcriber returns, it is not the empty string:
    an empty result is replaced by "[Empty transcription]" on both
    paths. *)
Theorem transcriber_text_is_never_empty (decoded : outcome (AudioBuffer sample))
        (processor : bool) (options : Options) (text : jsstring) :
  Standalone.transcriber nan infer decoded processor options = Some (Return text) ->
  truthy text = true.
Proof.
  unfold Standalone.transcriber. destruct decoded as [audioBuffer|e]; [|discriminate].
  destruct (negb processor); [discriminate|].
  destruct (gt _ _).
  - unfold Standalone.custom_chunking. destruct (windows _ _) as [ws|].
    + destruct (Standalone.chunk_loop infer _ _ ws ([], [])) as [st|e]; [|discriminate].
      cbn [bind]. intros H. assert (text = or_else (fst st) EMPTY) by congruence.
      subst text. now apply or_else_truthy.
    + destruct (window_at _ _ 0) as [a b]. destruct (infer _); discriminate.
  - unfold Standalone.standard_approach. destruct (infer _) as [t|e]; [|discriminate].
    cbn [bind]. intros H.
    assert (text = or_else (Standalone.cleanWhisperOutput t) EMPTY) by congruence.
    subst text. now apply or_else_truthy.
Qed.

End StitchingFacts.

Lemma transcriber_long_audio_text_witness :
  let audioBuffer := Normalizer.mkBuffer 16000 [List.repeat 0%nat (Z.to_nat 400001)] in
  let infer := fun _ : Transcriber.request nat => Effects.Return (Some (JS.lit " hello. ")) in
  Segmenter.segment 400001 Segmenter.noOptions = Some [(0, 320000); (240000, 400001)]%Z /\
  Standalone.transcriber 0%nat infer (Effects.Return audioBuffer) true Segmenter.noOptions
  = Some (Effects.Return (JS.lit "hello. hello.")).
Proof.
  intros audioBuffer infer.
  assert (Hlong : Segmenter.gt
            (Segmenter.estimatedDuration
               (Z.of_nat (List.length (Normalizer.processAudioBlob 0%nat audioBuffer))))
            (inject_Z 25) = true) by (vm_compute; reflexivity).
  assert (Hseg : Segmenter.segment
            (Z.of_nat (List.length (Normalizer.processAudioBlob 0%nat audioBuffer)))
            Segmenter.noOptions
          = Some [(0, 320000); (240000, 400001)]%Z) by (vm_compute; reflexivity).
  assert (Hstep : fst (Segmenter.adjustedSizes
                         (Z.of_nat (List.length
                                      (Normalizer.processAudioBlob 0%nat audioBuffer)))
                         (Segmenter.chunkOptions Segmenter.noOptions))
                  <> snd (Segmenter.adjustedSizes
                            (Z.of_nat (List.length
                                         (Normalizer.processAudioBlob 0%nat audioBuffer)))
                            (Segmenter.chunkOptions Segmenter.noOptions)))
    by (vm_compute; discriminate).
  assert (Hret : forall ws,
            Segmenter.segment
              (Z.of_nat (List.length (Normalizer.processAudioBlob 0%nat audioBuffer)))
              Segmenter.noOptions = Some ws ->
            TranscriberSpec.engine_returns infer
              (Normalizer.processAudioBlob 0%nat audioBuffer)
              (Segmenter.chunkOptions Segmenter.noOptions) ws).
  { intros ws _ win _. now exists (Some (JS.lit " hello. ")). }
  destruct (@transcriber_long_audio_text nat 0%nat infer audioBuffer Segmenter.noOptions
              Hlong Hstep Hret) as [ws [Hws Hrun]].
  split; [vm_compute; reflexivity|].
  rewrite Hrun.
  assert (Hws' : ws = [(0, 320000); (240000, 400001)]%Z) by congruence.
  rewrite Hws'. vm_compute. reflexivity.
Defined.

Lemma transcriber_long_audio_all_or_nothing_witness :
  let audioBuffer := Normalizer.mkBuffer 16000 [List.repeat 0%nat (Z.to_nat 400001)] in
  let infer := fun r : Transcriber.request nat =>
    match r with
    | Transcriber.ChunkRequest chunkData _ =>
        if (Z.of_nat (List.length chunkData) =? 320000)%Z
        then Effects.Return (Some (JS.lit "hello"))
        else Effects.Throw (Effects.mkExn Effects.PlainError (JS.lit "out of memory"))
    | Transcriber.WholeRequest _ => Effects.Return None
    end in
  exists e',
    Standalone.transcriber 0%nat infer (Effects.Return audioBuffer) true Segmenter.noOptions
    = Some (Effects.Throw e').
Proof.
  intros audioBuffer infer.
  assert (Hlong : Segmenter.gt
            (Segmenter.estimatedDuration
               (Z.of_nat (List.length (Normalizer.processAudioBlob 0%nat audioBuffer))))
            (inject_Z 25) = true) by (vm_compute; reflexivity).
  assert (Hseg : Segmenter.segment
            (Z.of_nat (List.length (Normalizer.processAudioBlob 0%nat audioBuffer)))
            Segmenter.noOptions
          = Some [(0, 320000); (240000, 400001)]%Z) by (vm_compute; reflexivity).
  assert (Hthrow : infer (Transcriber.ChunkRequest
                     (Normalizer.slice (Normalizer.processAudioBlob 0%nat audioBuffer)
                        240000 400001)
                     (Segmenter.chunkOptions Segmenter.noOptions))
                   = Effects.Throw (Effects.mkExn Effects.PlainError (JS.lit "out of memory")))
    by (vm_compute; reflexivity).
  exact (@transcriber_long_audio_all_or_nothing nat 0%nat infer audioBuffer
           Segmenter.noOptions _ (240000, 400001)%Z _ Hlong Hseg
           (or_intror (or_introl eq_refl)) Hthrow).
Defined.

Lemma transcriber_text_is_never_empty_witness :
  JS.truthy Transcriber.EMPTY = true.
Proof.
  apply (@transcriber_text_is_never_empty nat 0%nat
           (fun _ => Effects.Return None)
           (Effects.Return (Normalizer.mkBuffer 16000 [[0%nat]])) true
           Segmenter.noOptions Transcriber.EMPTY).
  reflexivity.
Defined.

(** ** The shared Whisper transcriber *)

Section SharedFacts.
Import JS Sanitizer Effects Normalizer.

Variable sample : Type.
Variable nan : sample.
Variable avg : sample -> sample -> sample.

Lemma decoded_text_returns (sw : Shared.World sample) :
  exists r, Shared.decoded_text sw = Return r.
Proof.
  unfold Shared.decoded_text, Shared.try_catch.
  destruct (_ <- Shared.extract sw ;; _) as [r|e]; [now exists r|].
  destruct (Shared.output_is_nonempty_array sw); eexists; reflexivity.
Qed.

Lemma text_or_truthy (r : option jsstring) (fallback : jsstring) :
  truthy fallback = true -> truthy (Shared.text_or r fallback) = true.
Proof.
  intros Hf. unfold Shared.text_or, or_else.
  destruct r as [s|]; [|exact Hf]. now destruct (truthy s) eqn:Hs.
Qed.

Lemma shared_transcriber_returns (sw : Shared.World sample) :
  exists r, Shared.transcriber nan sw = Return r /\ truthy (Shared.text r) = true.
Proof.
  unfold Shared.transcriber, Shared.try_catch.
  destruct (Shared.arrayBuffer sw) as [[]|e]; cbn [bind];
    [|eexists; split; reflexivity].
  destruct (Shared.audioData nan sw) as [data|e]; cbn [bind];
    [|eexists; split; reflexivity].
  destruct (Shared.processor_loaded sw); cbn [negb];
    [|eexists; split; reflexivity].
  destruct (Shared.run_model sw data) as [[]|e]; cbn [bind];
    [|eexists; split; reflexivity].
  destruct (decoded_text_returns sw) as [r ->]. cbn [bind].
  eexists. split; [reflexivity|]. cbn [Shared.text]. now apply text_or_truthy.
Qed.

(** X17.  The shared transcriber never throws, and the text of its result
    is never empty: every failure inside it comes back as a bracketed
    text. *)
Theorem shared_transcriber_never_throws (sw : Shared.World sample) :
  exists r, Shared.transcriber nan sw = Return r /\ truthy (Shared.text r) = true.
Proof. apply shared_transcriber_returns. Qed.

(** X18.  The result of the shared transcriber carries no [error] field
    exactly when the recording could be read, the processor is loaded and
    the model ran: a failure to decode the model's output is never
    reported as an error. *)
Theorem shared_transcriber_error_field (sw : Shared.World sample) (r : Shared.result) :
  Shared.transcriber nan sw = Return r ->
  (Shared.error r = None <->
   Shared.arrayBuffer sw = Return tt /\
   Shared.processor_loaded sw = true /\
   exists data, Shared.audioData nan sw = Return data /\
                Shared.run_model sw data = Return tt).
Proof.
  unfold Shared.transcriber, Shared.try_catch.
  destruct (Shared.arrayBuffer sw) as [[]|e]; cbn [bind].
  2:{ intros H. assert (Shared.error r = Some e) as -> by (injection H as <-; reflexivity).
      split; [discriminate | intros [Hc _]; discriminate]. }
  destruct (Shared.audioData nan sw) as [data|e]; cbn [bind].
  2:{ intros H. assert (Shared.error r = Some e) as -> by (injection H as <-; reflexivity).
      split; [discriminate | intros [_ [_ [d [Hc _]]]]; discriminate]. }
  destruct (Shared.processor_loaded sw); cbn [negb].
  2:{ intros H.
      match type of H with Return (Shared.mkResult _ (Some ?x)) = _ =>
        assert (Shared.error r = Some x) as -> by (injection H as <-; reflexivity) end.
      split; [discriminate | intros [_ [Hc _]]; discriminate]. }
  destruct (Shared.run_model sw data) as [[]|e] eqn:Hrun; cbn [bind].
  2:{ intros H. assert (Shared.error r = Some e) as -> by (injection H as <-; reflexivity).
      split; [discriminate|]. intros [_ [_ [d [Hd Hc]]]].
      assert (d = data) by congruence. subst d. congruence. }
  destruct (decoded_text_returns sw) as [t ->]. cbn [bind].
  intros H. assert (Shared.error r = None) as -> by (injection H as <-; reflexivity).
  split; [|reflexivity]. intros _. repeat split. now exists data.
Qed.

(** X19.  With the shared Whisper transcriber as the main method, a
    recording of at most 25 seconds never reaches the fallbacks of
    [processRecording]: the function returns after the one call, whatever
    happened inside the transcriber, and shows its (never empty) text. *)
Theorem whisper_main_method_never_falls_back
        (w : Controller.World sample) (sw : Shared.World sample)
        (st : Controller.state) :
  Controller.arrayBuffer w = Return tt ->
  Controller.transcriber_is_function w = true ->
  Qle_bool ((Controller.now w - Controller.recordingStartTime w) / inject_Z 1000)
           (inject_Z 25) = true ->
  Controller.main_result w = Shared.as_main_result nan sw ->
  exists r,
    Shared.transcriber nan sw = Return r /\ truthy (Shared.text r) = true /\
    Controller.processRecording nan avg w st
    = (Controller.show (Controller.emit st Controller.MainTranscriber)
         (Some (Shared.text r)),
       Return tt).
Proof.
  intros Hbuf Hfun Hshort Hmain.
  destruct (shared_transcriber_returns sw) as [r [Hr Htext]].
  exists r. split; [exact Hr|]. split; [exact Htext|].
  unfold Controller.processRecording, Controller.try_block.
  rewrite Hbuf, Hfun. cbn [negb]. rewrite Hshort. cbn [negb].
  rewrite Hmain. unfold Shared.as_main_result. rewrite Hr. cbn [bind].
  now rewrite Htext.
Qed.

(** *** The stop handler of the recorder *)

Lemma processLongRecording_throw_value (lw : LongRecording.World sample)
      (st st' : LongRecording.state) (e : exn) :
  LongRecording.processLongRecording nan avg lw st = (st', Throw e) ->
  LongRecording.value st'
  = LongRecording.value
      (LongRecording.append_line st
         (lit "[Error processing recording: " ++ message e ++ lit "]")).
Proof.
  unfold LongRecording.processLongRecording, LongRecording.fail.
  destruct (LongRecording.blob_size lw) as [size|].
  2:{ intros H. injection H as <- <-. reflexivity. }
  destruct (size =? 0)%Z.
  { intros H. injection H as <- <-. reflexivity. }
  destruct (LongRecording.transcriber_ready lw); cbn [negb].
  2:{ intros H. injection H as <- <-. reflexivity. }
  destruct (if negb (Qle_bool (inject_Z 15) (LongRecording.elapsed lw))
            then LongRecording.whole_attempt lw LongRecording.Direct st
            else (st, false)) as [st1 done1] eqn:H1.
  destruct done1; [discriminate|].
  assert (Hv : LongRecording.value st1 = LongRecording.value st).
  { destruct (negb (Qle_bool (inject_Z 15) (LongRecording.elapsed lw))).
    - now apply whole_attempt_value in H1.
    - now injection H1 as <-. }
  destruct (LongRecording.metadata lw) as [[]|e'].
  - destruct (LongRecording.whole_attempt lw LongRecording.Full st1) as [st2 [|]];
      discriminate.
  - intros H. injection H as <- <-.
    unfold LongRecording.append_line, LongRecording.set_value.
    cbn [LongRecording.value]. now rewrite Hv.
Qed.

Lemma append_line_value_congr (st1 st2 : LongRecording.state) (line : jsstring) :
  LongRecording.value st1 = LongRecording.value st2 ->
  LongRecording.value (LongRecording.append_line st1 line)
  = LongRecording.value (LongRecording.append_line st2 line).
Proof.
  intros H. unfold LongRecording.append_line, LongRecording.set_value.
  cbn [LongRecording.value]. now rewrite H.
Qed.

(** X20.  When [processLongRecording] throws under the stop handler, the
    failure is written to the transcript twice: once by
    [processLongRecording] as "[Error processing recording: ...]" and once
    more by the stop handler as "[Transcription error: ...]". *)
Theorem stop_handler_reports_a_long_failure_twice
        (audioChunks : list Z) (stop_now : Q) (w : Controller.World sample)
        (st : Controller.state) (ui' : LongRecording.state) (e : exn) :
  let size := Recorder.blob_size_of audioChunks in
  audioChunks <> [] ->
  Segmenter.gt ((stop_now - Controller.recordingStartTime w) / inject_Z 1000)
               (inject_Z 10) = true ->
  (50000 < size)%Z ->
  LongRecording.processLongRecording nan avg
    (Controller.long (Recorder.with_blob size w)) (Controller.ui st) = (ui', Throw e) ->
  LongRecording.value (Controller.ui (Recorder.on_stop nan avg audioChunks stop_now w st))
  = LongRecording.value
      (LongRecording.append_line
         (LongRecording.append_line (Controller.ui st)
            (lit "[Error processing recording: " ++ message e ++ lit "]"))
         (lit "[Transcription error: " ++ message e ++ lit "]")).
Proof.
  intros size Hne Hdur Hsize Hthrow.
  unfold Recorder.on_stop. destruct audioChunks as [|c rest]; [congruence|].
  fold size. cbn [Controller.recordingStartTime Recorder.with_blob]. rewrite Hdur.
  apply Z.ltb_lt in Hsize. rewrite Hsize. cbn [andb].
  unfold Controller.call_long. rewrite Hthrow.
  apply processLongRecording_throw_value in Hthrow.
  unfold Controller.append_line. cbn [Controller.ui].
  now apply append_line_value_congr.
Qed.

(** X21.  A recording the stop handler takes for long (more than 10
    seconds, more than 50000 bytes) but [processLongRecording] for short
    (less than 15 seconds): when the one direct call of the transcriber
    gives a text that does not clean to nothing, that cleaned text
    replaces everything the transcript held before. *)
Theorem stop_handler_replaces_the_transcript
        (audioChunks : list Z) (stop_now : Q) (w : Controller.World sample)
        (st : Controller.state) (t : jsstring) :
  let size := Recorder.blob_size_of audioChunks in
  let lw := Controller.long w in
  audioChunks <> [] ->
  Segmenter.gt ((stop_now - Controller.recordingStartTime w) / inject_Z 1000)
               (inject_Z 10) = true ->
  (50000 < size)%Z ->
  LongRecording.transcriber_ready lw = true ->
  Qle_bool (inject_Z 15) (LongRecording.elapsed lw) = false ->
  LongRecording.transcribe lw LongRecording.Direct = Return (Some t) ->
  truthy (cleanWhisperOutput (Some t)) = true ->
  Controller.ui (Recorder.on_stop nan avg audioChunks stop_now w st)
  = LongRecording.mkState (cleanWhisperOutput (Some t))
      (LongRecording.calls (Controller.ui st) ++ [LongRecording.Direct]).
Proof.
  intros size lw Hne Hdur Hsize Hready Hshort Hdirect Hclean.
  unfold Recorder.on_stop. destruct audioChunks as [|c rest]; [congruence|].
  fold size. cbn [Controller.recordingStartTime Recorder.with_blob]. rewrite Hdur.
  assert (Hsz : (50000 <? size)%Z = true) by now apply Z.ltb_lt.
  rewrite Hsz. cbn [andb].
  unfold Controller.call_long, LongRecording.processLongRecording.
  cbn [Controller.long Recorder.with_blob LongRecording.blob_size
       LongRecording.transcriber_ready LongRecording.elapsed].
  fold lw. rewrite Hready, Hshort.
  destruct (Z.eqb_spec size 0) as [H0|_]; [lia|]. cbn [negb].
  unfold LongRecording.whole_attempt. cbn [LongRecording.transcribe].
  fold lw. rewrite Hdirect, Hclean. reflexivity.
Qed.

End SharedFacts.

Lemma shared_transcriber_error_field_witness :
  let sw := Shared.mkWorld (Effects.Return tt) (Effects.Return [0%nat])
              (Effects.Return (Normalizer.mkBuffer 16000 [[0%nat]])) (Effects.Return tt)
              true (fun _ => Effects.Return tt) (fun _ => true)
              (Effects.Throw (Effects.mkExn Effects.TypeError (JS.lit "no output")))
              (fun _ => Effects.Return None) (Effects.Return (JS.lit "[]")) false in
  let r := Shared.mkResult
             (JS.lit "[No transcription available due to decoding error]") None in
  Shared.transcriber 0%nat sw = Effects.Return r /\
  (Shared.error r = None <->
   Shared.arrayBuffer sw = Effects.Return tt /\
   Shared.processor_loaded sw = true /\
   exists data, Shared.audioData 0%nat sw = Effects.Return data /\
                Shared.run_model sw data = Effects.Return tt).
Proof.
  intros sw r. split; [reflexivity|].
  apply (@shared_transcriber_error_field nat 0%nat sw r). reflexivity.
Defined.

Lemma whisper_main_method_never_falls_back_witness :
  let sw := Shared.mkWorld (Effects.Return tt)
              (Effects.Throw (Effects.mkExn Effects.PlainError (JS.lit "bad audio")))
              (Effects.Throw (Effects.mkExn Effects.PlainError (JS.lit "cannot decode")))
              (Effects.Return tt)
              true (fun _ => Effects.Return tt) (fun _ => true)
              (Effects.Return tt)
              (fun _ => Effects.Return None) (Effects.Return (JS.lit "[]")) false in
  let w := Controller.mkWorld (Controller.globals Controller.failing_world)
             (inject_Z 1000) (inject_Z 11000) (Effects.Return tt) true
             (Shared.as_main_result 0%nat sw)
             (Controller.create_pipeline Controller.failing_world)
             (Controller.temp_result Controller.failing_world)
             (Controller.long Controller.failing_world) in
  exists r,
    Shared.transcriber 0%nat sw = Effects.Return r /\ JS.truthy (Shared.text r) = true /\
    Controller.processRecording 0%nat Nat.add w Controller.initial
    = (Controller.show (Controller.emit Controller.initial Controller.MainTranscriber)
         (Some (Shared.text r)),
       Effects.Return tt).
Proof.
  intros sw w.
  apply (@whisper_main_method_never_falls_back nat 0%nat Nat.add w sw Controller.initial);
    reflexivity.
Defined.

Lemma stop_handler_reports_a_long_failure_twice_witness :
  let lw := LongRecording.mkWorld None false (inject_Z 20)
              (fun _ => Effects.Return None) (Effects.Return tt)
              (Effects.Return (Normalizer.mkBuffer 16000 [[0%nat]]))
              (fun _ => Effects.Return tt) in
  let w := Controller.mkWorld (Controller.globals Controller.failing_world)
             (inject_Z 1000) (inject_Z 21000) (Effects.Return tt) false
             (Effects.Return None)
             (Controller.create_pipeline Controller.failing_world)
             (Controller.temp_result Controller.failing_world) lw in
  LongRecording.value
    (Controller.ui (Recorder.on_stop 0%nat Nat.add [30000; 30000]%Z (inject_Z 21000) w
                      Controller.initial))
  = LongRecording.value
      (LongRecording.append_line
         (LongRecording.append_line (Controller.ui Controller.initial)
            (JS.lit "[Error processing recording: Transcriber is not properly initialized]"))
         (JS.lit "[Transcription error: Transcriber is not properly initialized]")).
Proof.
  intros lw w.
  refine (@stop_handler_reports_a_long_failure_twice nat 0%nat Nat.add
            [30000; 30000]%Z (inject_Z 21000) w Controller.initial
            (LongRecording.append_line (Controller.ui Controller.initial)
               (JS.lit "[Error processing recording: Transcriber is not properly initialized]"))
            (Effects.mkExn Effects.PlainError
               (JS.lit "Transcriber is not properly initialized")) _ _ _ _).
  - discriminate.
  - reflexivity.
  - reflexivity.
  - reflexivity.
Defined.

Lemma stop_handler_replaces_the_transcript_witness :
  let lw := LongRecording.mkWorld None true (inject_Z 12)
              (fun _ => Effects.Return (Some (JS.lit " second take ")))
              (Effects.Return tt)
              (Effects.Return (Normalizer.mkBuffer 16000 [[0%nat]]))
              (fun _ => Effects.Return tt) in
  let w := Controller.mkWorld (Controller.globals Controller.failing_world)
             (inject_Z 1000) (inject_Z 13000) (Effects.Return tt) true
             (Effects.Return None)
             (Controller.create_pipeline Controller.failing_world)
             (Controller.temp_result Controller.failing_world) lw in
  let st := Controller.mkState (LongRecording.mkState (JS.lit "first take") []) [] in
  Controller.ui (Recorder.on_stop 0%nat Nat.add [30000; 30000]%Z (inject_Z 13000) w st)
  = LongRecording.mkState (JS.lit "second take") [LongRecording.Direct].
Proof.
  intros lw w st.
  refine (@stop_handler_replaces_the_transcript nat 0%nat Nat.add
            [30000; 30000]%Z (inject_Z 13000) w st (JS.lit " second take ") _ _ _ _ _ _ _).
  - discriminate.
  - reflexivity.
  - reflexivity.
  - reflexivity.
  - reflexivity.
  - reflexivity.
  - reflexivity.
Defined.

(** ** The transcription history *)

Section HistoryFacts.
Import JS History.

Lemma Forall_firstn (A : Type) (P : A -> Prop) (n : nat) (l : list A) :
  List.Forall P l -> List.Forall P (List.firstn n l).
Proof.
  intros H. rewrite <- (List.firstn_skipn n l) in H.
  now apply List.Forall_app in H.
Qed.

Lemma Forall_filter (A : Type) (P : A -> Prop) (f : A -> bool) (l : list A) :
  List.Forall P l -> List.Forall P (List.filter f l).
Proof.
  rewrite !List.Forall_forall. intros H x Hx. apply List.filter_In in Hx. now apply H.
Qed.

(** What a call of [saveToHistory] does to the storage: nothing, or the
    new entry goes in front and the list is cut. *)
Lemma saveToHistory_cases (get_ok set_ok : bool) (now : Z) (iso : jsstring)
      (t : option jsstring) (m : jsstring) (st : storage) :
  saveToHistory get_ok set_ok now iso t m st = st \/
  exists s,
    t = Some s /\ is_blank (Some s) = false /\
    let history := mkEntry now s m iso (make_preview s) :: stored st in
    saveToHistory get_ok set_ok now iso t m st
    = Some (List.firstn (if Nat.ltb 50 (List.length history)
                         then Nat.pred (List.length history)
                         else List.length history) history).
Proof.
  unfold saveToHistory. destruct t as [s|]; [|now left].
  destruct (is_blank (Some s)) eqn:Hb; [now left|].
  destruct get_ok; cbn [negb]; [|now left].
  destruct set_ok; [|now left].
  right. exists s. split; [reflexivity|]. split; [exact Hb|].
  cbv zeta. destruct (Nat.ltb 50 _).
  - now rewrite List.removelast_firstn_len.
  - now rewrite List.firstn_all.
Qed.

(** X22.  The history never grows beyond 50 entries: a storage within the
    bound stays within it under every message to the background and under
    deleting and clearing. *)
Theorem history_stays_within_50 (get_ok set_ok confirmed : bool) (now : Z)
        (iso : jsstring) (msg : message) (current : option entry) (st : storage) :
  (List.length (stored st) <= 50)%nat ->
  (List.length (stored (snd (onMessage get_ok set_ok now iso msg st))) <= 50)%nat /\
  (List.length (stored (deleteHistoryItem get_ok set_ok current st)) <= 50)%nat /\
  (List.length (stored (clearHistory confirmed set_ok st)) <= 50)%nat.
Proof.
  intros Hst. split; [|split].
  - destruct msg as [|m|t m|]; cbn [onMessage snd]; try exact Hst.
    destruct (saveToHistory_cases get_ok set_ok now iso t m st) as [-> | [s [_ [_ ->]]]];
      [exact Hst|].
    cbn [stored]. rewrite List.length_firstn. cbn [List.length].
    destruct (Nat.ltb_spec 50 (S (List.length (stored st)))); lia.
  - unfold deleteHistoryItem. destruct current as [c|]; [|exact Hst].
    destruct get_ok; cbn [negb]; [|exact Hst]. destruct set_ok; [|exact Hst].
    cbn [stored]. etransitivity; [apply List.filter_length_le | exact Hst].
  - unfold clearHistory. destruct (confirmed && set_ok)%bool; [cbn; lia | exact Hst].
Qed.

Lemma saveToHistory_front (now : Z) (iso s m : jsstring) (st : storage) :
  is_blank (Some s) = false ->
  (List.length (stored st) <= 50)%nat ->
  saveToHistory true true now iso (Some s) m st
  = Some (List.firstn 50 (mkEntry now s m iso (make_preview s) :: stored st)).
Proof.
  intros Hb Hlen.
  unfold saveToHistory. rewrite Hb. cbn [negb]. cbv zeta. f_equal.
  destruct (Nat.ltb_spec 50 (List.length (mkEntry now s m iso (make_preview s)
                                            :: stored st))) as [Hfull|Hroom].
  - rewrite List.removelast_firstn_len. f_equal. cbn [List.length] in *. lia.
  - now rewrite List.firstn_all2.
Qed.

(** X23.  A transcription that is saved goes to the front of the history;
    the earlier entries keep their order behind it and only the first 50
    of the whole are kept, so the oldest entry of a full history is
    dropped.  The preview of the new entry has at most 103 characters. *)
Theorem saved_entry_is_newest (now : Z) (iso s m : jsstring) (st : storage) :
  is_blank (Some s) = false ->
  (List.length (stored st) <= 50)%nat ->
  saveToHistory true true now iso (Some s) m st
  = Some (List.firstn 50 (mkEntry now s m iso (make_preview s) :: stored st)) /\
  (List.length (make_preview s) <= 103)%nat /\
  List.firstn 100 (make_preview s) = List.firstn 100 s.
Proof.
  intros Hb Hlen. split; [|split].
  - now apply saveToHistory_front.
  - unfold make_preview. rewrite List.length_app, List.length_firstn.
    pose proof (Nat.le_min_l 100 (List.length s)) as Hmin.
    destruct (Nat.ltb 100 (List.length s)).
    + change (List.length (lit "...")) with 3%nat. lia.
    + change (List.length (@nil char)) with 0%nat. lia.
  - unfold make_preview. destruct (Nat.ltb_spec 100 (List.length s)).
    + rewrite List.firstn_app, List.firstn_firstn, List.length_firstn.
      replace (100 - Nat.min 100 (List.length s))%nat with 0%nat by lia.
      rewrite List.firstn_O, List.app_nil_r. now rewrite Nat.min_id.
    + rewrite List.app_nil_r, List.firstn_firstn. now rewrite Nat.min_id.
Qed.

Lemma filter_all (A : Type) (f : A -> bool) (l : list A) :
  (forall x, List.In x l -> f x = true) -> List.filter f l = l.
Proof.
  induction l as [|a l IH]; intros H; [reflexivity|]. cbn [List.filter].
  rewrite (H a (or_introl eq_refl)). f_equal. apply IH. intros x Hx. apply H. now right.
Qed.

(** X24.  Saving and then deleting the saved entry gives the history back
    as it was, provided the history was not full and no earlier entry has
    the identifier (the time in milliseconds) of the new one. *)
Theorem save_then_delete_restores_the_history
        (now : Z) (iso s m : jsstring) (current : entry) (st : storage) :
  is_blank (Some s) = false ->
  (List.length (stored st) < 50)%nat ->
  (forall e, List.In e (stored st) -> id e <> now) ->
  id current = now ->
  deleteHistoryItem true true (Some current)
    (saveToHistory true true now iso (Some s) m st)
  = Some (stored st).
Proof.
  intros Hb Hlen Hfresh Hid.
  rewrite (@saveToHistory_front now iso s m st Hb ltac:(lia)).
  rewrite List.firstn_all2 by (cbn [List.length]; lia).
  unfold deleteHistoryItem. cbn [negb stored List.filter id]. rewrite Hid, Z.eqb_refl.
  cbn [negb]. f_equal. apply filter_all. intros e He.
  apply negb_true_iff. apply Z.eqb_neq. now apply Hfresh.
Qed.

(** X25.  No blank text is ever stored: when every entry of the history
    has a text that is not blank, this is still so after any message to
    the background, after deleting and after clearing. *)
Theorem history_entries_are_never_blank (get_ok set_ok confirmed : bool) (now : Z)
        (iso : jsstring) (msg : message) (current : option entry) (st : storage) :
  let filled := List.Forall (fun e => is_blank (Some (text e)) = false) in
  filled (stored st) ->
  filled (stored (snd (onMessage get_ok set_ok now iso msg st))) /\
  filled (stored (deleteHistoryItem get_ok set_ok current st)) /\
  filled (stored (clearHistory confirmed set_ok st)).
Proof.
  intros filled Hst. split; [|split].
  - destruct msg as [|m|t m|]; cbn [onMessage snd]; try exact Hst.
    destruct (saveToHistory_cases get_ok set_ok now iso t m st)
      as [-> | [s [_ [Hb ->]]]]; [exact Hst|].
    cbn [stored]. apply Forall_firstn. constructor; [exact Hb | exact Hst].
  - unfold deleteHistoryItem. destruct current as [c|]; [|exact Hst].
    destruct get_ok; cbn [negb]; [|exact Hst]. destruct set_ok; [|exact Hst].
    cbn [stored]. now apply Forall_filter.
  - unfold clearHistory. destruct (confirmed && set_ok)%bool; [constructor | exact Hst].
Qed.

End HistoryFacts.

Lemma history_stays_within_50_witness :
  let e := fun k => History.mkEntry k (JS.lit "text") (JS.lit "model") (JS.lit "iso")
                      (JS.lit "text") in
  let st := Some (List.map e (Effects.upto 50)) in
  (List.length
     (History.stored
        (snd (History.onMessage true true 99 (JS.lit "iso")
                (History.SaveTranscription (Some (JS.lit "new")) (JS.lit "model")) st)))
   <= 50)%nat /\
  (List.length (History.stored (History.deleteHistoryItem true true (Some (e 3%Z)) st))
   <= 50)%nat /\
  (List.length (History.stored (History.clearHistory true true st)) <= 50)%nat.
Proof.
  intros e st.
  apply (@history_stays_within_50 true true true 99 (JS.lit "iso")
           (History.SaveTranscription (Some (JS.lit "new")) (JS.lit "model"))
           (Some (e 3%Z)) st).
  vm_compute. apply le_n.
Defined.

Lemma saved_entry_is_newest_witness :
  let e := fun k => History.mkEntry k (JS.lit "text") (JS.lit "model") (JS.lit "iso")
                      (JS.lit "text") in
  let st := Some (List.map e (Effects.upto 50)) in
  History.saveToHistory true true 99 (JS.lit "iso") (Some (JS.lit "new")) (JS.lit "model") st
  = Some (List.firstn 50
            (History.mkEntry 99 (JS.lit "new") (JS.lit "model") (JS.lit "iso")
               (History.make_preview (JS.lit "new")) :: History.stored st)) /\
  (List.length (History.make_preview (JS.lit "new")) <= 103)%nat /\
  List.firstn 100 (History.make_preview (JS.lit "new")) = List.firstn 100 (JS.lit "new").
Proof.
  intros e st.
  apply (@saved_entry_is_newest 99 (JS.lit "iso") (JS.lit "new") (JS.lit "model") st).
  - reflexivity.
  - vm_compute. apply le_n.
Defined.

Lemma save_then_delete_restores_the_history_witness :
  let old := History.mkEntry 5 (JS.lit "text") (JS.lit "model") (JS.lit "iso")
               (JS.lit "text") in
  let current := History.mkEntry 99 (JS.lit "new") (JS.lit "model") (JS.lit "iso")
                   (JS.lit "new") in
  History.deleteHistoryItem true true (Some current)
    (History.saveToHistory true true 99 (JS.lit "iso") (Some (JS.lit "new"))
       (JS.lit "model") (Some [old]))
  = Some [old].
Proof.
  intros old current.
  apply (@save_then_delete_restores_the_history 99 (JS.lit "iso") (JS.lit "new")
           (JS.lit "model") current (Some [old])).
  - reflexivity.
  - cbn. lia.
  - intros e [<- | []]. discriminate.
  - reflexivity.
Defined.

Lemma history_entries_are_never_blank_witness :
  let old := History.mkEntry 5 (JS.lit "text") (JS.lit "model") (JS.lit "iso")
               (JS.lit "text") in
  let filled := List.Forall (fun e => History.is_blank (Some (History.text e)) = false) in
  filled (History.stored
            (snd (History.onMessage true true 99 (JS.lit "iso")
                    (History.SaveTranscription (Some (JS.lit "   ")) (JS.lit "model"))
                    (Some [old])))) /\
  filled (History.stored (History.deleteHistoryItem true true (Some old) (Some [old]))) /\
  filled (History.stored (History.clearHistory true true (Some [old]))).
Proof.
  intros old filled.
  apply (@history_entries_are_never_blank true true true 99 (JS.lit "iso")
           (History.SaveTranscription (Some (JS.lit "   ")) (JS.lit "model"))
           (Some old) (Some [old])).
  constructor; [reflexivity | constructor].
Defined.

(** ** The recording timer *)

Section TimerFacts.
Import JS Effects Timer.

Lemma Qtrunc_nonneg (q : Q) : Qle_bool 0 q = true -> Wav.Qtrunc q = Qfloor q.
Proof. intros H. unfold Wav.Qtrunc, Wav.Qlt_bool. now rewrite H. Qed.

(** [Math.floor(q % m)] for a number that is not negative. *)
Lemma floor_js_rem (q : Q) (m : positive) :
  Qle_bool 0 q = true ->
  Qfloor (js_rem q (inject_Z (Zpos m))) = (Qfloor q mod Zpos m)%Z.
Proof.
  intros Hq. unfold js_rem.
  assert (Hk : Wav.Qtrunc (q / inject_Z (Z.pos m)) = (Qfloor q / Zpos m)%Z).
  { rewrite Qtrunc_nonneg.
    - destruct q as [a d]. unfold Qfloor, Qdiv, Qmult, Qinv, inject_Z.
      cbn [Qnum Qden]. rewrite Z.mul_1_r. rewrite Pos2Z.inj_mul.
      now rewrite Z.div_div by lia.
    - destruct q as [a d]. unfold Qle_bool, Qdiv, Qmult, Qinv, inject_Z in *.
      cbn [Qnum Qden] in *. apply Z.leb_le in Hq. apply Z.leb_le. lia. }
  rewrite Hk. destruct q as [a d]. unfold Qfloor, Qminus, Qplus, Qopp, Qmult, inject_Z.
  cbn [Qnum Qden]. change (1 * 1)%positive with 1%positive.
  rewrite Pos.mul_1_r, Z.mul_1_r.
  replace (- (Z.pos m * (a / Z.pos d / Z.pos m)) * Z.pos d)%Z
    with ((- (Z.pos m * (a / Z.pos d / Z.pos m))) * Z.pos d)%Z by reflexivity.
  rewrite Z.div_add by lia. rewrite Z.mod_eq by lia. lia.
Qed.

Lemma seconds_nonneg (ms : Z) :
  (0 <= ms)%Z -> Qle_bool 0 (inject_Z ms / inject_Z 1000) = true.
Proof.
  intros H. unfold Qle_bool, Qdiv, Qmult, Qinv, inject_Z. cbn [Qnum Qden].
  apply Z.leb_le. lia.
Qed.

Lemma minutes_nonneg (ms : Z) :
  (0 <= ms)%Z -> Qle_bool 0 (inject_Z ms / inject_Z 1000 / inject_Z 60) = true.
Proof.
  intros H. unfold Qle_bool, Qdiv, Qmult, Qinv, inject_Z. cbn [Qnum Qden].
  apply Z.leb_le. lia.
Qed.

Lemma floor_minutes (ms : Z) :
  Qfloor (inject_Z ms / inject_Z 1000 / inject_Z 60) = (ms / 60000)%Z.
Proof.
  unfold Qfloor, Qdiv, Qmult, Qinv, inject_Z. cbn [Qnum Qden].
  rewrite !Z.mul_1_r. reflexivity.
Qed.

Lemma pad_two_digits (n : Z) :
  (0 <= n < 100)%Z -> padStart2 (toString n) = two_digits n.
Proof.
  intros Hn.
  assert (Hall : List.forallb
                   (fun k => str_eqb (padStart2 (toString k)) (two_digits k))
                   (upto 100) = true) by (vm_compute; reflexivity).
  rewrite List.forallb_forall in Hall.
  apply str_eqb_eq. apply Hall. now apply In_upto.
Qed.

Lemma formatTime_fields (ms : Z) :
  (0 <= ms)%Z ->
  formatTime ms
  = two_digits ((ms / 60000) mod 60) ++ [58%N] ++ two_digits ((ms / 1000) mod 60).
Proof.
  intros Hms. unfold formatTime.
  rewrite (@floor_js_rem _ 60 (@seconds_nonneg ms Hms)).
  rewrite (@floor_js_rem _ 60 (@minutes_nonneg ms Hms)).
  rewrite floor_minutes, Qfloor_div_pos.
  rewrite !pad_two_digits; [reflexivity | |];
    (split; [apply Z.mod_pos_bound; lia
            | pose proof (Z.mod_pos_bound (ms / 1000) 60 ltac:(lia));
              pose proof (Z.mod_pos_bound (ms / 60000) 60 ltac:(lia)); lia]).
Qed.

(** X26.  For a time that is not negative the popup's timer always shows
    five characters, two digits of minutes, a colon and two digits of
    seconds; the minutes are taken modulo 60, so the display wraps around
    to "00:00" after an hour. *)
Theorem formatTime_is_a_wrapping_clock (ms : Z) :
  (0 <= ms)%Z ->
  formatTime ms
  = two_digits ((ms / 60000) mod 60) ++ [58%N] ++ two_digits ((ms / 1000) mod 60).
Proof. apply formatTime_fields. Qed.

(** X27.  Below one hour the timers of the popup and of the side panel
    show the same text. *)
Theorem timers_agree_below_an_hour (ms : Z) :
  (0 <= ms < 3600000)%Z -> formatTime ms = formatTime_sidepanel ms.
Proof.
  intros Hms. rewrite formatTime_fields by lia.
  unfold formatTime_sidepanel. rewrite !Qfloor_div_pos.
  rewrite Z.div_div by lia. change (1000 * 60)%Z with 60000%Z.
  assert (Hmin : (0 <= ms / 60000 < 60)%Z).
  { split; [apply Z.div_pos; lia | apply Z.div_lt_upper_bound; lia]. }
  rewrite Z.mod_small by exact Hmin.
  rewrite Z.rem_mod_nonneg by (try apply Z.div_pos; lia).
  pose proof (Z.mod_pos_bound (ms / 1000) 60 ltac:(lia)).
  rewrite !pad_two_digits by lia. reflexivity.
Qed.

End TimerFacts.

Lemma formatTime_is_a_wrapping_clock_witness :
  Timer.formatTime 3725000 = JS.lit "02:05".
Proof.
  rewrite (@formatTime_is_a_wrapping_clock 3725000 ltac:(lia)). reflexivity.
Defined.

Lemma timers_agree_below_an_hour_witness :
  Timer.formatTime 3599999 = Timer.formatTime_sidepanel 3599999.
Proof. apply (@timers_agree_below_an_hour 3599999). lia. Defined.

(** ** processRecording of the side panel *)

Section SidepanelFacts.
Import JS Sanitizer Effects.

Variable selectedModel : jsstring.
Variables delivered get_ok set_ok : bool.
Variable now : Z.
Variable iso : jsstring.

Lemma ends_with_period_snoc (v : jsstring) :
  Sidepanel.ends_with_period v = true -> exists body, v = body ++ [46%N].
Proof.
  unfold Sidepanel.ends_with_period. intros H.
  destruct (List.rev v) as [|c l] eqn:Hrev; [discriminate|].
  apply N.eqb_eq in H. subst c. exists (List.rev l).
  rewrite <- (List.rev_involutive v), Hrev. reflexivity.
Qed.

(** X28.  In the side panel a new text is always set off from a
    transcript that is not empty by a period and a space: the period is
    the transcript's own when it ends with one and is added when it does
    not. *)
Theorem sidepanel_separates_by_a_period (t : jsstring) (st : Sidepanel.state) :
  truthy t = true ->
  truthy (Sidepanel.value st) = true ->
  exists body,
    Sidepanel.value st
    = body ++ (if Sidepanel.ends_with_period (Sidepanel.value st) then [46%N] else []) /\
    Sidepanel.value
      (fst (Sidepanel.processRecording true (Return (Some t)) selectedModel
              delivered get_ok set_ok now iso st))
    = body ++ lit ". " ++ cleanWhisperOutput (Some t).
Proof.
  intros Ht Hv. unfold Sidepanel.processRecording. cbn [bind].
  destruct t as [|c t']; [discriminate|]. cbn [fst Sidepanel.value]. rewrite Hv.
  destruct (Sidepanel.ends_with_period (Sidepanel.value st)) eqn:Hp.
  - destruct (ends_with_period_snoc _ Hp) as [body Hbody]. exists body.
    split; [exact Hbody|]. rewrite Hbody. now rewrite <- List.app_assoc.
  - exists (Sidepanel.value st). split; [now rewrite List.app_nil_r | reflexivity].
Qed.

Lemma trim_trim (s : jsstring) : trim (trim s) = trim s.
Proof.
  apply trim_fixed.
  - unfold trim, trimStart. apply trimEnd_starts_outside, drop_while_starts_outside.
  - unfold trim. apply trimEnd_ends_outside.
Qed.

(** X29.  After a transcription in the side panel the newest entry of the
    history holds the whole transcript as it now stands, trimmed, and not
    only the text that was just added. *)
Theorem sidepanel_saves_the_whole_transcript (t : jsstring) (st : Sidepanel.state) :
  let st' := fst (Sidepanel.processRecording true (Return (Some t)) selectedModel
                    true true true now iso st) in
  let whole := trim (Sidepanel.value st') in
  truthy t = true ->
  truthy whole = true ->
  List.hd_error (History.stored (Sidepanel.storage st'))
  = Some (History.mkEntry now whole selectedModel iso (History.make_preview whole)).
Proof.
  intros st' whole Ht Hwhole. subst st' whole. revert Hwhole.
  unfold Sidepanel.processRecording. cbn [bind].
  destruct t as [|c t']; [discriminate|]. cbn [fst Sidepanel.value Sidepanel.storage].
  set (v := if truthy (Sidepanel.value st) then _ else _). intros Hwhole.
  unfold History.saveTranscriptionToHistory. rewrite Hwhole. cbn [negb].
  cbn [History.onMessage snd]. unfold History.saveToHistory.
  assert (Hb : History.is_blank (Some (trim v)) = false).
  { unfold History.is_blank. rewrite trim_trim, Hwhole. reflexivity. }
  rewrite Hb. cbn [negb]. cbv zeta. cbn [History.stored].
  destruct (Nat.ltb_spec 50 (List.length
              (History.mkEntry now (trim v) selectedModel iso
                 (History.make_preview (trim v)) :: History.stored (Sidepanel.storage st))))
    as [Hfull|Hroom]; [|reflexivity].
  destruct (History.stored (Sidepanel.storage st)) as [|e rest]; [cbn in Hfull; lia|].
  reflexivity.
Qed.

End SidepanelFacts.

Lemma sidepanel_separates_by_a_period_witness :
  let st := Sidepanel.mkState (JS.lit "First sentence.") [] None in
  exists body,
    Sidepanel.value st
    = body ++ (if Sidepanel.ends_with_period (Sidepanel.value st) then [46%N] else []) /\
    Sidepanel.value
      (fst (Sidepanel.processRecording true (Effects.Return (Some (JS.lit "second one")))
              (JS.lit "model") true true true 7 (JS.lit "iso") st))
    = body ++ JS.lit ". " ++ Sanitizer.cleanWhisperOutput (Some (JS.lit "second one")).
Proof.
  intros st.
  apply (@sidepanel_separates_by_a_period (JS.lit "model") true true true 7 (JS.lit "iso")
           (JS.lit "second one") st); reflexivity.
Defined.

Lemma sidepanel_saves_the_whole_transcript_witness :
  let st := Sidepanel.mkState (JS.lit "First sentence.") [] None in
  List.hd_error
    (History.stored
       (Sidepanel.storage
          (fst (Sidepanel.processRecording true
                  (Effects.Return (Some (JS.lit "second one")))
                  (JS.lit "model") true true true 7 (JS.lit "iso") st))))
  = Some (History.mkEntry 7 (JS.lit "First sentence. second one") (JS.lit "model")
            (JS.lit "iso") (JS.lit "First sentence. second one")).
Proof.
  intros st.
  rewrite (@sidepanel_saves_the_whole_transcript (JS.lit "model") 7 (JS.lit "iso")
             (JS.lit "second one") st eq_refl eq_refl).
  reflexivity.
Defined.

(** ** The two cleaners *)

Section CleanerFacts.
Import JS Sanitizer.

Lemma replace_all_from_In (m : matcher) (s : jsstring) :
  forall (skip : nat) (c : char),
    List.In c (replace_all_from m [] skip s) -> List.In c s.
Proof.
  induction s as [|d t IH]; intros skip c; [intros []|].
  cbn [replace_all_from]. destruct skip as [|k].
  - destruct (m (d :: t)) as [rest|].
    + destruct (Nat.sub (List.length (d :: t)) (List.length rest)) as [|k].
      * intros [<- | H]; [now left | right; now apply (IH 0%nat)].
      * cbn [List.app]. intros H. right. now apply (IH k).
    + intros [<- | H]; [now left | right; now apply (IH 0%nat)].
  - intros H. right. now apply (IH k).
Qed.

Lemma replace_all_keeps_out (m : matcher) (s : jsstring) (c : char) :
  ~ List.In c s -> ~ List.In c (replace_all m [] s).
Proof. intros H Hin. apply H. now apply (@replace_all_from_In m s 0%nat). Qed.

(** X30.  On a text without an opening square bracket the cleaner of the
    stand-alone script and the shared cleaner give the same result: the
    three steps the script lacks only ever remove bracketed markers. *)
Theorem cleaners_agree_without_brackets (text : jsstring) :
  ~ List.In LBRACKET text ->
  Standalone.cleanWhisperOutput (Some text) = cleanWhisperOutput (Some text).
Proof.
  intros Hno. destruct text as [|c0 t0]; [reflexivity|].
  cbn [Standalone.cleanWhisperOutput cleanWhisperOutput].
  unfold Standalone.clean_text, clean_text.
  set (s9 := replace_all m_tag [] _).
  assert (H9 : ~ List.In LBRACKET s9).
  { subst s9. repeat apply replace_all_keeps_out. exact Hno. }
  assert (Hhead : forall d, List.In d s9 -> char_eqb LBRACKET d = false).
  { intros d Hd. apply N.eqb_neq. intros Heq. apply H9. now rewrite Heq. }
  rewrite (@replace_all_no_match (m_lit (lit "[BLANK_AUDIO]")) [] s9).
  2:{ intros d u Hd. apply m_lit_head. now apply Hhead. }
  assert (Hms : remove_at_start m_music_start s9 = s9).
  { unfold remove_at_start, m_music_start, m_seq at 1, m_star.
    destruct (drop_while is_space s9) as [|d u] eqn:Hdrop; [reflexivity|].
    unfold m_music_core. rewrite m_one_seq_head; [reflexivity|].
    apply Hhead. apply (@drop_while_In is_space). rewrite Hdrop. now left. }
  rewrite Hms.
  assert (Hme : remove_first m_music_end s9 = s9).
  { apply remove_first_no_match; [reflexivity|].
    intros d u Hd. unfold m_music_end, m_to_end, m_music_core.
    rewrite m_one_seq_head; [reflexivity|]. now apply Hhead. }
  rewrite Hme. reflexivity.
Qed.

End CleanerFacts.

Lemma cleaners_agree_without_brackets_witness :
  Standalone.cleanWhisperOutput (Some (JS.lit "<|startoftranscript|> Hello,  there.<|endoftext|>"))
  = JS.lit "Hello, there"
  /\ Sanitizer.cleanWhisperOutput (Some (JS.lit "<|startoftranscript|> Hello,  there.<|endoftext|>"))
     = JS.lit "Hello, there".
Proof.
  assert (Hno : ~ List.In JS.LBRACKET
                    (JS.lit "<|startoftranscript|> Hello,  there.<|endoftext|>")).
  { intros H. vm_compute in H.
    repeat (destruct H as [H|H]; [discriminate H|]). exact H. }
  rewrite (@cleaners_agree_without_brackets _ Hno).
  split; vm_compute; reflexivity.
Defined.
